(** * A todo-list widget: the state/render engine of [src/app.ts] and of its
    priority-enabled variant [src/unnamed/part_001]

    The development embeds the two TypeScript classes [TodoApp] shallowly:
    the private collection [todos], the active filter, the [localStorage]
    slot ['todos'] and the part of the document the class writes are the
    fields of an explicit state record; every method is a function of the
    state in a small state-and-exception monad, where the only exceptions
    are those of the platform calls the class makes ([JSON.parse] and the
    callback of [Array.prototype.map] in [loadFromStorage]).

    The platform functions the class calls ([String.prototype.trim],
    [JSON.stringify], [JSON.parse], [Date.prototype.toISOString], the
    [Date] constructor on a string) are written out after ECMA-262.
    [src/unnamed/part_000] is the compiled JavaScript of [src/app.ts] and
    has the same methods.

    What is taken from the page and the platform, neither being part of
    the sources: the page holds the elements the constructor looks up by
    id; [localStorage.setItem] stores what it is given; the only elements
    of the page with a [data-id] attribute are those [renderTodos] writes,
    one per record rendered. *)

From Stdlib Require Import List ZArith NArith Lia Bool String Ascii.
Import ListNotations.

Set Implicit Arguments.

(** ** JavaScript strings *)

(** A JavaScript string is a sequence of UTF-16 code units.  Code units are
    the numbers below 65536; nothing below depends on that bound. *)
Definition jsstring := list N.

(** The code units of an ASCII literal. *)
Definition js (s : string) : jsstring :=
  map N_of_ascii (list_ascii_of_string s).

Fixpoint str_eqb (a b : jsstring) : bool :=
  match a, b with
  | [], [] => true
  | x :: a', y :: b' => N.eqb x y && str_eqb a' b'
  | _, _ => false
  end.

(** ToBoolean on a string: every string but the empty one is truthy. *)
Definition truthy (s : jsstring) : bool :=
  match s with [] => false | _ :: _ => true end.

(** ECMA-262 WhiteSpace and LineTerminator code points, the ones
    [String.prototype.trim] strips: TAB, LF, VT, FF, CR, SP, NBSP, the
    Unicode space separators (Zs), LS, PS and ZWNBSP. *)
Definition is_white_space (c : N) : bool :=
  match c with
  | 9 | 10 | 11 | 12 | 13 | 32 | 160 => true
  | 5760 => true
  | 8192 | 8193 | 8194 | 8195 | 8196 | 8197 | 8198 | 8199 | 8200 | 8201
  | 8202 => true
  | 8232 | 8233 | 8239 | 8287 | 12288 | 65279 => true
  | _ => false
  end%N.

Fixpoint trimStart (s : jsstring) : jsstring :=
  match s with
  | [] => []
  | c :: r => if is_white_space c then trimStart r else s
  end.

Definition trimEnd (s : jsstring) : jsstring := rev (trimStart (rev s)).

(** [String.prototype.trim]. *)
Definition trim (s : jsstring) : jsstring := trimEnd (trimStart s).

(** [String.prototype.substr(start)] for a start inside the string or at
    its end, as [generateId] calls it. *)
Definition substr (start : nat) (s : jsstring) : jsstring := skipn start s.

(** ** Numbers to digits *)

Definition digit_char (d : Z) : N := (48 + Z.to_N d)%N.

(** The [width] low decimal digits of [n], most significant first
    (ECMA-262 pads the fields of a date this way). *)
Fixpoint pad_digits (width : nat) (n : Z) : jsstring :=
  match width with
  | O => []
  | S w => pad_digits w (n / 10) ++ [digit_char (n mod 10)]
  end.

(** Digit of radix 36, lower case: [0-9a-z]. *)
Definition radix36_char (d : Z) : N :=
  if (d <? 10)%Z then (48 + Z.to_N d)%N else (87 + Z.to_N d)%N.

Fixpoint radix36_digits (p : positive) (fuel : nat) (acc : jsstring)
  : jsstring :=
  match fuel with
  | O => acc
  | S f =>
      let q := (Z.pos p / 36)%Z in
      let acc' := radix36_char (Z.pos p mod 36)%Z :: acc in
      match q with
      | Z.pos p' => radix36_digits p' f acc'
      | _ => acc'
      end
  end.

(** [Number.prototype.toString(36)] on an integer. *)
Definition toString36 (n : Z) : jsstring :=
  match n with
  | Z0 => js "0"
  | Z.pos p => radix36_digits p (Pos.size_nat p) []
  | Z.neg p => js "-" ++ radix36_digits p (Pos.size_nat p) []
  end.

(** ** Time values and their ISO form (ECMA-262, Date objects) *)

Module JsDate.
Local Open Scope Z_scope.

(** A [Date] holds a time value: milliseconds since the epoch, UTC. *)
Definition time := Z.

Definition msPerDay : Z := 86400000.
Definition maxTime : Z := 8640000000000000.

(** The time values a [Date] can hold (TimeClip). *)
Definition valid_time (t : time) : Prop := - maxTime <= t <= maxTime.

Definition valid_timeb (t : time) : bool :=
  (- maxTime <=? t) && (t <=? maxTime).

Definition Day (t : time) : Z := t / msPerDay.
Definition TimeWithinDay (t : time) : Z := t mod msPerDay.

Definition DayFromYear (y : Z) : Z :=
  365 * (y - 1970) + (y - 1969) / 4 - (y - 1901) / 100 + (y - 1601) / 400.

Definition InLeapYear (y : Z) : bool :=
  ((y mod 4 =? 0) && negb (y mod 100 =? 0)) || (y mod 400 =? 0).

Definition DaysInYear (y : Z) : Z := if InLeapYear y then 366 else 365.

(** The largest year whose first day is not after day [d]: an estimate
    from the mean length of a year, corrected by at most one. *)
Definition YearFromDay (d : Z) : Z :=
  let y0 := 1970 + (400 * d) / 146097 in
  if d <? DayFromYear y0 then y0 - 1
  else if DayFromYear (y0 + 1) <=? d then y0 + 1
  else y0.

Definition YearFromTime (t : time) : Z := YearFromDay (Day t).

Definition DayWithinYear (t : time) : Z :=
  Day t - DayFromYear (YearFromTime t).

(** Number of days of the year before month [m] (0 = January). *)
Definition DaysBeforeMonth (leap : bool) (m : Z) : Z :=
  let l := if leap then 1 else 0 in
  match m with
  | 0 => 0
  | 1 => 31
  | 2 => 59 + l
  | 3 => 90 + l
  | 4 => 120 + l
  | 5 => 151 + l
  | 6 => 181 + l
  | 7 => 212 + l
  | 8 => 243 + l
  | 9 => 273 + l
  | 10 => 304 + l
  | 11 => 334 + l
  | _ => 365 + l
  end.

Definition DaysInMonth (leap : bool) (m : Z) : Z :=
  DaysBeforeMonth leap (m + 1) - DaysBeforeMonth leap m.

Definition MonthFromTime (t : time) : Z :=
  let d := DayWithinYear t in
  let b := DaysBeforeMonth (InLeapYear (YearFromTime t)) in
  if d <? b 1 then 0 else if d <? b 2 then 1 else if d <? b 3 then 2
  else if d <? b 4 then 3 else if d <? b 5 then 4 else if d <? b 6 then 5
  else if d <? b 7 then 6 else if d <? b 8 then 7 else if d <? b 9 then 8
  else if d <? b 10 then 9 else if d <? b 11 then 10 else 11.

Definition DateFromTime (t : time) : Z :=
  DayWithinYear t
  - DaysBeforeMonth (InLeapYear (YearFromTime t)) (MonthFromTime t) + 1.

Definition HourFromTime (t : time) : Z := (t / 3600000) mod 24.
Definition MinFromTime (t : time) : Z := (t / 60000) mod 60.
Definition SecFromTime (t : time) : Z := (t / 1000) mod 60.
Definition msFromTime (t : time) : Z := t mod 1000.

Definition MakeTime (h m s ms : Z) : Z :=
  h * 3600000 + m * 60000 + s * 1000 + ms.

(** MakeDay for a month in 0..11 and a day of the month. *)
Definition MakeDay (y m dt : Z) : Z :=
  DayFromYear y + DaysBeforeMonth (InLeapYear y) m + dt - 1.

Definition MakeDate (day tm : Z) : Z := day * msPerDay + tm.

(** The year of an ISO date: four digits for the years 0 to 9999, a sign
    and six digits otherwise. *)
Definition year_string (y : Z) : jsstring :=
  if (0 <=? y) && (y <=? 9999) then pad_digits 4 y
  else if 0 <=? y then js "+" ++ pad_digits 6 y
  else js "-" ++ pad_digits 6 (- y).

(** [Date.prototype.toISOString] on a [Date] holding time value [t]:
    [YYYY-MM-DDTHH:mm:ss.sssZ]. *)
Definition toISOString (t : time) : jsstring :=
  year_string (YearFromTime t) ++ js "-"
  ++ pad_digits 2 (MonthFromTime t + 1) ++ js "-"
  ++ pad_digits 2 (DateFromTime t) ++ js "T"
  ++ pad_digits 2 (HourFromTime t) ++ js ":"
  ++ pad_digits 2 (MinFromTime t) ++ js ":"
  ++ pad_digits 2 (SecFromTime t) ++ js "."
  ++ pad_digits 3 (msFromTime t) ++ js "Z".

(** Reading back [width] decimal digits. *)
Fixpoint read_digits (width : nat) (acc : Z) (s : jsstring)
  : option (Z * jsstring) :=
  match width with
  | O => Some (acc, s)
  | S w =>
      match s with
      | c :: r =>
          if (48 <=? c)%N && (c <=? 57)%N
          then read_digits w (10 * acc + Z.of_N (c - 48)) r
          else None
      | [] => None
      end
  end.

Definition expect (c : N) (s : jsstring) : option jsstring :=
  match s with
  | x :: r => if N.eqb x c then Some r else None
  | [] => None
  end.

(** A plus and six digits, a minus and six digits that are not all zero,
    or four digits. *)
Definition read_year (s : jsstring) : option (Z * jsstring) :=
  match s with
  | c :: r =>
      if (c =? 43)%N then read_digits 6 0 r
      else if (c =? 45)%N then
        match read_digits 6 0 r with
        | Some (y, r') => if y =? 0 then None else Some (- y, r')
        | None => None
        end
      else read_digits 4 0 s
  | [] => None
  end.

Definition obind {A B} (o : option A) (f : A -> option B) : option B :=
  match o with Some a => f a | None => None end.

(** The [Date] constructor applied to a string, on the complete UTC form
    of the Date Time String Format with every field in range, the form
    [toISOString] writes.  On any other string the result is left
    undetermined ([None]): ECMA-262 leaves the fall-back to the
    implementation, and the shorter forms depend on the local time zone. *)
Definition parse_iso (s : jsstring) : option time :=
  obind (read_year s) (fun '(y, s) =>
  obind (expect 45 s) (fun s =>
  obind (read_digits 2 0 s) (fun '(mo, s) =>
  obind (expect 45 s) (fun s =>
  obind (read_digits 2 0 s) (fun '(d, s) =>
  obind (expect 84 s) (fun s =>
  obind (read_digits 2 0 s) (fun '(h, s) =>
  obind (expect 58 s) (fun s =>
  obind (read_digits 2 0 s) (fun '(mi, s) =>
  obind (expect 58 s) (fun s =>
  obind (read_digits 2 0 s) (fun '(sec, s) =>
  obind (expect 46 s) (fun s =>
  obind (read_digits 3 0 s) (fun '(ms, s) =>
  obind (expect 90 s) (fun s =>
  match s with
  | [] =>
      if (1 <=? mo) && (mo <=? 12) && (1 <=? d)
         && (d <=? DaysInMonth (InLeapYear y) (mo - 1))
         && (h <=? 23) && (mi <=? 59) && (sec <=? 59)
      then
        let t := MakeDate (MakeDay y (mo - 1) d) (MakeTime h mi sec ms) in
        if valid_timeb t then Some t else None
      else None
  | _ :: _ => None
  end)))))))))))))).

End JsDate.


(** ** JSON texts (ECMA-262, the JSON object) *)

Module Json.

(** The values [JSON.parse] builds.  A number keeps its literal as written:
    no method of the class reads a number out of the stored text.  An object
    keeps its members in source order. *)
#[local] Unset Elimination Schemes.
Inductive json : Type :=
| JNull
| JBool (b : bool)
| JNum (literal : jsstring)
| JStr (s : jsstring)
| JArr (elements : list json)
| JObj (members : list (jsstring * json)).
#[local] Set Elimination Schemes.

Local Open Scope N_scope.

(** *** Writing strings: QuoteJSONString *)

Definition hex_char (d : N) : N := if d <? 10 then 48 + d else 87 + d.

(** UnicodeEscape: a backslash, [u] and four lower-case hex digits. *)
Definition unicode_escape (c : N) : jsstring :=
  [92; 117; hex_char ((c / 4096) mod 16); hex_char ((c / 256) mod 16);
   hex_char ((c / 16) mod 16); hex_char (c mod 16)].

Definition is_leading_surrogate (c : N) : bool :=
  (55296 <=? c) && (c <=? 56319).
Definition is_trailing_surrogate (c : N) : bool :=
  (56320 <=? c) && (c <=? 57343).

(** One code point that is not the first half of a surrogate pair. *)
Definition quote_unit (c : N) : jsstring :=
  if c =? 8 then [92; 98]
  else if c =? 9 then [92; 116]
  else if c =? 10 then [92; 110]
  else if c =? 12 then [92; 102]
  else if c =? 13 then [92; 114]
  else if c =? 34 then [92; 34]
  else if c =? 92 then [92; 92]
  else if (c <? 32) || is_trailing_surrogate c then unicode_escape c
  else [c].

(** The code points of the string in order: a leading surrogate followed
    by a trailing one is one code point and is copied, a surrogate on its
    own is escaped. *)
Fixpoint quote_chars (s : jsstring) : jsstring :=
  match s with
  | [] => []
  | c :: r =>
      if is_leading_surrogate c then
        match r with
        | d :: r' =>
            if is_trailing_surrogate d then c :: d :: quote_chars r'
            else unicode_escape c ++ quote_chars r
        | [] => unicode_escape c
        end
      else quote_unit c ++ quote_chars r
  end.

Definition QuoteJSONString (s : jsstring) : jsstring :=
  [34] ++ quote_chars s ++ [34].

(** *** Reading *)

Definition is_json_ws (c : N) : bool :=
  (c =? 9) || (c =? 10) || (c =? 13) || (c =? 32).

Fixpoint skip_ws (s : jsstring) : jsstring :=
  match s with
  | [] => []
  | c :: r => if is_json_ws c then skip_ws r else s
  end.

Fixpoint strip_prefix (p s : jsstring) : option jsstring :=
  match p with
  | [] => Some s
  | a :: p' =>
      match s with
      | b :: s' => if a =? b then strip_prefix p' s' else None
      | [] => None
      end
  end.

Definition hex_value (c : N) : option N :=
  if (48 <=? c) && (c <=? 57) then Some (c - 48)
  else if (97 <=? c) && (c <=? 102) then Some (c - 87)
  else if (65 <=? c) && (c <=? 70) then Some (c - 55)
  else None.

Definition hex4 (a b c d : N) : option N :=
  match hex_value a, hex_value b, hex_value c, hex_value d with
  | Some x, Some y, Some z, Some w => Some (4096 * x + 256 * y + 16 * z + w)
  | _, _, _, _ => None
  end.

Definition consopt (c : N) (o : option (jsstring * jsstring))
  : option (jsstring * jsstring) :=
  match o with
  | Some (str, rest) => Some (c :: str, rest)
  | None => None
  end.

(** The characters of a string literal after its opening quote, up to and
    including the closing quote. *)
Fixpoint parse_chars (s : jsstring) : option (jsstring * jsstring) :=
  match s with
  | [] => None
  | c :: r =>
      if c =? 34 then Some ([], r)
      else if c =? 92 then
        match r with
        | [] => None
        | e :: r1 =>
            if e =? 34 then consopt 34 (parse_chars r1)
            else if e =? 92 then consopt 92 (parse_chars r1)
            else if e =? 47 then consopt 47 (parse_chars r1)
            else if e =? 98 then consopt 8 (parse_chars r1)
            else if e =? 102 then consopt 12 (parse_chars r1)
            else if e =? 110 then consopt 10 (parse_chars r1)
            else if e =? 114 then consopt 13 (parse_chars r1)
            else if e =? 116 then consopt 9 (parse_chars r1)
            else if e =? 117 then
              match r1 with
              | h1 :: h2 :: h3 :: h4 :: r2 =>
                  match hex4 h1 h2 h3 h4 with
                  | Some v => consopt v (parse_chars r2)
                  | None => None
                  end
              | _ => None
              end
            else None
        end
      else if c <? 32 then None
      else consopt c (parse_chars r)
  end.

Definition is_digit (c : N) : bool := (48 <=? c) && (c <=? 57).

(** The longest prefix of digits, and what follows it. *)
Fixpoint take_digits (s : jsstring) : jsstring * jsstring :=
  match s with
  | c :: r =>
      if is_digit c then let (ds, r') := take_digits r in (c :: ds, r')
      else ([], s)
  | [] => ([], [])
  end.

(** JSONNumber: [-? (0 | [1-9][0-9]* ) (. [0-9]+)? ([eE] [+-]? [0-9]+)?]. *)
Definition number_int (s : jsstring) : option (jsstring * jsstring) :=
  match s with
  | c :: r =>
      if c =? 48 then Some ([c], r)
      else if is_digit c then let (ds, r') := take_digits r in Some (c :: ds, r')
      else None
  | [] => None
  end.

Definition number_frac (s : jsstring) : option (jsstring * jsstring) :=
  match s with
  | c :: r =>
      if c =? 46 then
        match take_digits r with
        | ([], _) => None
        | (ds, r') => Some (c :: ds, r')
        end
      else Some ([], s)
  | [] => Some ([], s)
  end.

Definition number_exp (s : jsstring) : option (jsstring * jsstring) :=
  match s with
  | c :: r =>
      if (c =? 101) || (c =? 69) then
        let (sign, r1) :=
          match r with
          | g :: r0 => if (g =? 43) || (g =? 45) then ([g], r0) else ([], r)
          | [] => ([], r)
          end in
        match take_digits r1 with
        | ([], _) => None
        | (ds, r') => Some (c :: sign ++ ds, r')
        end
      else Some ([], s)
  | [] => Some ([], s)
  end.

Definition parse_number (s : jsstring) : option (jsstring * jsstring) :=
  let (sign, s0) :=
    match s with
    | c :: r => if c =? 45 then ([c], r) else ([], s)
    | [] => ([], s)
    end in
  match number_int s0 with
  | Some (i, s1) =>
      match number_frac s1 with
      | Some (f, s2) =>
          match number_exp s2 with
          | Some (e, s3) => Some (sign ++ i ++ f ++ e, s3)
          | None => None
          end
      | None => None
      end
  | None => None
  end.

Definition keyword (k : string) (v : json) (s : jsstring)
  : option (json * jsstring) :=
  match strip_prefix (js k) s with
  | Some r => Some (v, r)
  | None => None
  end.

(** JSONValue, JSONElementList after the bracket, JSONMemberList after the
    brace.  The recursion is on a fuel that [JSON_parse] takes large enough
    for the text (lemma [parse_value_fuel] below). *)
Fixpoint parse_value (fuel : nat) (s : jsstring) {struct fuel}
  : option (json * jsstring) :=
  match fuel with
  | O => None
  | S f =>
      match skip_ws s with
      | [] => None
      | c :: r =>
          if c =? 34 then
            match parse_chars r with
            | Some (str, r') => Some (JStr str, r')
            | None => None
            end
          else if c =? 91 then
            match skip_ws r with
            | d :: r' =>
                if d =? 93 then Some (JArr [], r')
                else
                  match parse_elements f r with
                  | Some (vs, r2) => Some (JArr vs, r2)
                  | None => None
                  end
            | [] => None
            end
          else if c =? 123 then
            match skip_ws r with
            | d :: r' =>
                if d =? 125 then Some (JObj [], r')
                else
                  match parse_members f r with
                  | Some (ms, r2) => Some (JObj ms, r2)
                  | None => None
                  end
            | [] => None
            end
          else if c =? 116 then keyword "rue" (JBool true) r
          else if c =? 102 then keyword "alse" (JBool false) r
          else if c =? 110 then keyword "ull" JNull r
          else
            match parse_number (c :: r) with
            | Some (lit, r') => Some (JNum lit, r')
            | None => None
            end
      end
  end

with parse_elements (fuel : nat) (s : jsstring) {struct fuel}
  : option (list json * jsstring) :=
  match fuel with
  | O => None
  | S f =>
      match parse_value f s with
      | Some (v, r) =>
          match skip_ws r with
          | d :: r' =>
              if d =? 44 then
                match parse_elements f r' with
                | Some (vs, r2) => Some (v :: vs, r2)
                | None => None
                end
              else if d =? 93 then Some ([v], r')
              else None
          | [] => None
          end
      | None => None
      end
  end

with parse_members (fuel : nat) (s : jsstring) {struct fuel}
  : option (list (jsstring * json) * jsstring) :=
  match fuel with
  | O => None
  | S f =>
      match skip_ws s with
      | q :: r =>
          if q =? 34 then
            match parse_chars r with
            | Some (k, r1) =>
                match skip_ws r1 with
                | col :: r2 =>
                    if col =? 58 then
                      match parse_value f r2 with
                      | Some (v, r3) =>
                          match skip_ws r3 with
                          | d :: r4 =>
                              if d =? 44 then
                                match parse_members f r4 with
                                | Some (ms, r5) => Some ((k, v) :: ms, r5)
                                | None => None
                                end
                              else if d =? 125 then Some ([(k, v)], r4)
                              else None
                          | [] => None
                          end
                      | None => None
                      end
                    else None
                | [] => None
                end
            | None => None
            end
          else None
      | [] => None
      end
  end.

(** [JSON.parse]: one value, white space around it, nothing else.  [None]
    stands for the SyntaxError the function throws. *)
Definition JSON_parse (text : jsstring) : option json :=
  match parse_value (2 * List.length text + 1)%nat text with
  | Some (v, r) =>
      match skip_ws r with
      | [] => Some v
      | _ :: _ => None
      end
  | None => None
  end.

End Json.

(** ** Methods as state transformers that may throw *)

(** [DOMSyntaxError] is the DOMException of name SyntaxError that
    [querySelector] throws on a text that is no selector. *)
Inductive JsError : Type := SyntaxError | TypeError | DOMSyntaxError.

(** How a method call ends on a state of type [St]: it returns, or an
    exception leaves it, or ([Untyped]) it goes on in a way the types below
    do not describe, and the model stops there.  That is so in two places:
    [loadFromStorage] stores in [todos] values that are no [Todo] records
    (the cast of [JSON.parse]'s result is unchecked); and [querySelector]
    is called on a selector, or on a list whose markup, the model does not
    parse (see [data_id_selector] and [markup_plain]). *)
Inductive outcome (St A : Type) : Type :=
| Returns (a : A) (s : St)
| Throws (e : JsError) (s : St)
| Untyped.

Arguments Returns {St A} a s.
Arguments Throws {St A} e s.
Arguments Untyped {St A}.

Definition M (St A : Type) : Type := St -> outcome St A.

Definition ret {St A} (a : A) : M St A := fun s => Returns a s.

Definition bind {St A B} (m : M St A) (k : A -> M St B) : M St B :=
  fun s =>
    match m s with
    | Returns a s' => k a s'
    | Throws e s' => Throws e s'
    | Untyped => Untyped
    end.

Definition throw {St A} (e : JsError) : M St A := fun s => Throws e s.
Definition gets {St A} (f : St -> A) : M St A := fun s => Returns (f s) s.
Definition modify {St} (f : St -> St) : M St unit := fun s => Returns tt (f s).

Declare Scope js_scope.
Delimit Scope js_scope with js_m.
Notation "x <- m ;; k" := (bind m (fun x => k))
  (at level 61, m at next level, right associativity) : js_scope.
Notation "m ;; k" := (bind m (fun _ => k))
  (at level 61, right associativity) : js_scope.

(** ** Array methods the class uses *)

(** [Array.prototype.find]: the first element the callback accepts. *)
Definition Array_find {A} (f : A -> bool) (l : list A) : option A :=
  List.find f l.

(** [Array.prototype.filter]: a new array of the accepted elements. *)
Definition Array_filter {A} (f : A -> bool) (l : list A) : list A :=
  List.filter f l.

(** [Array.prototype.some]. *)
Definition Array_some {A} (f : A -> bool) (l : list A) : bool :=
  List.existsb f l.

(** [Array.prototype.join] on strings. *)
Fixpoint Array_join (sep : jsstring) (l : list jsstring) : jsstring :=
  match l with
  | [] => []
  | [x] => x
  | x :: r => x ++ sep ++ Array_join sep r
  end.

(** [find] returns a reference into the array, and the methods assign to a
    field of the object found: the array afterwards holds the changed
    object at the position of the first element the callback accepts. *)
Fixpoint update_found {A} (f : A -> bool) (g : A -> A) (l : list A)
  : list A :=
  match l with
  | [] => []
  | x :: r => if f x then g x :: r else x :: update_found f g r
  end.

(** [Number.prototype.toString()] on a natural number. *)
Fixpoint decimal_digits (fuel : nat) (n : N) (acc : jsstring) : jsstring :=
  match fuel with
  | O => acc
  | S f =>
      let acc' := (48 + n mod 10)%N :: acc in
      if (n / 10 =? 0)%N then acc' else decimal_digits f (n / 10)%N acc'
  end.

Definition Number_toString (n : nat) : jsstring :=
  decimal_digits (S (N.to_nat (N.log2 (N.of_nat n)))) (N.of_nat n) [].

(** The document's display values the class assigns. *)
Inductive Display : Type := block | none | flex.

Inductive FilterType : Type := Filter_all | Filter_active | Filter_completed.

(** What the clock and the random generator give to one [addTodo]. *)
Record Entropy : Type := mkEntropy {
  Date_now : Z;                 (* Date.now() in generateId *)
  Math_random_36 : jsstring;    (* Math.random().toString(36) *)
  new_Date : JsDate.time        (* the time value of new Date() *)
}.

(** ** Markup and selectors *)

(** [renderTodos] writes ids and titles into markup without escaping them,
    and [startEdit], [finishEdit] and [cancelEdit] write the id into the
    text of a selector.  The model reads both texts only where they say
    what the template means. *)

(** A code unit that stands for itself in the text of an element, in a
    double-quoted attribute value of the HTML syntax and in the value of
    an input box: not NUL, not CR (the parser turns it into LF), not LF
    (an input box drops line breaks from its value), not the quote, not
    [&] (a character reference may start there) and not [<] (a tag may
    start there). *)
Definition markup_char (c : N) : bool :=
  negb ((c =? 0) || (c =? 10) || (c =? 13) || (c =? 34) || (c =? 38)
        || (c =? 60))%N.

Definition markup_plain (s : jsstring) : bool := forallb markup_char s.

(** How the text [[data-id="${id}"]] reads as a selector. *)
Inductive Selector : Type :=
| ByDataId           (* the elements whose attribute [data-id] is the id *)
| InvalidSelector    (* no selector: [querySelector] throws *)
| OtherSelector.     (* another text, which the model does not parse *)

(** CSS Syntax, newline (before the tokenizer CR and FF count as LF) and
    whitespace. *)
Definition css_newline (c : N) : bool :=
  ((c =? 10) || (c =? 12) || (c =? 13))%N.

Definition css_whitespace (c : N) : bool :=
  (css_newline c || (c =? 9) || (c =? 32))%N.

(** After the string of an attribute selector only whitespace, the
    modifier [i] or [s], a comment, an escape (which can spell a modifier)
    or the closing bracket can go on to a selector. *)
Definition after_string_char (c : N) : bool :=
  (css_whitespace c || (c =? 93) || (c =? 105) || (c =? 73) || (c =? 115)
   || (c =? 83) || (c =? 92) || (c =? 47))%N.

(** The id is read inside a double-quoted CSS string.  A newline ends the
    string as a bad string, which no selector holds.  A quote ends the
    string; what follows the id in the template is a quote and a bracket.
    A backslash starts an escape, and NUL and surrogates are replaced
    before the tokenizer sees them: the string then need not be the id. *)
Fixpoint data_id_selector (i : jsstring) : Selector :=
  match i with
  | [] => ByDataId
  | c :: r =>
      if css_newline c then InvalidSelector
      else if (c =? 34)%N then
        if after_string_char (hd 34%N r) then OtherSelector
        else InvalidSelector
      else if ((c =? 92) || (c =? 0)
               || ((55296 <=? c) && (c <=? 57343)))%N then OtherSelector
      else data_id_selector r
  end.

(** ** [src/app.ts] *)

Module App.
Local Open Scope js_scope.

(** [interface Todo]. *)
Record Todo : Type := mkTodo {
  id : jsstring;
  title : jsstring;
  completed : bool;
  createdAt : JsDate.time
}.

(** One instance of the template of [renderTodos]: the id written into
    [data-id] and into the handlers, the class and checkbox that follow
    [completed], the title written into the label and the edit box; and
    the class [editing] of the [<li>] the instance is parsed to.  The
    instance is parsed to one [<li>] with that [data-id], that label and
    its edit box when id and title are plain markup ([item_wellformed]
    below); a title or id with markup in it gives other elements, which the
    model does not describe. *)
Record Item : Type := mkItem {
  data_id : jsstring;
  item_completed : bool;
  item_title : jsstring;
  editing : bool
}.

(** The part of the document the class reads and writes.  [todoCount] is
    the element the constructor looked up; it stays in the document as long
    as nothing replaces the content of its parent. *)
Record Dom : Type := mkDom {
  todoInput_value : jsstring;
  todoList : list Item;
  filter_selected : FilterType;
  todoCount_textContent : jsstring;
  todoCount_attached : bool;
  countSpan_innerHTML : jsstring;
  emptyState_display : Display;
  footer_display : Display;
  mainSection_display : Display;
  clearCompleted_display : Display
}.

Record State : Type := mkState {
  todos : list Todo;
  currentFilter : FilterType;
  storage : option jsstring;   (* localStorage.getItem('todos') *)
  dom : Dom
}.

Definition set_todos (l : list Todo) (s : State) : State :=
  mkState l (currentFilter s) (storage s) (dom s).
Definition set_currentFilter (f : FilterType) (s : State) : State :=
  mkState (todos s) f (storage s) (dom s).
Definition set_storage (v : option jsstring) (s : State) : State :=
  mkState (todos s) (currentFilter s) v (dom s).
Definition set_dom (d : Dom) (s : State) : State :=
  mkState (todos s) (currentFilter s) (storage s) d.

Definition set_completed (b : bool) (t : Todo) : Todo :=
  mkTodo (id t) (title t) b (createdAt t).
Definition set_title (v : jsstring) (t : Todo) : Todo :=
  mkTodo (id t) v (completed t) (createdAt t).

Definition has_id (i : jsstring) (t : Todo) : bool := str_eqb (id t) i.

(** *** Persistence *)

Definition bool_json (b : bool) : jsstring :=
  if b then js "true" else js "false".

(** [JSON.stringify] on one record: the own properties in creation order;
    a [Date] is written through [toJSON], that is [toISOString]. *)
Definition stringify_todo (t : Todo) : jsstring :=
  js "{" ++ Json.QuoteJSONString (js "id") ++ js ":"
         ++ Json.QuoteJSONString (id t)
  ++ js "," ++ Json.QuoteJSONString (js "title") ++ js ":"
         ++ Json.QuoteJSONString (title t)
  ++ js "," ++ Json.QuoteJSONString (js "completed") ++ js ":"
         ++ bool_json (completed t)
  ++ js "," ++ Json.QuoteJSONString (js "createdAt") ++ js ":"
         ++ Json.QuoteJSONString (JsDate.toISOString (createdAt t))
  ++ js "}".

(** [JSON.stringify(this.todos)]. *)
Definition JSON_stringify (l : list Todo) : jsstring :=
  js "[" ++ Array_join (js ",") (map stringify_todo l) ++ js "]".

Definition saveToStorage : M State unit :=
  l <- gets todos ;;
  modify (set_storage (Some (JSON_stringify l))).

(** What the callback of [map] in [loadFromStorage] does on one element of
    the parsed array.  The model follows it to a record only on an object
    as [saveToStorage] writes one: the members of the interface in that
    order and a creation time in the form of [toISOString].  On any other
    value the callback returns too, with an object the record type does
    not hold to the letter (members in another order, which
    [JSON.stringify] would keep; members missing or added; a date in
    another form, or none): that is [NotATodo]. *)
Inductive revived : Type :=
| Revived (t : Todo)       (* a record as [saveToStorage] writes it *)
| NotATodo                 (* any other object or primitive *)
| ReadOfNull.              (* [todo.createdAt] on null: TypeError *)

Definition revive (j : Json.json) : revived :=
  match j with
  | Json.JNull => ReadOfNull
  | Json.JObj [(k1, Json.JStr i); (k2, Json.JStr ti); (k3, Json.JBool c);
               (k4, Json.JStr d)] =>
      if str_eqb k1 (js "id") && str_eqb k2 (js "title")
         && str_eqb k3 (js "completed") && str_eqb k4 (js "createdAt")
      then
        match JsDate.parse_iso d with
        | Some t => Revived (mkTodo i ti c t)
        | None => NotATodo
        end
      else NotATodo
  | _ => NotATodo
  end.

(** [Array.prototype.map] with that callback, left to right: the first
    null element throws; otherwise the result is a list of records when
    every element is one. *)
Fixpoint revive_all (l : list Json.json) : outcome unit (list Todo) :=
  match l with
  | [] => Returns [] tt
  | j :: r =>
      match revive j with
      | ReadOfNull => Throws TypeError tt
      | Revived t =>
          match revive_all r with
          | Returns ts _ => Returns (t :: ts) tt
          | o => o
          end
      | NotATodo =>
          match revive_all r with
          | Throws e _ => Throws e tt
          | _ => Untyped
          end
      end
  end.

Definition loadFromStorage : M State unit :=
  stored <- gets storage ;;
  match stored with
  | None => ret tt
  | Some text =>
      if truthy text then
        match Json.JSON_parse text with
        | None => throw SyntaxError
        | Some (Json.JArr l) =>
            match revive_all l with
            | Returns ts _ => modify (set_todos ts)
            | Throws e _ => throw e
            | Untyped => fun _ => Untyped
            end
        | Some _ => throw TypeError   (* no method [map] on the value *)
        end
      else ret tt
  end.

(** *** Queries *)

Definition getFilteredTodos (s : State) : list Todo :=
  match currentFilter s with
  | Filter_active => Array_filter (fun t => negb (completed t)) (todos s)
  | Filter_completed => Array_filter (fun t => completed t) (todos s)
  | _ => todos s
  end.

(** The view under a filter: [getFilteredTodos] once [currentFilter] holds
    that filter. *)
Definition view (f : FilterType) (s : State) : list Todo :=
  getFilteredTodos (set_currentFilter f s).

(** *** Rendering *)

Definition item_of (t : Todo) : Item :=
  mkItem (id t) (completed t) (title t) false.

Definition item_wellformed (it : Item) : bool :=
  markup_plain (data_id it) && markup_plain (item_title it).

(** [todoList.innerHTML] is assigned the instances of the template for the
    records of the view, joined.  The assignment itself never fails. *)
Definition renderTodos : M State unit :=
  filteredTodos <- gets getFilteredTodos ;;
  modify (fun s =>
    let d := dom s in
    set_dom (mkDom (todoInput_value d) (map item_of filteredTodos)
               (filter_selected d) (todoCount_textContent d)
               (todoCount_attached d) (countSpan_innerHTML d)
               (emptyState_display d) (footer_display d)
               (mainSection_display d) (clearCompleted_display d)) s).

(** The constant [activeTodos] of [updateTodoCount]. *)
Definition activeTodos (l : list Todo) : nat :=
  List.length (Array_filter (fun t => negb (completed t)) l).

(** The constant [hasCompleted] of [updateEmptyState]. *)
Definition hasCompleted (l : list Todo) : bool :=
  Array_some (fun t => completed t) l.

(** Assigning [innerHTML] on the parent of [todoCount] replaces the
    parent's children, [todoCount] among them: from then on
    [todoCount.parentElement] is null. *)
Definition updateTodoCount : M State unit :=
  l <- gets todos ;;
  let n := activeTodos l in
  modify (fun s =>
    let d := dom s in
    let itemText :=
      if Nat.eqb n 1 then js "item left" else js "items left" in
    let html :=
      if todoCount_attached d
      then js "<strong>" ++ Number_toString n ++ js "</strong> " ++ itemText
      else countSpan_innerHTML d in
    set_dom (mkDom (todoInput_value d) (todoList d) (filter_selected d)
               (Number_toString n) false html
               (emptyState_display d) (footer_display d)
               (mainSection_display d) (clearCompleted_display d)) s).

Definition updateFilterButtons : M State unit :=
  modify (fun s =>
    let d := dom s in
    set_dom (mkDom (todoInput_value d) (todoList d) (currentFilter s)
               (todoCount_textContent d) (todoCount_attached d)
               (countSpan_innerHTML d) (emptyState_display d)
               (footer_display d) (mainSection_display d)
               (clearCompleted_display d)) s).

Definition updateEmptyState : M State unit :=
  l <- gets todos ;;
  let empty := Nat.eqb (List.length l) 0 in
  modify (fun s =>
    let d := dom s in
    set_dom (mkDom (todoInput_value d) (todoList d) (filter_selected d)
               (todoCount_textContent d) (todoCount_attached d)
               (countSpan_innerHTML d)
               (if empty then block else none)
               (if empty then none else flex)
               (if empty then none else block)
               (if hasCompleted l then block else none)) s).

Definition render : M State unit :=
  renderTodos ;; updateTodoCount ;; updateFilterButtons ;; updateEmptyState.

(** *** Mutations *)

Definition generateId (e : Entropy) : jsstring :=
  toString36 (Date_now e) ++ substr 2 (Math_random_36 e).

Definition addTodo (title : jsstring) (e : Entropy) : M State unit :=
  let todo := mkTodo (generateId e) title false (new_Date e) in
  modify (fun s => set_todos (todo :: todos s) s) ;;   (* unshift *)
  saveToStorage ;;
  render.

Definition toggleTodo (i : jsstring) : M State unit :=
  l <- gets todos ;;
  match Array_find (has_id i) l with
  | Some todo =>
      modify (set_todos
        (update_found (has_id i) (set_completed (negb (completed todo))) l)) ;;
      saveToStorage ;;
      render
  | None => ret tt
  end.

Definition deleteTodo (i : jsstring) : M State unit :=
  modify (fun s =>
    set_todos (Array_filter (fun t => negb (has_id i t)) (todos s)) s) ;;
  saveToStorage ;;
  render.

Definition editTodo (i newTitle : jsstring) : M State unit :=
  l <- gets todos ;;
  match Array_find (has_id i) l with
  | Some todo =>
      if truthy (trim newTitle) then
        modify (set_todos
          (update_found (has_id i) (set_title (trim newTitle)) l)) ;;
        saveToStorage ;;
        render
      else ret tt
  | None => ret tt
  end.

Definition setFilter (f : FilterType) : M State unit :=
  modify (set_currentFilter f) ;;
  updateFilterButtons ;;
  render.

Definition clearCompletedTodos : M State unit :=
  modify (fun s =>
    set_todos (Array_filter (fun t => negb (completed t)) (todos s)) s) ;;
  saveToStorage ;;
  render.

(** *** Editing in place *)

(** [document.querySelector(`[data-id="${id}"]`)].  The text is parsed
    first: when it is no selector the call throws.  When it selects by
    [data-id] and every instance in the list is well formed, the answer is
    the first [<li>] with that attribute, or null; the template of
    [renderTodos] is the only place the attribute is written. *)
Definition querySelector_data_id (i : jsstring) : M State (option Item) :=
  fun s =>
    match data_id_selector i with
    | InvalidSelector => Throws DOMSyntaxError s
    | OtherSelector => Untyped
    | ByDataId =>
        if forallb item_wellformed (todoList (dom s))
        then Returns
               (Array_find (fun it => str_eqb (data_id it) i)
                  (todoList (dom s))) s
        else Untyped
    end.

Definition set_editing (b : bool) (it : Item) : Item :=
  mkItem (data_id it) (item_completed it) (item_title it) b.

Definition set_item_class (i : jsstring) (b : bool) : M State unit :=
  modify (fun s =>
    let d := dom s in
    set_dom (mkDom (todoInput_value d)
               (update_found (fun it => str_eqb (data_id it) i)
                  (set_editing b) (todoList d))
               (filter_selected d) (todoCount_textContent d)
               (todoCount_attached d) (countSpan_innerHTML d)
               (emptyState_display d) (footer_display d)
               (mainSection_display d) (clearCompleted_display d)) s).

(** After [classList.add], [startEdit] looks up the edit box of the
    element and calls [focus] and [select] on it.  A well-formed [<li>] has
    its edit box, so the lookup is not null; focus and selection are not
    part of the state. *)
Definition startEdit (i : jsstring) : M State unit :=
  todoItem <- querySelector_data_id i ;;
  match todoItem with
  | Some _ => set_item_class i true
  | None => ret tt
  end.

Definition finishEdit (i newTitle : jsstring) : M State unit :=
  todoItem <- querySelector_data_id i ;;
  match todoItem with
  | Some _ =>
      set_item_class i false ;;
      if truthy (trim newTitle) then editTodo i newTitle
      else deleteTodo i
  | None => ret tt
  end.

Definition cancelEdit (i : jsstring) : M State unit :=
  todoItem <- querySelector_data_id i ;;
  match todoItem with
  | Some _ => set_item_class i false
  | None => ret tt
  end.

Definition toggleTodoPublic (i : jsstring) : M State unit := toggleTodo i.
Definition deleteTodoPublic (i : jsstring) : M State unit := deleteTodo i.

(** *** Start-up and listeners *)

Definition set_todoInput_value (v : jsstring) : M State unit :=
  modify (fun s =>
    let d := dom s in
    set_dom (mkDom v (todoList d) (filter_selected d)
               (todoCount_textContent d) (todoCount_attached d)
               (countSpan_innerHTML d) (emptyState_display d)
               (footer_display d) (mainSection_display d)
               (clearCompleted_display d)) s).

(** The [keypress] listener of the input box. *)
Definition on_keypress (key : jsstring) (e : Entropy) : M State unit :=
  v <- gets (fun s => todoInput_value (dom s)) ;;
  if str_eqb key (js "Enter") && truthy (trim v) then
    addTodo (trim v) e ;;
    set_todoInput_value []
  else ret tt.

(** The [click] listeners of a filter button and of "clear completed". *)
Definition on_filter_click (f : FilterType) : M State unit := setFilter f.
Definition on_clear_click : M State unit := clearCompletedTodos.

(** [init]; [setupDOMElements] and [setupEventListeners] look elements up
    and register the listeners above, and change nothing. *)
Definition init : M State unit :=
  loadFromStorage ;;
  render.

(** [new TodoApp()] on a page and a storage slot: the field initialisers,
    then [init]. *)
Definition new_TodoApp (stored : option jsstring) (page : Dom)
  : outcome State unit :=
  init (mkState [] Filter_all stored page).

End App.

(** ** [src/unnamed/part_001]: the variant with priorities *)

Module PriorityApp.
Local Open Scope js_scope.

Inductive Priority : Type := low | medium | high.

Definition Priority_eqb (a b : Priority) : bool :=
  match a, b with
  | low, low | medium, medium | high, high => true
  | _, _ => false
  end.

Definition Priority_string (p : Priority) : jsstring :=
  match p with
  | low => js "low"
  | medium => js "medium"
  | high => js "high"
  end.

(** [interface Todo]. *)
Record Todo : Type := mkTodo {
  id : jsstring;
  title : jsstring;
  completed : bool;
  createdAt : JsDate.time;
  priority : Priority
}.

(** One instance of the template of [renderTodos], and the class
    [editing] of the [div.todo-item] it is parsed to when id and title are
    plain markup ([item_wellformed] below). *)
Record Item : Type := mkItem {
  data_id : jsstring;
  item_completed : bool;
  item_title : jsstring;
  item_priority : Priority;
  editing : bool
}.

Record Dom : Type := mkDom {
  todoInput_value : jsstring;
  todoList : list Item;
  filter_active : FilterType;      (* the buttons of class [active] *)
  todoCount_textContent : jsstring;
  emptyState_display : Display
}.

Record State : Type := mkState {
  todos : list Todo;
  currentFilter : FilterType;
  storage : option jsstring;   (* localStorage.getItem('todos') *)
  dom : Dom
}.

Definition set_todos (l : list Todo) (s : State) : State :=
  mkState l (currentFilter s) (storage s) (dom s).
Definition set_currentFilter (f : FilterType) (s : State) : State :=
  mkState (todos s) f (storage s) (dom s).
Definition set_storage (v : option jsstring) (s : State) : State :=
  mkState (todos s) (currentFilter s) v (dom s).
Definition set_dom (d : Dom) (s : State) : State :=
  mkState (todos s) (currentFilter s) (storage s) d.

Definition set_completed (b : bool) (t : Todo) : Todo :=
  mkTodo (id t) (title t) b (createdAt t) (priority t).
Definition set_title (v : jsstring) (t : Todo) : Todo :=
  mkTodo (id t) v (completed t) (createdAt t) (priority t).
Definition set_priority (p : Priority) (t : Todo) : Todo :=
  mkTodo (id t) (title t) (completed t) (createdAt t) p.

Definition has_id (i : jsstring) (t : Todo) : bool := str_eqb (id t) i.

(** *** Persistence *)

Definition bool_json (b : bool) : jsstring :=
  if b then js "true" else js "false".

Definition stringify_todo (t : Todo) : jsstring :=
  js "{" ++ Json.QuoteJSONString (js "id") ++ js ":"
         ++ Json.QuoteJSONString (id t)
  ++ js "," ++ Json.QuoteJSONString (js "title") ++ js ":"
         ++ Json.QuoteJSONString (title t)
  ++ js "," ++ Json.QuoteJSONString (js "completed") ++ js ":"
         ++ bool_json (completed t)
  ++ js "," ++ Json.QuoteJSONString (js "createdAt") ++ js ":"
         ++ Json.QuoteJSONString (JsDate.toISOString (createdAt t))
  ++ js "," ++ Json.QuoteJSONString (js "priority") ++ js ":"
         ++ Json.QuoteJSONString (Priority_string (priority t))
  ++ js "}".

(** [JSON.stringify(this.todos)]. *)
Definition JSON_stringify (l : list Todo) : jsstring :=
  js "[" ++ Array_join (js ",") (map stringify_todo l) ++ js "]".

Definition saveToStorage : M State unit :=
  l <- gets todos ;;
  modify (set_storage (Some (JSON_stringify l))).

Definition Priority_of_string (s : jsstring) : option Priority :=
  if str_eqb s (js "low") then Some low
  else if str_eqb s (js "medium") then Some medium
  else if str_eqb s (js "high") then Some high
  else None.

Inductive revived : Type :=
| Revived (t : Todo)
| NotATodo
| ReadOfNull.

Definition revive (j : Json.json) : revived :=
  match j with
  | Json.JNull => ReadOfNull
  | Json.JObj [(k1, Json.JStr i); (k2, Json.JStr ti); (k3, Json.JBool c);
               (k4, Json.JStr d); (k5, Json.JStr p)] =>
      if str_eqb k1 (js "id") && str_eqb k2 (js "title")
         && str_eqb k3 (js "completed") && str_eqb k4 (js "createdAt")
         && str_eqb k5 (js "priority")
      then
        match JsDate.parse_iso d, Priority_of_string p with
        | Some t, Some pr => Revived (mkTodo i ti c t pr)
        | _, _ => NotATodo
        end
      else NotATodo
  | _ => NotATodo
  end.

Fixpoint revive_all (l : list Json.json) : outcome unit (list Todo) :=
  match l with
  | [] => Returns [] tt
  | j :: r =>
      match revive j with
      | ReadOfNull => Throws TypeError tt
      | Revived t =>
          match revive_all r with
          | Returns ts _ => Returns (t :: ts) tt
          | o => o
          end
      | NotATodo =>
          match revive_all r with
          | Throws e _ => Throws e tt
          | _ => Untyped
          end
      end
  end.

Definition loadFromStorage : M State unit :=
  stored <- gets storage ;;
  match stored with
  | None => ret tt
  | Some text =>
      if truthy text then
        match Json.JSON_parse text with
        | None => throw SyntaxError
        | Some (Json.JArr l) =>
            match revive_all l with
            | Returns ts _ => modify (set_todos ts)
            | Throws e _ => throw e
            | Untyped => fun _ => Untyped
            end
        | Some _ => throw TypeError
        end
      else ret tt
  end.

(** *** Queries and rendering *)

Definition getFilteredTodos (s : State) : list Todo :=
  match currentFilter s with
  | Filter_active => Array_filter (fun t => negb (completed t)) (todos s)
  | Filter_completed => Array_filter (fun t => completed t) (todos s)
  | _ => todos s
  end.

Definition view (f : FilterType) (s : State) : list Todo :=
  getFilteredTodos (set_currentFilter f s).

Definition item_of (t : Todo) : Item :=
  mkItem (id t) (completed t) (title t) (priority t) false.

Definition item_wellformed (it : Item) : bool :=
  markup_plain (data_id it) && markup_plain (item_title it).

Definition renderTodos : M State unit :=
  filteredTodos <- gets getFilteredTodos ;;
  modify (fun s =>
    let d := dom s in
    set_dom (mkDom (todoInput_value d) (map item_of filteredTodos)
               (filter_active d) (todoCount_textContent d)
               (emptyState_display d)) s).

(** The constant [activeTodos] of [updateTodoCount]. *)
Definition activeTodos (l : list Todo) : nat :=
  List.length (Array_filter (fun t => negb (completed t)) l).

Definition updateTodoCount : M State unit :=
  l <- gets todos ;;
  let n := activeTodos l in
  modify (fun s =>
    let d := dom s in
    set_dom (mkDom (todoInput_value d) (todoList d) (filter_active d)
               (Number_toString n ++ js " item"
                ++ (if negb (Nat.eqb n 1) then js "s" else [])
                ++ js " left")
               (emptyState_display d)) s).

Definition updateFilterButtons : M State unit :=
  modify (fun s =>
    let d := dom s in
    set_dom (mkDom (todoInput_value d) (todoList d) (currentFilter s)
               (todoCount_textContent d) (emptyState_display d)) s).

Definition updateEmptyState : M State unit :=
  filteredTodos <- gets getFilteredTodos ;;
  modify (fun s =>
    let d := dom s in
    set_dom (mkDom (todoInput_value d) (todoList d) (filter_active d)
               (todoCount_textContent d)
               (if Nat.eqb (List.length filteredTodos) 0 then flex else none))
            s).

Definition render : M State unit :=
  renderTodos ;; updateTodoCount ;; updateFilterButtons ;; updateEmptyState.

(** *** Mutations *)

Definition generateId (e : Entropy) : jsstring :=
  toString36 (Date_now e) ++ substr 2 (Math_random_36 e).

Definition addTodo (title : jsstring) (e : Entropy) : M State unit :=
  let todo := mkTodo (generateId e) title false (new_Date e) medium in
  modify (fun s => set_todos (todo :: todos s) s) ;;   (* unshift *)
  saveToStorage ;;
  render.

Definition toggleTodo (i : jsstring) : M State unit :=
  l <- gets todos ;;
  match Array_find (has_id i) l with
  | Some todo =>
      modify (set_todos
        (update_found (has_id i) (set_completed (negb (completed todo))) l)) ;;
      saveToStorage ;;
      render
  | None => ret tt
  end.

Definition deleteTodo (i : jsstring) : M State unit :=
  modify (fun s =>
    set_todos (Array_filter (fun t => negb (has_id i t)) (todos s)) s) ;;
  saveToStorage ;;
  render.

Definition editTodo (i newTitle : jsstring) : M State unit :=
  l <- gets todos ;;
  match Array_find (has_id i) l with
  | Some todo =>
      if truthy (trim newTitle) then
        modify (set_todos
          (update_found (has_id i) (set_title (trim newTitle)) l)) ;;
        saveToStorage ;;
        render
      else ret tt
  | None => ret tt
  end.

Definition setFilter (f : FilterType) : M State unit :=
  modify (set_currentFilter f) ;;
  updateFilterButtons ;;
  render.

Definition clearCompletedTodos : M State unit :=
  modify (fun s =>
    set_todos (Array_filter (fun t => negb (completed t)) (todos s)) s) ;;
  saveToStorage ;;
  render.

Definition priorities : list Priority := [low; medium; high].

(** [Array.prototype.indexOf]: the first index holding the value, or -1. *)
Fixpoint indexOf (p : Priority) (l : list Priority) : Z :=
  match l with
  | [] => -1
  | x :: r =>
      if Priority_eqb x p then 0
      else let k := indexOf p r in if (k <? 0)%Z then -1 else (k + 1)%Z
  end.

Definition next_priority (p : Priority) : Priority :=
  let currentIndex := indexOf p priorities in
  let nextIndex := Z.rem (currentIndex + 1) (Z.of_nat (List.length priorities)) in
  nth (Z.to_nat nextIndex) priorities low.

Definition cyclePriority (i : jsstring) : M State unit :=
  l <- gets todos ;;
  match Array_find (has_id i) l with
  | Some todo =>
      modify (set_todos
        (update_found (has_id i) (set_priority (next_priority (priority todo)))
           l)) ;;
      saveToStorage ;;
      render
  | None => ret tt
  end.

(** *** Editing in place *)

(** As in [src/app.ts]: the text is parsed first, and the list is read
    as elements only when every instance is well formed. *)
Definition querySelector_data_id (i : jsstring) : M State (option Item) :=
  fun s =>
    match data_id_selector i with
    | InvalidSelector => Throws DOMSyntaxError s
    | OtherSelector => Untyped
    | ByDataId =>
        if forallb item_wellformed (todoList (dom s))
        then Returns
               (Array_find (fun it => str_eqb (data_id it) i)
                  (todoList (dom s))) s
        else Untyped
    end.

Definition set_editing (b : bool) (it : Item) : Item :=
  mkItem (data_id it) (item_completed it) (item_title it) (item_priority it) b.

Definition set_item_class (i : jsstring) (b : bool) : M State unit :=
  modify (fun s =>
    let d := dom s in
    set_dom (mkDom (todoInput_value d)
               (update_found (fun it => str_eqb (data_id it) i)
                  (set_editing b) (todoList d))
               (filter_active d) (todoCount_textContent d)
               (emptyState_display d)) s).

(** The edit box of a well-formed element is there for [focus] and
    [select]. *)
Definition startEdit (i : jsstring) : M State unit :=
  todoItem <- querySelector_data_id i ;;
  match todoItem with
  | Some _ => set_item_class i true
  | None => ret tt
  end.

(** There is no branch for a blank title here. *)
Definition finishEdit (i newTitle : jsstring) : M State unit :=
  todoItem <- querySelector_data_id i ;;
  match todoItem with
  | Some _ =>
      set_item_class i false ;;
      if truthy (trim newTitle) then editTodo i newTitle
      else ret tt
  | None => ret tt
  end.

Definition toggleTodoPublic (i : jsstring) : M State unit := toggleTodo i.
Definition deleteTodoPublic (i : jsstring) : M State unit := deleteTodo i.
Definition cyclePriorityPublic (i : jsstring) : M State unit :=
  cyclePriority i.

(** *** Start-up and listeners *)

Definition set_todoInput_value (v : jsstring) : M State unit :=
  modify (fun s =>
    let d := dom s in
    set_dom (mkDom v (todoList d) (filter_active d)
               (todoCount_textContent d) (emptyState_display d)) s).

Definition on_keypress (key : jsstring) (e : Entropy) : M State unit :=
  v <- gets (fun s => todoInput_value (dom s)) ;;
  if str_eqb key (js "Enter") && truthy (trim v) then
    addTodo (trim v) e ;;
    set_todoInput_value []
  else ret tt.

Definition on_filter_click (f : FilterType) : M State unit := setFilter f.
Definition on_clear_click : M State unit := clearCompletedTodos.

Definition init : M State unit :=
  loadFromStorage ;;
  render.

Definition new_TodoApp (stored : option jsstring) (page : Dom)
  : outcome State unit :=
  init (mkState [] Filter_all stored page).

End PriorityApp.

(** ** Specification-side definitions *)

(** The predicate of a filter, in the words of the specification:
    [active] keeps the records not completed, [completed] those completed,
    [all] every record. *)
Definition App_accepts (f : FilterType) (t : App.Todo) : bool :=
  match f with
  | Filter_all => true
  | Filter_active => negb (App.completed t)
  | Filter_completed => App.completed t
  end.

(** [selects p l l']: [l'] holds exactly the elements of [l] that [p]
    accepts, each as often as in [l], in the order of [l]. *)
Inductive selects {A : Type} (p : A -> bool) : list A -> list A -> Prop :=
| selects_nil : selects p [] []
| selects_keep x l l' :
    p x = true -> selects p l l' -> selects p (x :: l) (x :: l')
| selects_drop x l l' :
    p x = false -> selects p l l' -> selects p (x :: l) l'.

(** The fixed cycle of priorities, in the words of the specification. *)
Definition cycle_order (p : PriorityApp.Priority) : PriorityApp.Priority :=
  match p with
  | PriorityApp.low => PriorityApp.medium
  | PriorityApp.medium => PriorityApp.high
  | PriorityApp.high => PriorityApp.low
  end.

(** A sequence of [addTodo] calls, first call first. *)
Fixpoint App_addTodos (calls : list (jsstring * Entropy))
  : M App.State unit :=
  match calls with
  | [] => ret tt
  | (title, e) :: r => bind (App.addTodo title e) (fun _ => App_addTodos r)
  end.

(** The record an [addTodo] call creates. *)
Definition App_new_todo (call : jsstring * Entropy) : App.Todo :=
  App.mkTodo (App.generateId (snd call)) (fst call) false (new_Date (snd call)).

(** Running a method on the outcome of the previous one. *)
Definition and_then {St} (o : outcome St unit) (m : M St unit)
  : outcome St unit :=
  match o with
  | Returns _ s => m s
  | Throws e s => Throws e s
  | Untyped => Untyped
  end.

(** *** Sample pages, clock readings and states *)

Definition sample_page : App.Dom :=
  App.mkDom [] [] Filter_all (js "0") true (js "<strong>0</strong> items left")
    block none none none.

Definition sample_priority_page : PriorityApp.Dom :=
  PriorityApp.mkDom [] [] Filter_all (js "0 items left") flex.

Definition sample_entropy : Entropy :=
  mkEntropy 1793577600123%Z (js "0.4fzyo82mvyr") 1793577600124%Z.

Definition sample_entropy' : Entropy :=
  mkEntropy 1793577611111%Z (js "0.k2j9x0a1b7") 1793577611111%Z.

(** The state of a fresh page with an empty storage slot. *)
Definition App_fresh : App.State := App.mkState [] Filter_all None sample_page.

Definition Priority_fresh : PriorityApp.State :=
  PriorityApp.mkState [] Filter_all None sample_priority_page.

Definition sample_id : jsstring := App.generateId sample_entropy.

(** One record added on a fresh page. *)
Definition App_one : outcome App.State unit :=
  and_then (App.new_TodoApp None sample_page)
    (App.addTodo (js "buy milk") sample_entropy).

Definition App_one_state : App.State :=
  Eval vm_compute in
    match App_one with Returns _ s => s | _ => App_fresh end.

Definition sample_todo : App.Todo :=
  App.mkTodo sample_id (js "buy milk") false (new_Date sample_entropy).

Definition Priority_one : outcome PriorityApp.State unit :=
  and_then (PriorityApp.new_TodoApp None sample_priority_page)
    (PriorityApp.addTodo (js "buy milk") sample_entropy).

Definition Priority_one_state : PriorityApp.State :=
  Eval vm_compute in
    match Priority_one with Returns _ s => s | _ => Priority_fresh end.

(** The document shows the current view: every instance in the list is
    well formed, so that the list is the list of its elements, and the
    elements carry the ids of the records of [getFilteredTodos], in order.
    [render] leaves the document so when ids and titles are plain markup. *)
Definition App_shows_view (s : App.State) : Prop :=
  forallb App.item_wellformed (App.todoList (App.dom s)) = true
  /\ map App.data_id (App.todoList (App.dom s))
     = map App.id (App.getFilteredTodos s).

(** *** JSON texts without white space *)

(** The text [JSON.stringify] writes for a value built of null, booleans,
    strings, arrays and objects. *)
Fixpoint json_text (j : Json.json) : jsstring :=
  match j with
  | Json.JNull => js "null"
  | Json.JBool b => if b then js "true" else js "false"
  | Json.JNum literal => literal
  | Json.JStr s => Json.QuoteJSONString s
  | Json.JArr l => js "[" ++ Array_join (js ",") (map json_text l) ++ js "]"
  | Json.JObj m =>
      js "{"
      ++ Array_join (js ",")
           (map (fun kv => Json.QuoteJSONString (fst kv) ++ js ":"
                           ++ json_text (snd kv)) m)
      ++ js "}"
  end.

(** Values without numbers. *)
#[local] Unset Elimination Schemes.
Inductive plain : Json.json -> Prop :=
| plain_null : plain Json.JNull
| plain_bool b : plain (Json.JBool b)
| plain_str s : plain (Json.JStr s)
| plain_arr l : Forall plain l -> plain (Json.JArr l)
| plain_obj m : Forall (fun kv => plain (snd kv)) m -> plain (Json.JObj m).
#[local] Set Elimination Schemes.

(** Induction on values, through the lists of arrays and objects. *)
Definition json_induction (P : Json.json -> Prop)
  (Hnull : P Json.JNull)
  (Hbool : forall b, P (Json.JBool b))
  (Hnum : forall l, P (Json.JNum l))
  (Hstr : forall s, P (Json.JStr s))
  (Harr : forall l, Forall P l -> P (Json.JArr l))
  (Hobj : forall m, Forall (fun kv => P (snd kv)) m -> P (Json.JObj m))
  : forall j, P j :=
  fix go (j : Json.json) : P j :=
    match j with
    | Json.JNull => Hnull
    | Json.JBool b => Hbool b
    | Json.JNum l => Hnum l
    | Json.JStr s => Hstr s
    | Json.JArr l =>
        Harr l ((fix all (l : list Json.json) : Forall P l :=
                   match l with
                   | [] => Forall_nil P
                   | x :: r => Forall_cons x (go x) (all r)
                   end) l)
    | Json.JObj m =>
        Hobj m ((fix all (m : list (jsstring * Json.json))
                   : Forall (fun kv => P (snd kv)) m :=
                   match m with
                   | [] => Forall_nil _
                   | kv :: r => Forall_cons kv (go (snd kv)) (all r)
                   end) m)
    end.

(** Parsing the text of [j] gives [j] back and stops right after the text,
    for every fuel from some point on. *)
Definition parses_back (j : Json.json) : Prop :=
  exists n, forall f rest, n <= f ->
    Json.parse_value f (json_text j ++ rest) = Some (j, rest).

(** The text of one member of an object. *)
Definition member_text (kv : jsstring * Json.json) : jsstring :=
  Json.QuoteJSONString (fst kv) ++ js ":" ++ json_text (snd kv).

(** The value [JSON.stringify] serialises for a record: its properties in
    creation order, the date as its ISO string. *)
Definition App_todo_json (t : App.Todo) : Json.json :=
  Json.JObj
    [(js "id", Json.JStr (App.id t));
     (js "title", Json.JStr (App.title t));
     (js "completed", Json.JBool (App.completed t));
     (js "createdAt", Json.JStr (JsDate.toISOString (App.createdAt t)))].

Definition Priority_todo_json (t : PriorityApp.Todo) : Json.json :=
  Json.JObj
    [(js "id", Json.JStr (PriorityApp.id t));
     (js "title", Json.JStr (PriorityApp.title t));
     (js "completed", Json.JBool (PriorityApp.completed t));
     (js "createdAt",
      Json.JStr (JsDate.toISOString (PriorityApp.createdAt t)));
     (js "priority",
      Json.JStr (PriorityApp.Priority_string (PriorityApp.priority t)))].
(** ** Events *)

(** A string that can be a stored title: not empty, and with no white
    space at either end, so that [trim] leaves it as it is. *)
Definition trimmed (s : jsstring) : Prop :=
  s <> []
  /\ is_white_space (hd 0%N s) = false
  /\ is_white_space (last s 0%N) = false
  /\ trim s = s.

(** How the handler of an event ends, when the model follows it: it
    returns, or an exception leaves it; [s'] is the state it leaves. *)
Definition ends_in {St : Type} (o : outcome St unit) (s' : St) : Prop :=
  o = Returns tt s' \/ exists e, o = Throws e s'.

(** *** [src/app.ts] *)

(** What the user can do on the page: edit the input box, press a key in
    it (the [keypress] listener), and fire the handlers the template of
    [renderTodos] and [setupEventListeners] attach. *)
Inductive App_event : Type :=
| Typed (value : jsstring)
| KeyPressed (key : jsstring) (e : Entropy)
| ToggleChanged (i : jsstring)              (* toggleTodoPublic *)
| DestroyClicked (i : jsstring)             (* deleteTodoPublic *)
| LabelDblClicked (i : jsstring)            (* startEdit *)
| EditBlurred (i value : jsstring)          (* finishEdit(id, this.value) *)
| EditEscaped (i : jsstring)                (* cancelEdit *)
| FilterClicked (f : FilterType)
| ClearClicked.

Definition App_handle (ev : App_event) : M App.State unit :=
  match ev with
  | Typed v => App.set_todoInput_value v
  | KeyPressed key e => App.on_keypress key e
  | ToggleChanged i => App.toggleTodoPublic i
  | DestroyClicked i => App.deleteTodoPublic i
  | LabelDblClicked i => App.startEdit i
  | EditBlurred i v => App.finishEdit i v
  | EditEscaped i => App.cancelEdit i
  | FilterClicked f => App.on_filter_click f
  | ClearClicked => App.on_clear_click
  end.

(** The events of a list, one after the other.  An exception ends the
    handler that throws it and nothing else: the page goes on, with the
    next event, from the state there was at the throw. *)
Fixpoint App_run (evs : list App_event) : M App.State unit :=
  match evs with
  | [] => ret tt
  | ev :: r =>
      fun s =>
        match App_handle ev s with
        | Returns _ s' => App_run r s'
        | Throws _ s' => App_run r s'
        | Untyped => Untyped
        end
  end.

(** The clock reading an event takes for a new record, if it takes one. *)
Definition App_event_time_ok (ev : App_event) : Prop :=
  match ev with
  | KeyPressed _ e => JsDate.valid_time (new_Date e)
  | _ => True
  end.

(** A record whose id and title are plain markup: the template makes one
    well-formed list element of it. *)
Definition App_todo_plain (t : App.Todo) : bool :=
  markup_plain (App.id t) && markup_plain (App.title t).

(** The records and the input box hold plain markup only. *)
Definition App_records_plain (s : App.State) : Prop :=
  forallb App_todo_plain (App.todos s) = true
  /\ markup_plain (App.todoInput_value (App.dom s)) = true.

(** So does the list, which then is the list of the elements. *)
Definition App_markup_plain (s : App.State) : Prop :=
  App_records_plain s
  /\ forallb App.item_wellformed (App.todoList (App.dom s)) = true.

(** The texts an event brings in are plain markup ([Math.random] gives
    digits and a point), and its id makes a selector the model reads: one
    that selects by [data-id], or none. *)
Definition App_event_plain (ev : App_event) : Prop :=
  match ev with
  | Typed v => markup_plain v = true
  | KeyPressed _ e => markup_plain (Math_random_36 e) = true
  | LabelDblClicked i | EditEscaped i => data_id_selector i <> OtherSelector
  | EditBlurred i v =>
      data_id_selector i <> OtherSelector /\ markup_plain v = true
  | _ => True
  end.

(** The document [render] leaves for a state. *)
Definition App_rendered (s : App.State) : App.Dom :=
  let d := App.dom s in
  let n := App.activeTodos (App.todos s) in
  let empty := Nat.eqb (List.length (App.todos s)) 0 in
  App.mkDom (App.todoInput_value d)
    (map App.item_of (App.getFilteredTodos s))
    (App.currentFilter s)
    (Number_toString n)
    false
    (if App.todoCount_attached d
     then js "<strong>" ++ Number_toString n ++ js "</strong> "
          ++ (if Nat.eqb n 1 then js "item left" else js "items left")
     else App.countSpan_innerHTML d)
    (if empty then block else none)
    (if empty then none else flex)
    (if empty then none else block)
    (if App.hasCompleted (App.todos s) then block else none).

(** How an event changes the collection [l], when it changes it; [input]
    is the value of the input box at the event. *)
Inductive App_change (ev : App_event) (input : jsstring) (l : list App.Todo)
  : list App.Todo -> Prop :=
| App_change_add key e :
    ev = KeyPressed key e -> trim input <> [] ->
    App_change ev input l
      (App.mkTodo (App.generateId e) (trim input) false (new_Date e) :: l)
| App_change_flag i b :
    App_change ev input l
      (update_found (App.has_id i) (App.set_completed b) l)
| App_change_title i v :
    ev = EditBlurred i v -> trim v <> [] ->
    App_change ev input l
      (update_found (App.has_id i) (App.set_title (trim v)) l)
| App_change_remove p :
    App_change ev input l (Array_filter p l).

(** Two documents that differ at most in the input box and in the class
    [editing] of the list elements. *)
Definition App_dom_quiet (d d' : App.Dom) : Prop :=
  map (App.set_editing false) (App.todoList d')
  = map (App.set_editing false) (App.todoList d)
  /\ App.filter_selected d' = App.filter_selected d
  /\ App.todoCount_textContent d' = App.todoCount_textContent d
  /\ App.todoCount_attached d' = App.todoCount_attached d
  /\ App.countSpan_innerHTML d' = App.countSpan_innerHTML d
  /\ App.emptyState_display d' = App.emptyState_display d
  /\ App.footer_display d' = App.footer_display d
  /\ App.mainSection_display d' = App.mainSection_display d
  /\ App.clearCompleted_display d' = App.clearCompleted_display d.

(** The value of the input box after an event: what was typed, or what it
    was, or empty. *)
Definition App_input_step (ev : App_event) (v v' : jsstring) : Prop :=
  v' = v \/ v' = [] \/ ev = Typed v'.

(** What one event does: either nothing but to the input box and the
    class [editing]; or it ends with [render] on a state [x] which it has
    saved after changing the collection, or in which it has only set the
    filter. *)
Definition App_step (ev : App_event) (s s' : App.State) : Prop :=
  App_input_step ev (App.todoInput_value (App.dom s))
    (App.todoInput_value (App.dom s'))
  /\ ((App.todos s' = App.todos s
       /\ App.currentFilter s' = App.currentFilter s
       /\ App.storage s' = App.storage s
       /\ App_dom_quiet (App.dom s) (App.dom s'))
      \/ (exists x,
            s' = App.set_dom (App_rendered x) x
            /\ App.todoCount_attached (App.dom x)
               = App.todoCount_attached (App.dom s)
            /\ App.countSpan_innerHTML (App.dom x)
               = App.countSpan_innerHTML (App.dom s)
            /\ ((App.currentFilter x = App.currentFilter s
                 /\ App.storage x = Some (App.JSON_stringify (App.todos x))
                 /\ App_change ev (App.todoInput_value (App.dom s))
                      (App.todos s) (App.todos x))
                \/ (App.todos x = App.todos s
                    /\ App.storage x = App.storage s)))).

(** The document agrees with the state, as [render] leaves it: the list
    elements are those of the records of the current view, in order, with
    their ids, titles and flags; the selected filter button is the current
    filter; the "clear completed" button shows exactly when a record is
    completed; the empty state shows, and footer and main section hide,
    exactly when the collection is empty.  (The count is not part of it:
    see the theorems on the count below.) *)
Definition App_document_in_step (s : App.State) : Prop :=
  let d := App.dom s in
  forallb App.item_wellformed (App.todoList d) = true
  /\ map App.data_id (App.todoList d) = map App.id (App.getFilteredTodos s)
  /\ map App.item_title (App.todoList d)
     = map App.title (App.getFilteredTodos s)
  /\ map App.item_completed (App.todoList d)
     = map App.completed (App.getFilteredTodos s)
  /\ App.filter_selected d = App.currentFilter s
  /\ (App.clearCompleted_display d = block
      <-> App.view Filter_completed s <> [])
  /\ (App.emptyState_display d = block <-> App.todos s = [])
  /\ (App.footer_display d = none <-> App.todos s = [])
  /\ (App.mainSection_display d = none <-> App.todos s = []).

(** A new [TodoApp] on the slot of [s] starts with the collection of [s]. *)
Definition App_reloads (s : App.State) : Prop :=
  forall page, exists s',
    App.new_TodoApp (App.storage s) page = Returns tt s'
    /\ App.todos s' = App.todos s.

(** What identifies a record for good: its id and its creation time. *)
Definition App_key (t : App.Todo) : jsstring * JsDate.time :=
  (App.id t, App.createdAt t).

(** [l'] is [l] with some elements left out. *)
Inductive subseq {A : Type} : list A -> list A -> Prop :=
| subseq_nil : subseq [] []
| subseq_keep x l' l : subseq l' l -> subseq (x :: l') (x :: l)
| subseq_drop x l' l : subseq l' l -> subseq l' (x :: l).

(** The keys of the records the events can create, first event first. *)
Fixpoint App_event_keys (evs : list App_event)
  : list (jsstring * JsDate.time) :=
  match evs with
  | [] => []
  | KeyPressed _ e :: r => (App.generateId e, new_Date e) :: App_event_keys r
  | _ :: r => App_event_keys r
  end.

(** Some events on the page with the one record "buy milk"; one of them
    asks for an id with a line break in it, which is no selector. *)
Definition sample_events : list App_event :=
  [ToggleChanged sample_id; FilterClicked Filter_completed;
   LabelDblClicked sample_id; EditBlurred sample_id (js " buy oat milk ");
   EditEscaped (js "a" ++ [10%N] ++ js "b");
   Typed (js "call mum"); KeyPressed (js "Enter") sample_entropy';
   ClearClicked].

(** *** [src/unnamed/part_001] *)

Inductive Priority_event : Type :=
| PTyped (value : jsstring)
| PKeyPressed (key : jsstring) (e : Entropy)
| PCheckboxChanged (i : jsstring)           (* toggleTodoPublic *)
| PPriorityClicked (i : jsstring)           (* cyclePriorityPublic *)
| PDeleteClicked (i : jsstring)             (* deleteTodoPublic *)
| PTitleDblClicked (i : jsstring)           (* startEdit *)
| PEditBlurred (i value : jsstring)         (* finishEdit(id, this.value) *)
| PFilterClicked (f : FilterType)
| PClearClicked.

Definition Priority_handle (ev : Priority_event) : M PriorityApp.State unit :=
  match ev with
  | PTyped v => PriorityApp.set_todoInput_value v
  | PKeyPressed key e => PriorityApp.on_keypress key e
  | PCheckboxChanged i => PriorityApp.toggleTodoPublic i
  | PPriorityClicked i => PriorityApp.cyclePriorityPublic i
  | PDeleteClicked i => PriorityApp.deleteTodoPublic i
  | PTitleDblClicked i => PriorityApp.startEdit i
  | PEditBlurred i v => PriorityApp.finishEdit i v
  | PFilterClicked f => PriorityApp.on_filter_click f
  | PClearClicked => PriorityApp.on_clear_click
  end.

Fixpoint Priority_run (evs : list Priority_event)
  : M PriorityApp.State unit :=
  match evs with
  | [] => ret tt
  | ev :: r =>
      fun s =>
        match Priority_handle ev s with
        | Returns _ s' => Priority_run r s'
        | Throws _ s' => Priority_run r s'
        | Untyped => Untyped
        end
  end.

Definition Priority_todo_plain (t : PriorityApp.Todo) : bool :=
  markup_plain (PriorityApp.id t) && markup_plain (PriorityApp.title t).

Definition Priority_records_plain (s : PriorityApp.State) : Prop :=
  forallb Priority_todo_plain (PriorityApp.todos s) = true
  /\ markup_plain (PriorityApp.todoInput_value (PriorityApp.dom s)) = true.

Definition Priority_markup_plain (s : PriorityApp.State) : Prop :=
  Priority_records_plain s
  /\ forallb PriorityApp.item_wellformed
       (PriorityApp.todoList (PriorityApp.dom s)) = true.

Definition Priority_event_plain (ev : Priority_event) : Prop :=
  match ev with
  | PTyped v => markup_plain v = true
  | PKeyPressed _ e => markup_plain (Math_random_36 e) = true
  | PTitleDblClicked i => data_id_selector i <> OtherSelector
  | PEditBlurred i v =>
      data_id_selector i <> OtherSelector /\ markup_plain v = true
  | _ => True
  end.

(** The document [render] leaves for a state. *)
Definition Priority_rendered (s : PriorityApp.State) : PriorityApp.Dom :=
  let n := PriorityApp.activeTodos (PriorityApp.todos s) in
  PriorityApp.mkDom (PriorityApp.todoInput_value (PriorityApp.dom s))
    (map PriorityApp.item_of (PriorityApp.getFilteredTodos s))
    (PriorityApp.currentFilter s)
    (Number_toString n ++ js " item"
     ++ (if negb (Nat.eqb n 1) then js "s" else []) ++ js " left")
    (if Nat.eqb (List.length (PriorityApp.getFilteredTodos s)) 0
     then flex else none).

(** The state a method leaves that gives the collection the value [l],
    saves and renders. *)
Definition Priority_saved (l : list PriorityApp.Todo) (s : PriorityApp.State)
  : PriorityApp.State :=
  let x := PriorityApp.mkState l (PriorityApp.currentFilter s)
             (Some (PriorityApp.JSON_stringify l)) (PriorityApp.dom s) in
  PriorityApp.set_dom (Priority_rendered x) x.

(** How an event changes the collection [l], when it changes it. *)
Inductive Priority_change (ev : Priority_event) (input : jsstring)
  (l : list PriorityApp.Todo) : list PriorityApp.Todo -> Prop :=
| Priority_change_add key e :
    ev = PKeyPressed key e -> trim input <> [] ->
    Priority_change ev input l
      (PriorityApp.mkTodo (PriorityApp.generateId e) (trim input) false
         (new_Date e) PriorityApp.medium :: l)
| Priority_change_flag i :
    Priority_change ev input l
      (update_found (PriorityApp.has_id i)
         (fun t => PriorityApp.set_completed
                     (negb (PriorityApp.completed t)) t) l)
| Priority_change_priority i :
    Priority_change ev input l
      (update_found (PriorityApp.has_id i)
         (fun t => PriorityApp.set_priority
                     (PriorityApp.next_priority (PriorityApp.priority t)) t)
         l)
| Priority_change_title i v :
    ev = PEditBlurred i v -> trim v <> [] ->
    Priority_change ev input l
      (update_found (PriorityApp.has_id i)
         (PriorityApp.set_title (trim v)) l)
| Priority_change_remove p :
    Priority_change ev input l (Array_filter p l).

(** Two documents that differ at most in the input box and in the class
    [editing] of the list elements. *)
Definition Priority_dom_quiet (d d' : PriorityApp.Dom) : Prop :=
  map (PriorityApp.set_editing false) (PriorityApp.todoList d')
  = map (PriorityApp.set_editing false) (PriorityApp.todoList d)
  /\ PriorityApp.filter_active d' = PriorityApp.filter_active d
  /\ PriorityApp.todoCount_textContent d'
     = PriorityApp.todoCount_textContent d
  /\ PriorityApp.emptyState_display d' = PriorityApp.emptyState_display d.

Definition Priority_input_step (ev : Priority_event) (v v' : jsstring)
  : Prop :=
  v' = v \/ v' = [] \/ ev = PTyped v'.

(** What one event does: either nothing but to the input box and the
    class [editing]; or it ends with [render] on a state [x] which it has
    saved after changing the collection, or in which it has only set the
    filter. *)
Definition Priority_step (ev : Priority_event) (s s' : PriorityApp.State)
  : Prop :=
  Priority_input_step ev (PriorityApp.todoInput_value (PriorityApp.dom s))
    (PriorityApp.todoInput_value (PriorityApp.dom s'))
  /\ ((PriorityApp.todos s' = PriorityApp.todos s
       /\ PriorityApp.currentFilter s' = PriorityApp.currentFilter s
       /\ PriorityApp.storage s' = PriorityApp.storage s
       /\ Priority_dom_quiet (PriorityApp.dom s) (PriorityApp.dom s'))
      \/ (exists x,
            s' = PriorityApp.set_dom (Priority_rendered x) x
            /\ ((PriorityApp.storage x
                 = Some (PriorityApp.JSON_stringify (PriorityApp.todos x))
                 /\ Priority_change ev
                      (PriorityApp.todoInput_value (PriorityApp.dom s))
                      (PriorityApp.todos s) (PriorityApp.todos x))
                \/ (PriorityApp.todos x = PriorityApp.todos s
                    /\ PriorityApp.storage x = PriorityApp.storage s)))).

(** The document agrees with the state, as [render] leaves it: the list
    elements are those of the records of the current view, in order, with
    their ids, titles, flags and priorities; the active filter button is
    the current filter; the count reads the number of active records, with
    "item" for one and "items" otherwise; and the empty state shows exactly
    when the current view is empty. *)
Definition Priority_document_in_step (s : PriorityApp.State) : Prop :=
  let d := PriorityApp.dom s in
  let n := List.length (PriorityApp.view Filter_active s) in
  forallb PriorityApp.item_wellformed (PriorityApp.todoList d) = true
  /\ map PriorityApp.data_id (PriorityApp.todoList d)
     = map PriorityApp.id (PriorityApp.getFilteredTodos s)
  /\ map PriorityApp.item_title (PriorityApp.todoList d)
     = map PriorityApp.title (PriorityApp.getFilteredTodos s)
  /\ map PriorityApp.item_completed (PriorityApp.todoList d)
     = map PriorityApp.completed (PriorityApp.getFilteredTodos s)
  /\ map PriorityApp.item_priority (PriorityApp.todoList d)
     = map PriorityApp.priority (PriorityApp.getFilteredTodos s)
  /\ PriorityApp.filter_active d = PriorityApp.currentFilter s
  /\ PriorityApp.todoCount_textContent d
     = Number_toString n
       ++ (if Nat.eqb n 1 then js " item left" else js " items left")
  /\ (PriorityApp.emptyState_display d = flex
      <-> PriorityApp.getFilteredTodos s = [])
  /\ (PriorityApp.emptyState_display d = none
      <-> PriorityApp.getFilteredTodos s <> []).

(** The slot holds the collection as [saveToStorage] writes it. *)
Definition Priority_slot_saved (s : PriorityApp.State) : Prop :=
  PriorityApp.storage s
  = Some (PriorityApp.JSON_stringify (PriorityApp.todos s)).

(** Some events on the page with the one record "buy milk". *)
Definition sample_priority_events : list Priority_event :=
  [PPriorityClicked sample_id; PCheckboxChanged sample_id;
   PFilterClicked Filter_active;
   PTyped (js "call mum"); PKeyPressed (js "Enter") sample_entropy';
   PTitleDblClicked (App.generateId sample_entropy');
   PEditBlurred (App.generateId sample_entropy') (js "   ");
   PTitleDblClicked (js "a" ++ [10%N] ++ js "b");
   PClearClicked].

(** * Properties *)

Unset Implicit Arguments.

(** ** Strings *)

Lemma str_eqb_refl (a : jsstring) : str_eqb a a = true.
Proof.
  induction a as [|x a IH]; simpl; [reflexivity|].
  now rewrite N.eqb_refl.
Qed.

Lemma str_eqb_eq (a b : jsstring) : str_eqb a b = true <-> a = b.
Proof.
  split.
  - revert b; induction a as [|x a IH]; intros [|y b]; simpl; try discriminate; auto.
    intros H. apply andb_true_iff in H as [Hx Hr].
    apply N.eqb_eq in Hx. f_equal; auto.
  - intros ->. apply str_eqb_refl.
Qed.

Lemma trimStart_blank (s : jsstring) :
  forallb is_white_space s = true -> trimStart s = [].
Proof.
  induction s as [|c r IH]; simpl; [reflexivity|].
  intros H. apply andb_true_iff in H as [Hc Hr]. now rewrite Hc; apply IH.
Qed.

Lemma trimStart_nil_blank (s : jsstring) :
  trimStart s = [] -> forallb is_white_space s = true.
Proof.
  induction s as [|c r IH]; simpl; [reflexivity|].
  destruct (is_white_space c); [auto | discriminate].
Qed.

(** The trimmed form of a string is empty exactly when the string holds
    nothing but white space. *)
Lemma trim_nil_iff (s : jsstring) :
  trim s = [] <-> forallb is_white_space s = true.
Proof.
  unfold trim, trimEnd. split.
  - intros H.
    assert (Hr : trimStart (rev (trimStart s)) = []).
    { apply (f_equal (@rev N)) in H. now rewrite rev_involutive in H. }
    apply trimStart_nil_blank in Hr.
    rewrite forallb_forall in Hr.
    assert (Hs : trimStart s = []).
    { clear H. induction s as [|c r IH]; simpl in *; [reflexivity|].
      destruct (is_white_space c) eqn:E; [apply IH; exact Hr|].
      exfalso. rewrite Hr in E; [discriminate|].
      apply in_rev. rewrite rev_involutive. now left. }
    now apply trimStart_nil_blank.
  - intros H. now rewrite (trimStart_blank s H).
Qed.

(** ** Arrays *)

Lemma find_none_update {A} (f : A -> bool) (g : A -> A) (l : list A) :
  Array_find f l = None -> update_found f g l = l.
Proof.
  unfold Array_find.
  induction l as [|x r IH]; simpl; [reflexivity|].
  destruct (f x); [discriminate|]. intros H. now rewrite IH.
Qed.

Lemma find_none_filter {A} (f : A -> bool) (l : list A) :
  Array_find f l = None -> Array_filter (fun x => negb (f x)) l = l.
Proof.
  unfold Array_find, Array_filter.
  induction l as [|x r IH]; simpl; [reflexivity|].
  destruct (f x); [discriminate|]. intros H. simpl. now rewrite IH.
Qed.

Lemma find_none_iff {A} (f : A -> bool) (l : list A) :
  Array_find f l = None <-> forall x, In x l -> f x = false.
Proof.
  unfold Array_find. split.
  - intros H x Hx. exact (find_none f l H x Hx).
  - induction l as [|x r IH]; simpl; [reflexivity|].
    intros H. rewrite (H x (or_introl eq_refl)). apply IH. auto.
Qed.

Lemma update_found_length {A} (f : A -> bool) (g : A -> A) (l : list A) :
  List.length (update_found f g l) = List.length l.
Proof.
  induction l as [|x r IH]; simpl; [reflexivity|].
  destruct (f x); simpl; auto.
Qed.

Lemma filter_some_false {A} (f : A -> bool) (l : list A) :
  Array_some f (Array_filter (fun x => negb (f x)) l) = false.
Proof.
  unfold Array_some, Array_filter.
  induction l as [|x r IH]; simpl; [reflexivity|].
  destruct (f x) eqn:E; simpl; [exact IH|]. now rewrite E.
Qed.

Lemma some_filter_nonempty {A} (f : A -> bool) (l : list A) :
  Array_some f l = negb (Nat.eqb (List.length (Array_filter f l)) 0).
Proof.
  unfold Array_some, Array_filter.
  induction l as [|x r IH]; simpl; [reflexivity|].
  destruct (f x); simpl; auto.
Qed.

(** ** Strings survive [QuoteJSONString] and [JSON.parse] *)

Section JsonStrings.
Import Json.
Local Open Scope N_scope.

Lemma hex_value_char (d : N) : d < 16 -> hex_value (hex_char d) = Some d.
Proof.
  intros H. unfold hex_char, hex_value.
  destruct (N.ltb_spec d 10) as [L|L].
  - assert (E1 : (48 <=? 48 + d) = true) by (apply N.leb_le; lia).
    assert (E2 : (48 + d <=? 57) = true) by (apply N.leb_le; lia).
    rewrite E1, E2. cbn [andb]. f_equal. lia.
  - assert (E1 : (48 <=? 87 + d) && (87 + d <=? 57) = false).
    { apply andb_false_iff. right. apply N.leb_gt. lia. }
    assert (E2 : (97 <=? 87 + d) = true) by (apply N.leb_le; lia).
    assert (E3 : (87 + d <=? 102) = true) by (apply N.leb_le; lia).
    rewrite E1, E2, E3. cbn [andb]. f_equal. lia.
Qed.

Lemma hex4_escape (c : N) :
  c < 65536 ->
  hex4 (hex_char ((c / 4096) mod 16)) (hex_char ((c / 256) mod 16))
       (hex_char ((c / 16) mod 16)) (hex_char (c mod 16)) = Some c.
Proof.
  intros H. unfold hex4.
  rewrite !hex_value_char by (apply N.mod_lt; discriminate).
  f_equal.
  pose proof (N.div_mod c 16 ltac:(discriminate)).
  pose proof (N.div_mod (c / 16) 16 ltac:(discriminate)).
  pose proof (N.div_mod (c / 16 / 16) 16 ltac:(discriminate)).
  pose proof (N.mod_lt c 16 ltac:(discriminate)).
  pose proof (N.mod_lt (c / 16) 16 ltac:(discriminate)).
  pose proof (N.mod_lt (c / 16 / 16) 16 ltac:(discriminate)).
  assert (Q : c / 16 / 16 / 16 < 16).
  { rewrite !N.Div0.div_div.
    apply N.Div0.div_lt_upper_bound. exact H. }
  replace (c / 256) with (c / 16 / 16) by (now rewrite N.Div0.div_div).
  replace (c / 4096) with (c / 16 / 16 / 16) by (now rewrite !N.Div0.div_div).
  rewrite (N.mod_small (c / 16 / 16 / 16) 16) by exact Q.
  pose proof (N.div_mod (c / 16 / 16) 16 ltac:(discriminate)).
  lia.
Qed.

Lemma parse_unicode_escape (a b c d : N) (tl : jsstring) :
  parse_chars (92 :: 117 :: a :: b :: c :: d :: tl)
  = match hex4 a b c d with
    | Some v => consopt v (parse_chars tl)
    | None => None
    end.
Proof. reflexivity. Qed.

Lemma parse_escaped (c : N) (tl : jsstring) :
  c < 65536 ->
  parse_chars (unicode_escape c ++ tl) = consopt c (parse_chars tl).
Proof.
  intros H. unfold unicode_escape. cbn [app].
  now rewrite parse_unicode_escape, hex4_escape.
Qed.

Lemma parse_raw (c : N) (tl : jsstring) :
  c <> 34 -> c <> 92 -> 32 <= c ->
  parse_chars (c :: tl) = consopt c (parse_chars tl).
Proof.
  intros H1 H2 H3. cbn [parse_chars].
  apply N.eqb_neq in H1, H2. rewrite H1, H2.
  assert (E : (c <? 32) = false) by (apply N.ltb_ge; exact H3).
  now rewrite E.
Qed.

Lemma parse_quote_unit (c : N) (tl : jsstring) :
  is_leading_surrogate c = false ->
  parse_chars (quote_unit c ++ tl) = consopt c (parse_chars tl).
Proof.
  intros L. unfold quote_unit.
  destruct (N.eqb_spec c 8) as [->|N8]; [reflexivity|].
  destruct (N.eqb_spec c 9) as [->|N9]; [reflexivity|].
  destruct (N.eqb_spec c 10) as [->|N10]; [reflexivity|].
  destruct (N.eqb_spec c 12) as [->|N12]; [reflexivity|].
  destruct (N.eqb_spec c 13) as [->|N13]; [reflexivity|].
  destruct (N.eqb_spec c 34) as [->|N34]; [reflexivity|].
  destruct (N.eqb_spec c 92) as [->|N92]; [reflexivity|].
  destruct ((c <? 32) || is_trailing_surrogate c) eqn:E.
  - apply parse_escaped. apply orb_true_iff in E as [E|E].
    + apply N.ltb_lt in E. lia.
    + unfold is_trailing_surrogate in E. apply andb_true_iff in E as [_ E].
      apply N.leb_le in E. lia.
  - apply orb_false_iff in E as [E _]. apply N.ltb_ge in E.
    cbn [app]. now apply parse_raw.
Qed.

Lemma parse_quote_chars_bounded (n : nat) (s rest : jsstring) :
  (List.length s <= n)%nat ->
  parse_chars (quote_chars s ++ 34 :: rest) = Some (s, rest).
Proof.
  revert s. induction n as [|n IH]; intros s Hn.
  - destruct s; [reflexivity | simpl in Hn; lia].
  - destruct s as [|c r]; [reflexivity|]. simpl in Hn.
    cbn [quote_chars].
    destruct (is_leading_surrogate c) eqn:L.
    + assert (Lc : 55296 <= c <= 56319).
      { unfold is_leading_surrogate in L. apply andb_true_iff in L as [A B].
        apply N.leb_le in A, B. lia. }
      destruct r as [|d r'].
      * rewrite parse_escaped by lia. reflexivity.
      * destruct (is_trailing_surrogate d) eqn:T.
        -- assert (Td : 56320 <= d <= 57343).
           { unfold is_trailing_surrogate in T.
             apply andb_true_iff in T as [A B]. apply N.leb_le in A, B. lia. }
           cbn [app]. rewrite parse_raw by lia. rewrite parse_raw by lia.
           rewrite IH by (simpl in Hn; lia). reflexivity.
        -- rewrite <- app_assoc, parse_escaped by lia.
           rewrite IH by lia. reflexivity.
    + rewrite <- app_assoc, parse_quote_unit by exact L.
      rewrite IH by lia. reflexivity.
Qed.

(** What [QuoteJSONString] writes, the opening quote apart, is read back as
    the string, up to the closing quote. *)
Lemma parse_quote_chars (s rest : jsstring) :
  parse_chars (quote_chars s ++ 34 :: rest) = Some (s, rest).
Proof. exact (parse_quote_chars_bounded (List.length s) s rest (le_n _)). Qed.

End JsonStrings.

(** ** The parser consumes its input, and its fuel is enough *)

Section JsonParser.
Import Json.

Ltac break_hyp H :=
  match type of H with
  | context [match ?x with _ => _ end] => destruct x eqn:?
  | context [if ?x then _ else _] => destruct x eqn:?
  end.

Ltac break_all H :=
  repeat (first [discriminate H | break_hyp H]).

Lemma skip_ws_length (s : jsstring) :
  List.length (skip_ws s) <= List.length s.
Proof.
  induction s as [|c r IH]; simpl; [lia|].
  destruct (is_json_ws c); simpl; lia.
Qed.

Lemma skip_ws_cons (s r : jsstring) (c : N) :
  skip_ws s = c :: r -> List.length r < List.length s.
Proof.
  intros H. pose proof (skip_ws_length s) as L. rewrite H in L.
  simpl in L. lia.
Qed.

Lemma consopt_some (c : N) (o : option (jsstring * jsstring)) x r :
  consopt c o = Some (x, r) -> exists x', o = Some (x', r) /\ x = c :: x'.
Proof.
  destruct o as [[x' r']|]; simpl; [|discriminate].
  intros [= <- <-]. eauto.
Qed.

Lemma parse_chars_length_bounded (n : nat) (s x r : jsstring) :
  List.length s <= n ->
  parse_chars s = Some (x, r) -> List.length r < List.length s.
Proof.
  revert s x r. induction n as [|n IH]; intros s x r Hn H.
  - destruct s; [discriminate | simpl in Hn; lia].
  - destruct s as [|c s1]; [discriminate|]. simpl in Hn.
    cbn [parse_chars] in H.
    destruct (c =? 34)%N; [injection H as <- <-; simpl; lia|].
    destruct (c =? 92)%N.
    + destruct s1 as [|e s2]; [discriminate|]. simpl in Hn.
      repeat match type of H with
      | (if ?b then _ else _) = _ =>
          destruct b;
          [first
            [ apply consopt_some in H as (x' & H & _);
              apply IH in H; [simpl; lia | lia]
            | idtac ] |]
      end; try discriminate.
      destruct s2 as [|h1 [|h2 [|h3 [|h4 s3]]]]; try discriminate.
      destruct (hex4 h1 h2 h3 h4); [|discriminate].
      apply consopt_some in H as (x' & H & _).
      apply IH in H; [simpl; lia | simpl in Hn; lia].
    + destruct (c <? 32)%N; [discriminate|].
      apply consopt_some in H as (x' & H & _).
      apply IH in H; [simpl; lia | lia].
Qed.

Lemma parse_chars_length (s x r : jsstring) :
  parse_chars s = Some (x, r) -> List.length r < List.length s.
Proof. exact (parse_chars_length_bounded (List.length s) s x r (le_n _)). Qed.

Lemma strip_prefix_length (p s r : jsstring) :
  strip_prefix p s = Some r -> List.length r <= List.length s.
Proof.
  revert s. induction p as [|a p IH]; intros s H; simpl in H.
  - injection H as ->. lia.
  - destruct s as [|b s']; [discriminate|].
    destruct (a =? b)%N; [|discriminate]. apply IH in H. simpl. lia.
Qed.

Lemma take_digits_length (s ds r : jsstring) :
  take_digits s = (ds, r) -> List.length r <= List.length s.
Proof.
  revert ds r. induction s as [|c s IH]; intros ds r H; simpl in H.
  - injection H as <- <-. simpl. lia.
  - destruct (is_digit c).
    + destruct (take_digits s) as [ds' r'] eqn:E. injection H as <- <-.
      specialize (IH _ _ eq_refl). simpl. lia.
    + injection H as <- <-. lia.
Qed.

Ltac break_any :=
  match goal with
  | H : context [match ?x with _ => _ end] |- _ => destruct x eqn:?
  | H : context [if ?x then _ else _] |- _ => destruct x eqn:?
  end.

Ltac crunch_lengths :=
  repeat first
    [ discriminate
    | match goal with
      | E : take_digits _ = _ |- _ => apply take_digits_length in E
      | E : Some _ = Some _ |- _ => injection E as <- <-
      | E : (_, _) = (_, _) |- _ => injection E as <- <-
      | E : Some _ = None |- _ => discriminate E
      | E : None = Some _ |- _ => discriminate E
      end
    | break_any ];
  simpl in *; try lia.

Lemma number_int_length (s x r : jsstring) :
  number_int s = Some (x, r) -> List.length r < List.length s.
Proof. unfold number_int. intros H. crunch_lengths. Qed.

Lemma number_frac_length (s x r : jsstring) :
  number_frac s = Some (x, r) -> List.length r <= List.length s.
Proof. unfold number_frac. intros H. crunch_lengths. Qed.

Lemma number_exp_length (s x r : jsstring) :
  number_exp s = Some (x, r) -> List.length r <= List.length s.
Proof. unfold number_exp. intros H. crunch_lengths. Qed.

Lemma parse_number_length (s lit r : jsstring) :
  parse_number s = Some (lit, r) -> List.length r < List.length s.
Proof.
  unfold parse_number. intros H.
  destruct (match s with
            | [] => ([], s)
            | c :: r0 => if (c =? 45)%N then ([c], r0) else ([], s)
            end) as [sign s0] eqn:S0.
  assert (L0 : List.length s0 <= List.length s).
  { destruct s as [|c r0]; [injection S0 as <- <-; simpl; lia|].
    destruct (c =? 45)%N; injection S0 as <- <-; simpl; lia. }
  destruct (number_int s0) as [[i s1]|] eqn:I; [|discriminate].
  destruct (number_frac s1) as [[f s2]|] eqn:F; [|discriminate].
  destruct (number_exp s2) as [[e s3]|] eqn:X; [|discriminate].
  injection H as <- <-.
  apply number_int_length in I. apply number_frac_length in F.
  apply number_exp_length in X. lia.
Qed.

Lemma keyword_length (k : string) (v v' : json) (s r : jsstring) :
  keyword k v s = Some (v', r) -> List.length r <= List.length s.
Proof.
  unfold keyword. destruct (strip_prefix (js k) s) eqn:E; [|discriminate].
  intros [= <- <-]. now apply strip_prefix_length in E.
Qed.

(** Every successful parse leaves less than it was given. *)
Lemma parse_length (fuel : nat) :
  (forall s v r, parse_value fuel s = Some (v, r) ->
     List.length r < List.length s)
  /\ (forall s vs r, parse_elements fuel s = Some (vs, r) ->
        List.length r < List.length s)
  /\ (forall s ms r, parse_members fuel s = Some (ms, r) ->
        List.length r < List.length s).
Proof.
  induction fuel as [|f (IHv & IHe & IHm)].
  - repeat split; intros; discriminate.
  - repeat split.
    + intros s v r H. cbn [parse_value] in H.
      destruct (skip_ws s) as [|c r0] eqn:W; [discriminate|].
      apply skip_ws_cons in W.
      destruct (c =? 34)%N.
      { destruct (parse_chars r0) as [[x r1]|] eqn:P; [|discriminate].
        injection H as <- <-. apply parse_chars_length in P. lia. }
      destruct (c =? 91)%N.
      { destruct (skip_ws r0) as [|d r1] eqn:W1; [discriminate|].
        apply skip_ws_cons in W1.
        destruct (d =? 93)%N; [injection H as <- <-; lia|].
        destruct (parse_elements f r0) as [[vs r2]|] eqn:P; [|discriminate].
        injection H as <- <-. apply IHe in P. lia. }
      destruct (c =? 123)%N.
      { destruct (skip_ws r0) as [|d r1] eqn:W1; [discriminate|].
        apply skip_ws_cons in W1.
        destruct (d =? 125)%N; [injection H as <- <-; lia|].
        destruct (parse_members f r0) as [[ms r2]|] eqn:P; [|discriminate].
        injection H as <- <-. apply IHm in P. lia. }
      destruct (c =? 116)%N; [apply keyword_length in H; lia|].
      destruct (c =? 102)%N; [apply keyword_length in H; lia|].
      destruct (c =? 110)%N; [apply keyword_length in H; lia|].
      destruct (parse_number (c :: r0)) as [[lit r1]|] eqn:P; [|discriminate].
      injection H as <- <-. apply parse_number_length in P. simpl in P. lia.
    + intros s vs r H. cbn [parse_elements] in H.
      destruct (parse_value f s) as [[v r0]|] eqn:P; [|discriminate].
      apply IHv in P.
      destruct (skip_ws r0) as [|d r1] eqn:W; [discriminate|].
      apply skip_ws_cons in W.
      destruct (d =? 44)%N.
      { destruct (parse_elements f r1) as [[vs' r2]|] eqn:Q; [|discriminate].
        injection H as <- <-. apply IHe in Q. lia. }
      destruct (d =? 93)%N; [injection H as <- <-; lia | discriminate].
    + intros s ms r H. cbn [parse_members] in H.
      destruct (skip_ws s) as [|q r0] eqn:W; [discriminate|].
      apply skip_ws_cons in W.
      destruct (q =? 34)%N; [|discriminate].
      destruct (parse_chars r0) as [[k r1]|] eqn:P; [|discriminate].
      apply parse_chars_length in P.
      destruct (skip_ws r1) as [|col r2] eqn:W1; [discriminate|].
      apply skip_ws_cons in W1.
      destruct (col =? 58)%N; [|discriminate].
      destruct (parse_value f r2) as [[v r3]|] eqn:V; [|discriminate].
      apply IHv in V.
      destruct (skip_ws r3) as [|d r4] eqn:W2; [discriminate|].
      apply skip_ws_cons in W2.
      destruct (d =? 44)%N.
      { destruct (parse_members f r4) as [[ms' r5]|] eqn:Q; [|discriminate].
        injection H as <- <-. apply IHm in Q. lia. }
      destruct (d =? 125)%N; [injection H as <- <-; lia | discriminate].
Qed.

(** More fuel than twice the length of the text changes nothing: a parse
    that fails with the fuel of [JSON_parse] fails with any fuel. *)
Lemma parse_fuel (f : nat) :
  (forall s f', f <= f' -> 2 * List.length s < f ->
     parse_value f s = parse_value f' s)
  /\ (forall s f', f <= f' -> 2 * List.length s + 1 < f ->
        parse_elements f s = parse_elements f' s)
  /\ (forall s f', f <= f' -> 2 * List.length s + 1 < f ->
        parse_members f s = parse_members f' s).
Proof.
  induction f as [|f (IHv & IHe & IHm)].
  - repeat split; intros; lia.
  - repeat split.
    + intros s [|f'] Hf Hs; [lia|]. cbn [parse_value].
      destruct (skip_ws s) as [|c r0] eqn:W; [reflexivity|].
      apply skip_ws_cons in W.
      destruct (c =? 34)%N; [reflexivity|].
      destruct (c =? 91)%N.
      { destruct (skip_ws r0) as [|d r1] eqn:W1; [reflexivity|].
        destruct (d =? 93)%N; [reflexivity|].
        rewrite (IHe r0 f') by lia. reflexivity. }
      destruct (c =? 123)%N.
      { destruct (skip_ws r0) as [|d r1] eqn:W1; [reflexivity|].
        destruct (d =? 125)%N; [reflexivity|].
        rewrite (IHm r0 f') by lia. reflexivity. }
      reflexivity.
    + intros s [|f'] Hf Hs; [lia|]. cbn [parse_elements].
      rewrite <- (IHv s f') by lia.
      destruct (parse_value f s) as [[v r0]|] eqn:P; [|reflexivity].
      apply (proj1 (parse_length f)) in P.
      destruct (skip_ws r0) as [|d r1] eqn:W; [reflexivity|].
      apply skip_ws_cons in W.
      destruct (d =? 44)%N; [|reflexivity].
      rewrite (IHe r1 f') by lia. reflexivity.
    + intros s [|f'] Hf Hs; [lia|]. cbn [parse_members].
      destruct (skip_ws s) as [|q r0] eqn:W; [reflexivity|].
      apply skip_ws_cons in W.
      destruct (q =? 34)%N; [|reflexivity].
      destruct (parse_chars r0) as [[k r1]|] eqn:P; [|reflexivity].
      apply parse_chars_length in P.
      destruct (skip_ws r1) as [|col r2] eqn:W1; [reflexivity|].
      apply skip_ws_cons in W1.
      destruct (col =? 58)%N; [|reflexivity].
      rewrite <- (IHv r2 f') by lia.
      destruct (parse_value f r2) as [[v r3]|] eqn:V; [|reflexivity].
      apply (proj1 (parse_length f)) in V.
      destruct (skip_ws r3) as [|d r4] eqn:W2; [reflexivity|].
      apply skip_ws_cons in W2.
      destruct (d =? 44)%N; [|reflexivity].
      rewrite (IHm r4 f') by lia. reflexivity.
Qed.

(** [JSON_parse] with any larger fuel. *)
Lemma parse_value_fuel (text : jsstring) (f : nat) :
  2 * List.length text + 1 <= f ->
  parse_value (2 * List.length text + 1) text = parse_value f text.
Proof.
  intros H. apply (proj1 (parse_fuel (2 * List.length text + 1))); lia.
Qed.

End JsonParser.

(** ** Texts without white space are parsed back *)

Section JsonTexts.
Import Json.

Lemma skip_ws_stop (c : N) (r : jsstring) :
  is_json_ws c = false -> skip_ws (c :: r) = c :: r.
Proof. intros H. simpl. now rewrite H. Qed.

(** A text starts with a character that is neither white space nor a
    closing bracket or brace. *)
Lemma json_text_head (j : json) :
  plain j ->
  exists c tl, json_text j = c :: tl /\ is_json_ws c = false
               /\ (c =? 93)%N = false /\ (c =? 125)%N = false.
Proof.
  intros H. destruct H as [|[]| | |]; simpl; eexists; eexists;
    (split; [reflexivity|]); auto.
Qed.

Lemma parse_string_text (f : nat) (s rest : jsstring) :
  parse_value (S f) (QuoteJSONString s ++ rest) = Some (JStr s, rest).
Proof.
  unfold QuoteJSONString. rewrite <- !app_assoc. cbn [app parse_value].
  rewrite skip_ws_stop by reflexivity.
  change (34 =? 34)%N with true. cbn iota.
  now rewrite parse_quote_chars.
Qed.

Lemma parse_elements_text (x : json) (l : list json) :
  Forall plain (x :: l) -> Forall parses_back (x :: l) ->
  exists n, forall f rest, n <= f ->
    parse_elements f
      (Array_join (js ",") (map json_text (x :: l)) ++ 93%N :: rest)
    = Some (x :: l, rest).
Proof.
  revert x. induction l as [|y l IH]; intros x Hp Hb.
  - inversion Hb as [|? ? (n & Hx) _]; subst.
    exists (S n). intros [|f] rest Hf; [lia|].
    cbn [map Array_join parse_elements]. rewrite Hx by lia.
    rewrite skip_ws_stop by reflexivity. reflexivity.
  - inversion Hb as [|? ? (n & Hx) Hb']; subst.
    inversion Hp as [|? ? _ Hp']; subst.
    destruct (IH y Hp' Hb') as (n' & Hl).
    exists (S (Nat.max n n')). intros [|f] rest Hf; [lia|].
    change (Array_join (js ",") (map json_text (x :: y :: l)))
      with (json_text x ++ js ","
            ++ Array_join (js ",") (map json_text (y :: l))).
    rewrite <- !app_assoc. cbn [parse_elements]. rewrite Hx by lia.
    change (js "," ++ ?r) with (44%N :: r).
    cbn [app]. rewrite skip_ws_stop by reflexivity.
    change (44 =? 44)%N with true. cbn iota.
    rewrite Hl by lia. reflexivity.
Qed.

Lemma parse_members_text (x : jsstring * json) (l : list (jsstring * json)) :
  Forall (fun kv => parses_back (snd kv)) (x :: l) ->
  exists n, forall f rest, n <= f ->
    parse_members f
      (Array_join (js ",") (map member_text (x :: l)) ++ 125%N :: rest)
    = Some (x :: l, rest).
Proof.
  revert x. induction l as [|y l IH]; intros [k v] Hb.
  - inversion Hb as [|? ? (n & Hx) _]; subst. simpl in Hx.
    exists (S n). intros [|f] rest Hf; [lia|].
    cbn [map Array_join]. unfold member_text, QuoteJSONString. cbn [fst snd].
    rewrite <- !app_assoc. cbn [app parse_members].
    rewrite skip_ws_stop by reflexivity.
    change (34 =? 34)%N with true. cbn iota.
    rewrite parse_quote_chars. change (js ":") with [58%N]. cbn [app].
    rewrite skip_ws_stop by reflexivity.
    change (58 =? 58)%N with true. cbn iota.
    rewrite Hx by lia.
    rewrite skip_ws_stop by reflexivity. reflexivity.
  - inversion Hb as [|? ? (n & Hx) Hb']; subst. simpl in Hx.
    destruct (IH y Hb') as (n' & Hl).
    exists (S (Nat.max n n')). intros [|f] rest Hf; [lia|].
    change (Array_join (js ",") (map member_text ((k, v) :: y :: l)))
      with (member_text (k, v) ++ js ","
            ++ Array_join (js ",") (map member_text (y :: l))).
    unfold member_text at 1, QuoteJSONString. cbn [fst snd].
    rewrite <- !app_assoc. cbn [app parse_members].
    rewrite skip_ws_stop by reflexivity.
    change (34 =? 34)%N with true. cbn iota.
    rewrite parse_quote_chars. change (js ":") with [58%N]. cbn [app].
    rewrite skip_ws_stop by reflexivity.
    change (58 =? 58)%N with true. cbn iota.
    rewrite Hx by lia.
    change (js "," ++ ?r) with (44%N :: r).
    rewrite skip_ws_stop by reflexivity.
    change (44 =? 44)%N with true. cbn iota.
    rewrite Hl by lia. reflexivity.
Qed.

(** Parsing the text of a value without numbers gives the value back and
    stops right after the text, for every fuel from some point on. *)
Lemma parse_json_text (j : json) : plain j -> parses_back j.
Proof.
  induction j as [|b|lit|s|l IH|m IH] using json_induction; intros Hp.
  - exists 1. intros [|f] rest Hf; [lia|]. reflexivity.
  - exists 1. intros [|f] rest Hf; [lia|]. destruct b; reflexivity.
  - inversion Hp.
  - exists 1. intros [|f] rest Hf; [lia|]. apply parse_string_text.
  - inversion Hp as [| | |? Hl|]; subst.
    assert (Hb : Forall parses_back l).
    { clear Hp. induction IH as [|x l Hx _ IHl]; [constructor|].
      inversion Hl; subst. constructor; auto. }
    destruct l as [|x l].
    + exists 1. intros [|f] rest Hf; [lia|]. reflexivity.
    + destruct (parse_elements_text x l Hl Hb) as (n & Hn).
      assert (Hx : plain x) by (now inversion Hl).
      destruct (json_text_head x Hx) as (c & tl & E & W & B & _).
      exists (S n). intros [|f] rest Hf; [lia|].
      cbn [json_text]. change (js "[" ++ ?r) with (91%N :: r).
      change (js "]") with [93%N]. cbn [app]. rewrite <- app_assoc.
      cbn [app parse_value]. rewrite skip_ws_stop by reflexivity.
      change (91 =? 34)%N with false. change (91 =? 91)%N with true.
      cbn iota.
      assert (Hs : skip_ws
                (Array_join (js ",") (map json_text (x :: l)) ++ 93%N :: rest)
              = c :: skipn 1
                  (Array_join (js ",") (map json_text (x :: l))
                   ++ 93%N :: rest)).
      { cbn [map Array_join]. destruct l; cbn [map]; rewrite E; cbn [app];
          now rewrite skip_ws_stop by exact W. }
      rewrite Hs, B, Hn by lia. reflexivity.
  - inversion Hp as [| | | |? Hl]; subst.
    assert (Hb : Forall (fun kv => parses_back (snd kv)) m).
    { clear Hp. induction IH as [|x l Hx _ IHl]; [constructor|].
      inversion Hl; subst. constructor; auto. }
    destruct m as [|x m].
    + exists 1. intros [|f] rest Hf; [lia|]. reflexivity.
    + destruct (parse_members_text x m Hb) as (n & Hn).
      exists (S n). intros [|f] rest Hf; [lia|].
      cbn [json_text]. change (js "{" ++ ?r) with (123%N :: r).
      change (js "}") with [125%N]. cbn [app]. rewrite <- app_assoc.
      cbn [app parse_value]. rewrite skip_ws_stop by reflexivity.
      change (123 =? 34)%N with false. change (123 =? 91)%N with false.
      change (123 =? 123)%N with true. cbn iota.
      fold member_text.
      change (map (fun kv => QuoteJSONString (fst kv) ++ js ":"
                             ++ json_text (snd kv)) (x :: m))
        with (map member_text (x :: m)).
      match goal with
      | |- context [skip_ws ?t] =>
          replace (skip_ws t) with (34%N :: skipn 1 t)
            by (destruct m; reflexivity)
      end.
      change (34 =? 125)%N with false. cbn iota.
      rewrite Hn by lia. reflexivity.
Qed.

(** [JSON.parse] on the text of a value without numbers. *)
Lemma JSON_parse_text (j : json) :
  plain j -> JSON_parse (json_text j) = Some j.
Proof.
  intros Hp. destruct (parse_json_text j Hp) as (n & Hn).
  unfold JSON_parse.
  rewrite (parse_value_fuel (json_text j)
             (Nat.max n (2 * List.length (json_text j) + 1))) by lia.
  rewrite <- (app_nil_r (json_text j)) at 2.
  rewrite Hn by lia. reflexivity.
Qed.

End JsonTexts.

(** ** Time values survive [toISOString] and the [Date] constructor *)

Section IsoDates.
Import JsDate.
Local Open Scope Z_scope.

Lemma DayFromYear_step (y : Z) :
  DayFromYear (y + 1) - DayFromYear y = DaysInYear y.
Proof.
  unfold DayFromYear, DaysInYear, InLeapYear.
  destruct (y mod 4 =? 0) eqn:E4; destruct (y mod 100 =? 0) eqn:E100;
    destruct (y mod 400 =? 0) eqn:E400; cbn [andb orb negb];
    rewrite ?Z.eqb_eq, ?Z.eqb_neq in E4, E100, E400;
    Z.div_mod_to_equations; lia.
Qed.

(** [YearFromDay] is the year ECMA-262 defines: the largest one that starts
    on or before the day. *)
Lemma YearFromDay_spec (d : Z) :
  DayFromYear (YearFromDay d) <= d < DayFromYear (YearFromDay d + 1).
Proof.
  unfold YearFromDay.
  set (y0 := 1970 + 400 * d / 146097).
  destruct (d <? DayFromYear y0) eqn:E1;
    [|destruct (DayFromYear (y0 + 1) <=? d) eqn:E2];
    rewrite ?Z.ltb_lt, ?Z.ltb_ge, ?Z.leb_le, ?Z.leb_gt in *.
  - replace (y0 - 1 + 1) with y0 by lia. split; [|lia].
    unfold DayFromYear in *. subst y0. Z.div_mod_to_equations. lia.
  - split; [lia|].
    unfold DayFromYear in *. subst y0. Z.div_mod_to_equations. lia.
  - lia.
Qed.

Lemma DayFromYear_mono (y y' : Z) : y <= y' -> DayFromYear y <= DayFromYear y'.
Proof.
  intros H. unfold DayFromYear. Z.div_mod_to_equations. lia.
Qed.

Lemma YearFromDay_unique (d y : Z) :
  DayFromYear y <= d < DayFromYear (y + 1) -> YearFromDay d = y.
Proof.
  intros H. pose proof (YearFromDay_spec d) as S.
  destruct (Z.lt_trichotomy (YearFromDay d) y) as [L|[E|G]]; [|exact E|].
  - pose proof (DayFromYear_mono (YearFromDay d + 1) y ltac:(lia)). lia.
  - pose proof (DayFromYear_mono (y + 1) (YearFromDay d) ltac:(lia)). lia.
Qed.

Lemma DayWithinYear_range (t : time) :
  0 <= DayWithinYear t < DaysInYear (YearFromTime t).
Proof.
  unfold DayWithinYear, YearFromTime.
  pose proof (YearFromDay_spec (Day t)).
  pose proof (DayFromYear_step (YearFromDay (Day t))). lia.
Qed.

Lemma year_of_valid_time (t : time) :
  valid_time t -> -271821 <= YearFromTime t <= 275760.
Proof.
  unfold valid_time, maxTime, YearFromTime. intros H.
  assert (D : -100000000 <= Day t <= 100000000).
  { unfold Day, msPerDay. Z.div_mod_to_equations. lia. }
  pose proof (YearFromDay_spec (Day t)) as S.
  split.
  - destruct (Z_lt_le_dec (YearFromDay (Day t)) (-271821)) as [L|]; [|lia].
    pose proof (DayFromYear_mono (YearFromDay (Day t) + 1) (-271821)
                  ltac:(lia)) as M.
    change (DayFromYear (-271821)) with (-100000109) in M. lia.
  - destruct (Z_lt_le_dec 275760 (YearFromDay (Day t))) as [L|]; [|lia].
    pose proof (DayFromYear_mono 275761 (YearFromDay (Day t)) ltac:(lia)) as M.
    change (DayFromYear 275761) with 100000110 in M. lia.
Qed.

Lemma read_digit_char (w : nat) (acc d : Z) (r : jsstring) :
  0 <= d <= 9 ->
  read_digits (S w) acc (digit_char d :: r) = read_digits w (10 * acc + d) r.
Proof.
  intros H. unfold digit_char. cbn [read_digits].
  assert (E1 : (48 <=? 48 + Z.to_N d)%N = true) by (apply N.leb_le; lia).
  assert (E2 : (48 + Z.to_N d <=? 57)%N = true) by (apply N.leb_le; lia).
  rewrite E1, E2. cbn [andb].
  replace (Z.of_N (48 + Z.to_N d - 48)) with d by lia. reflexivity.
Qed.

Lemma read_pad_digits (w k : nat) (n acc : Z) (rest : jsstring) :
  0 <= n < 10 ^ Z.of_nat w ->
  read_digits (w + k) acc (pad_digits w n ++ rest)
  = read_digits k (acc * 10 ^ Z.of_nat w + n) rest.
Proof.
  revert k n acc rest. induction w as [|w IH]; intros k n acc rest H.
  - simpl in *. f_equal. lia.
  - cbn [pad_digits]. rewrite <- app_assoc. cbn [app].
    replace (S w + k)%nat with (w + S k)%nat by lia.
    rewrite Nat2Z.inj_succ, Z.pow_succ_r in H by lia.
    rewrite IH by (Z.div_mod_to_equations; lia).
    rewrite read_digit_char by (Z.div_mod_to_equations; lia).
    f_equal. rewrite Nat2Z.inj_succ, Z.pow_succ_r by lia.
    Z.div_mod_to_equations. lia.
Qed.

Lemma read_pad (w : nat) (n : Z) (rest : jsstring) :
  0 <= n < 10 ^ Z.of_nat w ->
  read_digits w 0 (pad_digits w n ++ rest) = Some (n, rest).
Proof.
  intros H. pose proof (read_pad_digits w 0 n 0 rest H) as E.
  rewrite Nat.add_0_r in E. rewrite E. reflexivity.
Qed.

Lemma pad_digits_head (w : nat) (n : Z) :
  0 <= n < 10 ^ Z.of_nat (S w) ->
  exists d r, 0 <= d <= 9 /\ pad_digits (S w) n = digit_char d :: r.
Proof.
  revert n. induction w as [|w IH]; intros n H.
  - exists (n mod 10), []. split; [Z.div_mod_to_equations; lia | reflexivity].
  - cbn [pad_digits].
    rewrite Nat2Z.inj_succ, Z.pow_succ_r in H by lia.
    destruct (IH (n / 10)) as (d & r & Hd & E).
    { Z.div_mod_to_equations. lia. }
    cbn [pad_digits] in E. rewrite E. exists d. eexists. split; [exact Hd|].
    reflexivity.
Qed.

Lemma read_year_string (y : Z) (rest : jsstring) :
  -999999 <= y <= 999999 ->
  read_year (year_string y ++ rest) = Some (y, rest).
Proof.
  intros H. unfold year_string.
  destruct ((0 <=? y) && (y <=? 9999)) eqn:E.
  - apply andb_true_iff in E as [E1 E2]. apply Z.leb_le in E1, E2.
    destruct (pad_digits_head 3 y) as (d & r & Hd & P).
    { change (10 ^ Z.of_nat 4) with 10000. lia. }
    pose proof (read_pad 4 y rest) as R.
    rewrite P in *. cbn [app] in *. unfold read_year.
    assert (N1 : (digit_char d =? 43)%N = false)
      by (apply N.eqb_neq; unfold digit_char; lia).
    assert (N2 : (digit_char d =? 45)%N = false)
      by (apply N.eqb_neq; unfold digit_char; lia).
    rewrite N1, N2. apply R. change (10 ^ Z.of_nat 4) with 10000. lia.
  - destruct (0 <=? y) eqn:E0.
    + apply Z.leb_le in E0. change (js "+") with [43%N]. cbn [app].
      unfold read_year. rewrite N.eqb_refl.
      apply read_pad. change (10 ^ Z.of_nat 6) with 1000000. lia.
    + apply Z.leb_gt in E0. change (js "-") with [45%N]. cbn [app].
      unfold read_year. change (45 =? 43)%N with false. rewrite N.eqb_refl.
      cbn iota. rewrite read_pad
        by (change (10 ^ Z.of_nat 6) with 1000000; lia).
      destruct (- y =? 0) eqn:Z0; [apply Z.eqb_eq in Z0; lia|].
      now rewrite Z.opp_involutive.
Qed.

Lemma Month_Date_range (t : time) :
  0 <= MonthFromTime t <= 11
  /\ 1 <= DateFromTime t
     <= DaysInMonth (InLeapYear (YearFromTime t)) (MonthFromTime t).
Proof.
  pose proof (DayWithinYear_range t) as R.
  unfold DateFromTime, MonthFromTime, DaysInMonth, DaysInYear in *.
  set (d := DayWithinYear t) in *.
  destruct (InLeapYear (YearFromTime t)); cbn [DaysBeforeMonth];
    repeat match goal with
    | |- context [if ?a <? ?b then _ else _] =>
        destruct (Z.ltb_spec a b)
    end; cbn; lia.
Qed.

(** The string [toISOString] writes for a time value is read back by the
    [Date] constructor as the same time value. *)
Lemma parse_iso_toISOString (t : time) :
  valid_time t -> parse_iso (toISOString t) = Some t.
Proof.
  intros V.
  pose proof (year_of_valid_time t V) as HY.
  pose proof (Month_Date_range t) as (HM & HD).
  assert (HD' : DateFromTime t <= 31).
  { unfold DaysInMonth in HD.
    destruct (InLeapYear (YearFromTime t));
      assert (C : MonthFromTime t = 0 \/ MonthFromTime t = 1
                  \/ MonthFromTime t = 2 \/ MonthFromTime t = 3
                  \/ MonthFromTime t = 4 \/ MonthFromTime t = 5
                  \/ MonthFromTime t = 6 \/ MonthFromTime t = 7
                  \/ MonthFromTime t = 8 \/ MonthFromTime t = 9
                  \/ MonthFromTime t = 10 \/ MonthFromTime t = 11) by lia;
      repeat (destruct C as [C|C]); rewrite C in HD; cbn in HD; lia. }
  unfold toISOString, parse_iso.
  change (js "-") with [45%N]. change (js "T") with [84%N].
  change (js ":") with [58%N]. change (js ".") with [46%N].
  change (js "Z") with [90%N].
  rewrite read_year_string by lia. cbn [obind app expect]. rewrite N.eqb_refl. cbn [obind].
  rewrite read_pad by (change (10 ^ Z.of_nat 2) with 100; lia).
  cbn [obind app expect]. rewrite N.eqb_refl. cbn [obind].
  rewrite read_pad by (change (10 ^ Z.of_nat 2) with 100; lia).
  cbn [obind app expect]. rewrite N.eqb_refl. cbn [obind].
  rewrite read_pad
    by (change (10 ^ Z.of_nat 2) with 100; unfold HourFromTime;
        Z.div_mod_to_equations; lia).
  cbn [obind app expect]. rewrite N.eqb_refl. cbn [obind].
  rewrite read_pad
    by (change (10 ^ Z.of_nat 2) with 100; unfold MinFromTime;
        Z.div_mod_to_equations; lia).
  cbn [obind app expect]. rewrite N.eqb_refl. cbn [obind].
  rewrite read_pad
    by (change (10 ^ Z.of_nat 2) with 100; unfold SecFromTime;
        Z.div_mod_to_equations; lia).
  cbn [obind app expect]. rewrite N.eqb_refl. cbn [obind].
  pose proof (read_pad 3 (msFromTime t) [90%N]) as R3. cbn [app] in R3.
  rewrite R3
    by (change (10 ^ Z.of_nat 3) with 1000; unfold msFromTime;
        Z.div_mod_to_equations; lia).
  cbn [obind expect]. rewrite N.eqb_refl. cbn [obind].
  replace (MonthFromTime t + 1 - 1) with (MonthFromTime t) by lia.
  assert (B : (1 <=? MonthFromTime t + 1) && (MonthFromTime t + 1 <=? 12)
              && (1 <=? DateFromTime t)
              && (DateFromTime t
                  <=? DaysInMonth (InLeapYear (YearFromTime t))
                        (MonthFromTime t))
              && (HourFromTime t <=? 23) && (MinFromTime t <=? 59)
              && (SecFromTime t <=? 59) = true).
  { repeat (apply andb_true_iff; split); apply Z.leb_le; try lia;
      unfold HourFromTime, MinFromTime, SecFromTime;
      Z.div_mod_to_equations; lia. }
  rewrite B.
  assert (E : MakeDate
                (MakeDay (YearFromTime t) (MonthFromTime t) (DateFromTime t))
                (MakeTime (HourFromTime t) (MinFromTime t) (SecFromTime t)
                   (msFromTime t)) = t).
  { unfold MakeDate, MakeDay, DateFromTime, DayWithinYear, MakeTime,
      HourFromTime, MinFromTime, SecFromTime, msFromTime, Day, msPerDay.
    Z.div_mod_to_equations. lia. }
  cbv zeta. rewrite E.
  assert (VB : valid_timeb t = true).
  { unfold valid_timeb, valid_time in *.
    apply andb_true_iff. split; apply Z.leb_le; lia. }
  now rewrite VB.
Qed.

End IsoDates.

(** ** [src/app.ts]: what each method does to the collection *)

Ltac run :=
  unfold App.addTodo, App.toggleTodo, App.deleteTodo, App.editTodo,
    App.setFilter, App.clearCompletedTodos, App.updateFilterButtons,
    App.saveToStorage,
    PriorityApp.addTodo, PriorityApp.toggleTodo, PriorityApp.deleteTodo,
    PriorityApp.editTodo, PriorityApp.setFilter,
    PriorityApp.clearCompletedTodos, PriorityApp.cyclePriority,
    PriorityApp.updateFilterButtons, PriorityApp.saveToStorage,
    bind, gets, modify, ret, throw; cbn beta iota.

Section AppMethods.
Import App.

(** [render] touches neither the collection, nor the filter, nor the
    storage slot; it writes the current view into the list, the count into
    the count element, and shows or hides the "clear completed" button. *)
Lemma App_render_list (s : State) :
  exists s', render s = Returns tt s'
    /\ todos s' = todos s /\ currentFilter s' = currentFilter s
    /\ storage s' = storage s
    /\ todoList (dom s') = map item_of (getFilteredTodos s)
    /\ todoCount_textContent (dom s') = Number_toString (activeTodos (todos s))
    /\ clearCompleted_display (dom s')
       = if hasCompleted (todos s) then block else none.
Proof.
  unfold render, renderTodos, updateTodoCount, updateFilterButtons,
    updateEmptyState, bind, gets, modify.
  eexists. split; [reflexivity|]. cbn. auto 10.
Qed.

Ltac then_render :=
  match goal with
  | |- exists s', render ?x = Returns tt s' /\ _ =>
      let s1 := fresh "s'" in
      let H := fresh "H" in
      let T := fresh "T" in
      let F := fresh "F" in
      destruct (App_render_list x) as (s1 & H & T & F & _);
      exists s1; split; [exact H|]; rewrite T, F; cbn; auto
  end.

Lemma App_addTodo_todos (title : jsstring) (e : Entropy) (s : State) :
  exists s', addTodo title e s = Returns tt s'
    /\ todos s' = mkTodo (generateId e) title false (new_Date e) :: todos s
    /\ currentFilter s' = currentFilter s.
Proof. run. then_render. Qed.


Lemma App_clearCompletedTodos_todos (s : State) :
  exists s', clearCompletedTodos s = Returns tt s'
    /\ todos s' = Array_filter (fun t => negb (completed t)) (todos s)
    /\ currentFilter s' = currentFilter s
    /\ clearCompleted_display (dom s')
       = if hasCompleted (todos s') then block else none.
Proof.
  run.
  match goal with
  | |- exists s', render ?x = Returns tt s' /\ _ =>
      destruct (App_render_list x) as (s' & H & T & F & _ & _ & _ & D)
  end.
  exists s'. split; [exact H|]. rewrite D, T, F. cbn. auto.
Qed.

Lemma App_toggleTodo_found (i : jsstring) (s : State) (t : Todo) :
  Array_find (has_id i) (todos s) = Some t ->
  exists s', toggleTodo i s = Returns tt s'
    /\ todos s'
       = update_found (has_id i) (set_completed (negb (completed t))) (todos s)
    /\ currentFilter s' = currentFilter s.
Proof. intros H. run. rewrite H. cbn beta iota. then_render. Qed.

Lemma App_toggleTodo_missing (i : jsstring) (s : State) :
  Array_find (has_id i) (todos s) = None -> toggleTodo i s = Returns tt s.
Proof. intros H. run. now rewrite H. Qed.

Lemma App_editTodo_missing (i v : jsstring) (s : State) :
  Array_find (has_id i) (todos s) = None -> editTodo i v s = Returns tt s.
Proof. intros H. run. now rewrite H. Qed.

Lemma App_setFilter_view (f : FilterType) (s : State) :
  exists s', setFilter f s = Returns tt s'
    /\ todos s' = todos s /\ currentFilter s' = f
    /\ getFilteredTodos s' = view f s.
Proof.
  run.
  match goal with
  | |- exists s', render ?x = Returns tt s' /\ _ =>
      destruct (App_render_list x) as (s' & H & T & F & _)
  end.
  exists s'. split; [exact H|].
  unfold view, getFilteredTodos. rewrite T, F. cbn. auto.
Qed.

End AppMethods.

(** ** [src/unnamed/part_001]: what each method does to the collection *)

Section PriorityMethods.
Import PriorityApp.

Lemma Priority_render_list (s : State) :
  exists s', render s = Returns tt s'
    /\ todos s' = todos s /\ currentFilter s' = currentFilter s
    /\ storage s' = storage s
    /\ todoList (dom s') = map item_of (getFilteredTodos s).
Proof.
  unfold render, renderTodos, updateTodoCount, updateFilterButtons,
    updateEmptyState, bind, gets, modify.
  eexists. split; [reflexivity|]. cbn. auto.
Qed.

Ltac then_render :=
  match goal with
  | |- exists s', render ?x = Returns tt s' /\ _ =>
      let s1 := fresh "s'" in
      let H := fresh "H" in
      let T := fresh "T" in
      let F := fresh "F" in
      destruct (Priority_render_list x) as (s1 & H & T & F & _);
      exists s1; split; [exact H|]; rewrite T, F; cbn; auto
  end.

Lemma Priority_addTodo_todos (title : jsstring) (e : Entropy) (s : State) :
  exists s', addTodo title e s = Returns tt s'
    /\ todos s' = mkTodo (generateId e) title false (new_Date e) medium :: todos s
    /\ currentFilter s' = currentFilter s.
Proof. run. then_render. Qed.



Lemma Priority_editTodo_missing (i v : jsstring) (s : State) :
  Array_find (has_id i) (todos s) = None -> editTodo i v s = Returns tt s.
Proof. intros H. run. now rewrite H. Qed.

Lemma Priority_cyclePriority_missing (i : jsstring) (s : State) :
  Array_find (has_id i) (todos s) = None -> cyclePriority i s = Returns tt s.
Proof. intros H. run. now rewrite H. Qed.

Lemma Priority_cyclePriority_found (i : jsstring) (s : State) (t : Todo) :
  Array_find (has_id i) (todos s) = Some t ->
  exists s', cyclePriority i s = Returns tt s'
    /\ todos s'
       = update_found (has_id i) (set_priority (next_priority (priority t)))
           (todos s)
    /\ currentFilter s' = currentFilter s.
Proof. intros H. run. rewrite H. cbn beta iota. then_render. Qed.

(** The index arithmetic of [cyclePriority] walks the fixed cycle. *)
Lemma next_priority_cycle (p : Priority) : next_priority p = cycle_order p.
Proof. destruct p; reflexivity. Qed.

End PriorityMethods.

(** ** Records found by id *)

Lemma App_find_has_id (i : jsstring) (l : list App.Todo) (t : App.Todo) :
  Array_find (App.has_id i) l = Some t -> App.id t = i /\ In t l.
Proof.
  unfold Array_find. intros H. apply find_some in H as [Hin Hid].
  split; [now apply str_eqb_eq | exact Hin].
Qed.



(** Changing a field other than [id] of the record found, twice, composes
    the two changes on that record. *)
Lemma update_found_twice {A} (f : A -> bool) (g h : A -> A) (l : list A) :
  (forall x, f x = true -> f (g x) = true) ->
  update_found f h (update_found f g l) = update_found f (fun x => h (g x)) l.
Proof.
  intros Hg. induction l as [|x r IH]; simpl; [reflexivity|].
  destruct (f x) eqn:E; simpl.
  - now rewrite (Hg x E).
  - now rewrite E, IH.
Qed.

Lemma update_found_id {A} (f : A -> bool) (g : A -> A) (l : list A) :
  (forall x, f x = true -> g x = x) -> update_found f g l = l.
Proof.
  intros Hg. induction l as [|x r IH]; simpl; [reflexivity|].
  destruct (f x) eqn:E; [now rewrite (Hg x E) | now rewrite IH].
Qed.

Lemma update_found_ext {A} (f : A -> bool) (g h : A -> A) (l : list A) :
  (forall x, f x = true -> g x = h x) -> update_found f g l = update_found f h l.
Proof.
  intros Hg. induction l as [|x r IH]; simpl; [reflexivity|].
  destruct (f x) eqn:E; [now rewrite (Hg x E) | now rewrite IH].
Qed.

Lemma find_update_found {A} (f : A -> bool) (g : A -> A) (l : list A) :
  (forall x, f x = true -> f (g x) = true) ->
  Array_find f (update_found f g l) = option_map g (Array_find f l).
Proof.
  unfold Array_find. intros Hg.
  induction l as [|x r IH]; simpl; [reflexivity|].
  destruct (f x) eqn:E; simpl.
  - now rewrite (Hg x E).
  - now rewrite E.
Qed.

(** ** The relation [selects] *)

Lemma selects_filter {A} (p : A -> bool) (l : list A) :
  selects p l (Array_filter p l).
Proof.
  unfold Array_filter. induction l as [|x r IH]; simpl; [constructor|].
  destruct (p x) eqn:E; [now apply selects_keep | now apply selects_drop].
Qed.

Lemma selects_unique {A} (p : A -> bool) (l l1 l2 : list A) :
  selects p l l1 -> selects p l l2 -> l1 = l2.
Proof.
  intros H1. revert l2. induction H1; intros l2 H2; inversion H2; subst;
    try congruence; auto.
  f_equal. auto.
Qed.

Lemma selects_all {A} (p : A -> bool) (l : list A) :
  (forall x, p x = true) -> selects p l l.
Proof. intros H. induction l; constructor; auto. Qed.

Lemma selects_In {A} (p : A -> bool) (l l' : list A) :
  selects p l l' -> forall x, In x l' <-> In x l /\ p x = true.
Proof.
  induction 1; intros y; simpl.
  - tauto.
  - rewrite IHselects. split.
    + intros [->|[? ?]]; auto.
    + intros [[->|?] ?]; auto.
  - rewrite IHselects. split.
    + intros [? ?]; auto.
    + intros [[->|?] ?]; auto. congruence.
Qed.

(** ** Adding *)

(** [addTodo] itself does not look at the title: called with a title of
    three spaces on a fresh page it returns with one record in the
    collection, in both variants.  The method is private, and its one
    caller, the [keypress] listener, never passes it such a title. *)
Lemma addTodo_blank_title_adds :
  trim (js "   ") = []
  /\ (exists s', App.addTodo (js "   ") sample_entropy App_fresh = Returns tt s'
        /\ App.todos s'
           = [App.mkTodo sample_id (js "   ") false (new_Date sample_entropy)]
        /\ App.todos s' <> App.todos App_fresh)
  /\ (exists s', PriorityApp.addTodo (js "   ") sample_entropy Priority_fresh
                 = Returns tt s'
        /\ List.length (PriorityApp.todos s') = 1%nat
        /\ PriorityApp.todos s' <> PriorityApp.todos Priority_fresh).
Proof.
  split; [reflexivity|]. split.
  - destruct (App_addTodo_todos (js "   ") sample_entropy App_fresh)
      as (s' & H & T & _).
    exists s'. split; [exact H|]. rewrite T.
    split; [reflexivity | discriminate].
  - destruct (Priority_addTodo_todos (js "   ") sample_entropy Priority_fresh)
      as (s' & H & T & _).
    exists s'. split; [exact H|]. rewrite T.
    split; [reflexivity | discriminate].
Qed.

(** C1.  The add operation of the page is the [keypress] listener of the
    input box, the only caller of [addTodo]; it checks the title.  When the
    trimmed value of the box is empty the listener calls nothing: it
    returns and the whole state (collection, storage slot, document) is the
    one before, whatever the key, so no record is created.  Both
    variants. *)
Theorem on_keypress_blank_noop
  (key : jsstring) (e : Entropy) (s : App.State) (p : PriorityApp.State) :
  trim (App.todoInput_value (App.dom s)) = [] ->
  trim (PriorityApp.todoInput_value (PriorityApp.dom p)) = [] ->
  App.on_keypress key e s = Returns tt s
  /\ PriorityApp.on_keypress key e p = Returns tt p.
Proof.
  intros Hs Hp.
  unfold App.on_keypress, PriorityApp.on_keypress, bind, gets.
  cbn beta iota. rewrite Hs, Hp. cbn [truthy].
  rewrite andb_false_r. auto.
Qed.

Lemma on_keypress_blank_noop_witness :
  let s := App.mkState [] Filter_all None
             (App.mkDom (js "   ") [] Filter_all (js "0") true [] block none
                none none) in
  let p := PriorityApp.mkState [] Filter_all None
             (PriorityApp.mkDom (js "   ") [] Filter_all [] flex) in
  App.on_keypress (js "Enter") sample_entropy s = Returns tt s
  /\ PriorityApp.on_keypress (js "Enter") sample_entropy p = Returns tt p.
Proof.
  intros s p.
  apply (on_keypress_blank_noop (js "Enter") sample_entropy s p);
    reflexivity.
Defined.

(** With a value that is not blank, Enter adds the trimmed value. *)
Lemma on_keypress_Enter_adds (e : Entropy) (s : App.State) :
  trim (App.todoInput_value (App.dom s)) <> [] ->
  exists s', App.on_keypress (js "Enter") e s = Returns tt s'
    /\ App.todos s'
       = App.mkTodo (App.generateId e)
           (trim (App.todoInput_value (App.dom s))) false (new_Date e)
         :: App.todos s.
Proof.
  intros H. unfold App.on_keypress, bind, gets at 1. cbn beta iota.
  destruct (trim (App.todoInput_value (App.dom s))) eqn:E; [congruence|].
  change (str_eqb (js "Enter") (js "Enter") && truthy (n :: j)) with true.
  cbn iota.
  destruct (App_addTodo_todos (n :: j) e s) as (s1 & H1 & T1 & _).
  rewrite H1. unfold App.set_todoInput_value, modify.
  eexists. split; [reflexivity|]. exact T1.
Qed.

Lemma App_addTodos_todos (calls : list (jsstring * Entropy)) (s : App.State) :
  exists s', App_addTodos calls s = Returns tt s'
    /\ App.todos s' = rev (map App_new_todo calls) ++ App.todos s
    /\ App.currentFilter s' = App.currentFilter s.
Proof.
  revert s. induction calls as [|[title e] r IH]; intros s; simpl.
  - exists s. auto.
  - destruct (App_addTodo_todos title e s) as (s1 & H1 & T1 & F1).
    destruct (IH s1) as (s2 & H2 & T2 & F2).
    exists s2. unfold bind. rewrite H1. split; [exact H2|].
    rewrite T2, T1, F2, F1. split; [|reflexivity].
    now rewrite <- app_assoc.
Qed.

(** C5.  Any sequence of [addTodo] calls, on any collection, returns; the
    collection afterwards is the new records, the latest first, in front of
    the old collection; its size is the old size plus the number of calls;
    and after one more call the record of that call is the first of the
    view under [all].  This holds for every title, so in particular for
    those whose trimmed form is not empty. *)
Theorem addTodo_sequence_prepends
  (calls : list (jsstring * Entropy)) (last : jsstring * Entropy)
  (s : App.State) :
  exists s' s'',
    App_addTodos calls s = Returns tt s'
    /\ App.todos s' = rev (map App_new_todo calls) ++ App.todos s
    /\ List.length (App.todos s')
       = (List.length (App.todos s) + List.length calls)%nat
    /\ App_addTodos (calls ++ [last]) s = Returns tt s''
    /\ App.todos s'' = App_new_todo last :: App.todos s'
    /\ hd_error (App.view Filter_all s'') = Some (App_new_todo last).
Proof.
  destruct (App_addTodos_todos calls s) as (s1 & H1 & T1 & _).
  destruct (App_addTodos_todos (calls ++ [last]) s) as (s2 & H2 & T2 & _).
  exists s1, s2. split; [exact H1|]. split; [exact T1|]. split.
  - rewrite T1, length_app, length_rev, length_map. lia.
  - split; [exact H2|].
    assert (E : App.todos s2 = App_new_todo last :: App.todos s1).
    { rewrite T2, T1, map_app, rev_app_distr. reflexivity. }
    split; [exact E|].
    unfold App.view, App.getFilteredTodos. simpl. now rewrite E.
Qed.

(** ** Filtering *)

Lemma App_view_filter (f : FilterType) (s : App.State) :
  App.view f s = Array_filter (App_accepts f) (App.todos s).
Proof.
  unfold App.view, App.getFilteredTodos, Array_filter. destruct f; simpl.
  - symmetry. apply forallb_filter_id. now apply forallb_forall.
  - reflexivity.
  - apply filter_ext. reflexivity.
Qed.

(** C4.  [getFilteredTodos] is the view under the current filter; the view
    under a filter holds exactly the records of the collection the filter
    accepts, each as often as the collection does and in its order; no other
    list does; and under [all] it is the collection itself. *)
Theorem getFilteredTodos_exact (s : App.State) (f : FilterType) :
  App.getFilteredTodos s = App.view (App.currentFilter s) s
  /\ selects (App_accepts f) (App.todos s) (App.view f s)
  /\ (forall l, selects (App_accepts f) (App.todos s) l -> l = App.view f s)
  /\ (forall t, In t (App.view f s)
        <-> In t (App.todos s) /\ App_accepts f t = true)
  /\ App.view Filter_all s = App.todos s.
Proof.
  assert (S : selects (App_accepts f) (App.todos s) (App.view f s)).
  { rewrite App_view_filter. apply selects_filter. }
  split; [destruct s; reflexivity|]. split; [exact S|]. split.
  - intros l Hl. exact (selects_unique _ _ _ _ Hl S).
  - split; [exact (selects_In _ _ _ S) | reflexivity].
Qed.

(** ** Ids that are not in the collection *)



(** ** Toggling and clearing *)

(** Only the first element accepted is changed, so two changes that agree
    on it give the same array. *)
Lemma update_found_first {A} (f : A -> bool) (g h : A -> A) (l : list A)
  (t : A) :
  Array_find f l = Some t -> h t = g t ->
  update_found f h l = update_found f g l.
Proof.
  unfold Array_find. induction l as [|x r IH]; simpl; [discriminate|].
  destruct (f x); [intros [= ->] ->; reflexivity|].
  intros H E. now rewrite IH.
Qed.

Lemma App_toggleTodo_todos (i : jsstring) (s : App.State) :
  exists s', App.toggleTodo i s = Returns tt s'
    /\ App.todos s'
       = update_found (App.has_id i)
           (fun t => App.set_completed (negb (App.completed t)) t)
           (App.todos s).
Proof.
  destruct (Array_find (App.has_id i) (App.todos s)) as [t|] eqn:E.
  - destruct (App_toggleTodo_found i s t E) as (s' & H & T & _).
    exists s'. split; [exact H|]. rewrite T.
    apply update_found_first with (t := t); [exact E | reflexivity].
  - exists s. split; [now apply App_toggleTodo_missing|].
    symmetry. now apply find_none_update.
Qed.

(** C8.  Two calls of [toggleTodo] on the same id return and leave the
    collection as it was, the completed flag of the record found included;
    in between, that record has the opposite flag.  After
    [clearCompletedTodos] no record is completed: the constant
    [hasCompleted] of the next [updateEmptyState] is false and the "clear
    completed" button is hidden. *)
Theorem toggle_twice_clear_completed (i : jsstring) (s : App.State) :
  (exists s1 s2,
      App.toggleTodo i s = Returns tt s1
      /\ App.toggleTodo i s1 = Returns tt s2
      /\ Array_find (App.has_id i) (App.todos s1)
         = option_map (fun t => App.set_completed (negb (App.completed t)) t)
             (Array_find (App.has_id i) (App.todos s))
      /\ App.todos s2 = App.todos s
      /\ Array_find (App.has_id i) (App.todos s2)
         = Array_find (App.has_id i) (App.todos s))
  /\ (exists s',
      App.clearCompletedTodos s = Returns tt s'
      /\ App.hasCompleted (App.todos s') = false
      /\ App.clearCompleted_display (App.dom s') = none).
Proof.
  split.
  - destruct (App_toggleTodo_todos i s) as (s1 & H1 & T1).
    destruct (App_toggleTodo_todos i s1) as (s2 & H2 & T2).
    exists s1, s2. split; [exact H1|]. split; [exact H2|].
    assert (E : App.todos s2 = App.todos s).
    { rewrite T2, T1, update_found_twice by (intros x Hx; exact Hx).
      apply update_found_id. intros [a b c d] _. simpl.
      unfold App.set_completed. simpl. now rewrite negb_involutive. }
    split; [|split; [exact E | now rewrite E]].
    rewrite T1. apply find_update_found. intros x Hx. exact Hx.
  - destruct (App_clearCompletedTodos_todos s) as (s' & H & T & _ & D).
    exists s'. split; [exact H|].
    assert (F : App.hasCompleted (App.todos s') = false).
    { rewrite T. unfold App.hasCompleted.
      exact (filter_some_false (fun t => App.completed t) (App.todos s)). }
    split; [exact F|]. now rewrite D, F.
Qed.

(** ** Priorities *)

Lemma Priority_cyclePriority_todos (i : jsstring) (p : PriorityApp.State) :
  exists p', PriorityApp.cyclePriority i p = Returns tt p'
    /\ PriorityApp.todos p'
       = update_found (PriorityApp.has_id i)
           (fun t => PriorityApp.set_priority
                       (cycle_order (PriorityApp.priority t)) t)
           (PriorityApp.todos p).
Proof.
  destruct (Array_find (PriorityApp.has_id i) (PriorityApp.todos p))
    as [t|] eqn:E.
  - destruct (Priority_cyclePriority_found i p t E) as (p' & H & T & _).
    exists p'. split; [exact H|]. rewrite T, next_priority_cycle.
    apply update_found_first with (t := t); [exact E | reflexivity].
  - exists p. split; [now apply Priority_cyclePriority_missing|].
    symmetry. now apply find_none_update.
Qed.

Lemma update_found_split {A} (f : A -> bool) (g : A -> A) (l : list A)
  (t : A) :
  Array_find f l = Some t ->
  exists l1 l2,
    l = l1 ++ t :: l2 /\ Array_find f l1 = None /\ f t = true
    /\ update_found f g l = l1 ++ g t :: l2.
Proof.
  unfold Array_find. induction l as [|x r IH]; simpl; [discriminate|].
  destruct (f x) eqn:E.
  - intros [= ->]. exists [], r. auto.
  - intros H. destruct (IH H) as (l1 & l2 & -> & N & Ft & U).
    exists (x :: l1), l2. simpl. rewrite E, U. auto.
Qed.

(** C9.  In the variant with priorities, [cyclePriority] returns, on any
    id.  When the collection has a record with the id, the first such
    record gets the priority one step along low, medium, high, low and
    keeps its id, title, flag and creation time, and every other record
    stays as it is, in place; three calls on the same id leave the
    collection, and so the priority of that record, as they were. *)
Theorem cyclePriority_steps_and_returns (i : jsstring) (p : PriorityApp.State) :
  exists p1 p2 p3,
    PriorityApp.cyclePriority i p = Returns tt p1
    /\ PriorityApp.cyclePriority i p1 = Returns tt p2
    /\ PriorityApp.cyclePriority i p2 = Returns tt p3
    /\ PriorityApp.todos p1
       = update_found (PriorityApp.has_id i)
           (fun t => PriorityApp.set_priority
                       (cycle_order (PriorityApp.priority t)) t)
           (PriorityApp.todos p)
    /\ Array_find (PriorityApp.has_id i) (PriorityApp.todos p1)
       = option_map
           (fun t => PriorityApp.set_priority
                       (cycle_order (PriorityApp.priority t)) t)
           (Array_find (PriorityApp.has_id i) (PriorityApp.todos p))
    /\ PriorityApp.todos p3 = PriorityApp.todos p
    /\ (forall t,
          Array_find (PriorityApp.has_id i) (PriorityApp.todos p) = Some t ->
          exists l1 l2 t1 t2,
            PriorityApp.todos p = l1 ++ t :: l2
            /\ Array_find (PriorityApp.has_id i) l1 = None
            /\ PriorityApp.todos p1 = l1 ++ t1 :: l2
            /\ PriorityApp.priority t1 = cycle_order (PriorityApp.priority t)
            /\ PriorityApp.id t1 = PriorityApp.id t
            /\ PriorityApp.title t1 = PriorityApp.title t
            /\ PriorityApp.completed t1 = PriorityApp.completed t
            /\ PriorityApp.createdAt t1 = PriorityApp.createdAt t
            /\ PriorityApp.todos p2 = l1 ++ t2 :: l2
            /\ PriorityApp.priority t2
               = cycle_order (cycle_order (PriorityApp.priority t))
            /\ Array_find (PriorityApp.has_id i) (PriorityApp.todos p3)
               = Some t
            /\ cycle_order (PriorityApp.priority t2)
               = PriorityApp.priority t).
Proof.
  destruct (Priority_cyclePriority_todos i p) as (p1 & H1 & T1).
  destruct (Priority_cyclePriority_todos i p1) as (p2 & H2 & T2).
  destruct (Priority_cyclePriority_todos i p2) as (p3 & H3 & T3).
  exists p1, p2, p3.
  assert (E3 : PriorityApp.todos p3 = PriorityApp.todos p).
  { rewrite T3, T2, T1.
    rewrite update_found_twice by (intros x Hx; exact Hx).
    rewrite update_found_twice by (intros x Hx; exact Hx).
    apply update_found_id. intros [a b c d pr] _.
    unfold PriorityApp.set_priority. simpl. now destruct pr. }
  split; [exact H1|]. split; [exact H2|]. split; [exact H3|].
  split; [exact T1|]. split.
  { rewrite T1. apply find_update_found. intros x Hx. exact Hx. }
  split; [exact E3|].
  intros t Ft.
  set (g := fun t => PriorityApp.set_priority
                       (cycle_order (PriorityApp.priority t)) t) in *.
  destruct (update_found_split (PriorityApp.has_id i) g _ t Ft)
    as (l1 & l2 & L & N & Fi & U).
  assert (F1 : Array_find (PriorityApp.has_id i) (l1 ++ g t :: l2)
               = Some (g t)).
  { unfold Array_find in *. clear - N Fi. induction l1 as [|x r IH]; simpl.
    - unfold g at 1. unfold PriorityApp.has_id in *. simpl. now rewrite Fi.
    - simpl in N. destruct (PriorityApp.has_id i x); [discriminate|].
      now apply IH. }
  exists l1, l2, (g t), (g (g t)).
  split; [exact L|]. split; [exact N|].
  split; [now rewrite T1|].
  split; [reflexivity|]. split; [reflexivity|]. split; [reflexivity|].
  split; [reflexivity|]. split; [reflexivity|].
  split.
  { rewrite T2, T1, U.
    destruct (update_found_split (PriorityApp.has_id i) g _ (g t) F1)
      as (m1 & m2 & M & N' & _ & U').
    rewrite U'. clear U'.
    assert (m1 = l1 /\ m2 = l2) as [-> ->]; [|reflexivity].
    clear - M N N' Fi. unfold Array_find in *.
    revert m1 M N'. induction l1 as [|x r IH]; intros m1 M N'.
    - destruct m1 as [|y m1]; simpl in *.
      + split; [reflexivity | congruence].
      + assert (y = g t) by congruence. subst y.
        unfold g at 1 in N'. unfold PriorityApp.has_id in *. simpl in N'.
        rewrite Fi in N'. discriminate.
    - simpl in N. destruct (PriorityApp.has_id i x) eqn:E; [discriminate|].
      destruct m1 as [|y m1]; simpl in *.
      + assert (x = g t) by congruence. subst x.
        unfold g in E. unfold PriorityApp.has_id in *. simpl in E.
        rewrite Fi in E. discriminate.
      + assert (x = y) by congruence. subst y. rewrite E in N'.
        assert (M' : r ++ g t :: l2 = m1 ++ g t :: m2) by congruence.
        destruct (IH N m1 M' N') as [-> ->]. auto. }
  split; [reflexivity|].
  split; [now rewrite E3|].
  unfold g. simpl. now destruct (PriorityApp.priority t).
Qed.

Lemma cyclePriority_steps_and_returns_witness :
  exists p1 p2 p3,
    PriorityApp.cyclePriority sample_id Priority_one_state = Returns tt p1
    /\ PriorityApp.cyclePriority sample_id p1 = Returns tt p2
    /\ PriorityApp.cyclePriority sample_id p2 = Returns tt p3
    /\ map PriorityApp.priority (PriorityApp.todos Priority_one_state)
       = [PriorityApp.medium]
    /\ map PriorityApp.priority (PriorityApp.todos p1) = [PriorityApp.high]
    /\ map PriorityApp.priority (PriorityApp.todos p2) = [PriorityApp.low]
    /\ map PriorityApp.priority (PriorityApp.todos p3)
       = [PriorityApp.medium].
Proof.
  destruct (cyclePriority_steps_and_returns sample_id Priority_one_state)
    as (p1 & p2 & p3 & H1 & H2 & H3 & T1 & _ & T3 & P).
  exists p1, p2, p3.
  split; [exact H1|]. split; [exact H2|]. split; [exact H3|].
  split; [reflexivity|].
  destruct (P (PriorityApp.mkTodo sample_id (js "buy milk") false
                 (new_Date sample_entropy) PriorityApp.medium) eq_refl)
    as (l1 & l2 & t1 & t2 & L & _ & L1 & P1 & _ & _ & _ & _ & L2 & P2 & _).
  destruct l1 as [|x l1]; [|destruct l1; discriminate L].
  injection L as <-. simpl in L1, L2.
  rewrite L1, L2, T3. simpl. rewrite P1, P2. auto.
Defined.

(** ** The count and the "clear completed" button *)

Lemma length_zero_iff_nil {A} (l : list A) :
  Nat.eqb (List.length l) 0 = false <-> l <> [].
Proof. destruct l; simpl; split; congruence. Qed.

(** What [updateTodoCount] computes is the length of the view under
    [active], and the constant [hasCompleted] of [updateEmptyState] is
    true exactly when the view under [completed] is not empty.  [render]
    returns without touching the collection, writes that count into the
    text of the count element it holds and shows the "clear completed"
    button exactly when the view under [completed] is not empty.  In
    [src/app.ts] the count element is out of the document by then, and its
    text is not what the page shows (see the count after an add,
    below). *)
Lemma count_and_hasCompleted_agree_with_view (s : App.State) :
  App.activeTodos (App.todos s) = List.length (App.view Filter_active s)
  /\ (App.hasCompleted (App.todos s) = true
      <-> App.view Filter_completed s <> [])
  /\ exists s',
      App.render s = Returns tt s'
      /\ App.todos s' = App.todos s
      /\ App.currentFilter s' = App.currentFilter s
      /\ App.todoCount_textContent (App.dom s')
         = Number_toString (List.length (App.view Filter_active s'))
      /\ (App.clearCompleted_display (App.dom s') = block
          <-> App.view Filter_completed s' <> []).
Proof.
  assert (HC : forall l, App.hasCompleted l = true
               <-> Array_filter (fun t => App.completed t) l <> []).
  { intros l. unfold App.hasCompleted. rewrite some_filter_nonempty.
    rewrite negb_true_iff. apply length_zero_iff_nil. }
  split; [reflexivity|]. split; [apply HC|].
  destruct (App_render_list s) as (s' & H & T & F & _ & _ & C & D).
  exists s'. split; [exact H|]. split; [exact T|]. split; [exact F|].
  unfold App.view, App.getFilteredTodos. cbn. rewrite T. split; [exact C|].
  rewrite D, <- HC.
  destruct (App.hasCompleted (App.todos s)); split; congruence.
Qed.

(** In [src/app.ts] the markup next to the count is written by the first
    [updateTodoCount] only: that call replaces the children of the parent
    of [todoCount], so later calls find no parent and leave the markup. *)
Lemma App_countSpan_written_once (s : App.State) :
  exists s1 s2,
    App.updateTodoCount s = Returns tt s1
    /\ App.todoCount_attached (App.dom s1) = false
    /\ App.updateTodoCount (App.set_todos [] s1) = Returns tt s2
    /\ App.countSpan_innerHTML (App.dom s2)
       = App.countSpan_innerHTML (App.dom s1).
Proof.
  unfold App.updateTodoCount, bind, gets, modify.
  do 2 eexists. repeat split.
Qed.
(** C10.  In [src/app.ts] the count the page shows is the markup next to
    the count element.  On the sample page with an empty slot the
    constructor writes "0 items left" there and, by that assignment, takes
    the count element out of the document.  Typing "buy milk" and pressing
    Enter then adds a record: the view under [active] has one record, the
    text of the detached count element says 1, and the markup shown still
    says 0. *)
Theorem displayed_count_stale_after_add :
  exists s0 s1,
    App.new_TodoApp None sample_page = Returns tt s0
    /\ App.countSpan_innerHTML (App.dom s0)
       = js "<strong>0</strong> items left"
    /\ App.todoCount_attached (App.dom s0) = false
    /\ App_run [Typed (js "buy milk"); KeyPressed (js "Enter") sample_entropy]
         s0
       = Returns tt s1
    /\ map App.title (App.view Filter_active s1) = [js "buy milk"]
    /\ List.length (App.view Filter_active s1) = 1
    /\ App.todoCount_textContent (App.dom s1) = js "1"
    /\ App.todoCount_attached (App.dom s1) = false
    /\ App.countSpan_innerHTML (App.dom s1)
       = js "<strong>0</strong> items left".
Proof.
  do 2 eexists. split; [vm_compute; reflexivity|].
  split; [reflexivity|]. split; [reflexivity|].
  split; [vm_compute; reflexivity|].
  repeat split.
Qed.


(** ** Committing an edit *)

Lemma App_one_returns : App_one = Returns tt App_one_state.
Proof. vm_compute. reflexivity. Qed.

(** C2.  The [finishEdit] of the variant with priorities has no branch
    for a blank title, which the [finishEdit] of [src/app.ts] has.  Start
    on an empty slot and add "buy milk": the record is in the collection
    and its element is in the list.  Committing an edit of it with the
    empty title returns, and the record is still in the collection and in
    the view under [all].  On the same input [src/app.ts] deletes the
    record. *)
Theorem finishEdit_blank_keeps_record :
  exists p p' t s s',
    Priority_one = Returns tt p
    /\ PriorityApp.todos p = [t]
    /\ PriorityApp.id t = sample_id
    /\ PriorityApp.title t = js "buy milk"
    /\ PriorityApp.querySelector_data_id sample_id p
       = Returns (Some (PriorityApp.item_of t)) p
    /\ trim [] = []
    /\ PriorityApp.finishEdit sample_id [] p = Returns tt p'
    /\ PriorityApp.todos p' = [t]
    /\ PriorityApp.view Filter_all p' = [t]
    /\ App_one = Returns tt s
    /\ map App.id (App.todos s) = [sample_id]
    /\ map App.title (App.todos s) = [js "buy milk"]
    /\ App.finishEdit sample_id [] s = Returns tt s'
    /\ App.todos s' = []
    /\ App.view Filter_all s' = [].
Proof.
  do 5 eexists. split; [vm_compute; reflexivity|].
  split; [reflexivity|]. split; [reflexivity|]. split; [reflexivity|].
  split; [reflexivity|]. split; [reflexivity|].
  split; [vm_compute; reflexivity|].
  split; [reflexivity|]. split; [reflexivity|].
  split; [vm_compute; reflexivity|].
  split; [reflexivity|]. split; [reflexivity|].
  split; [vm_compute; reflexivity|].
  split; reflexivity.
Qed.

(** ** Saving and loading *)

Section Persistence.
Import Json.

Lemma App_stringify_text (l : list App.Todo) :
  App.JSON_stringify l = json_text (JArr (map App_todo_json l)).
Proof.
  unfold App.JSON_stringify. cbn [json_text]. rewrite map_map.
  do 3 f_equal. apply map_ext. intros t.
  unfold App.stringify_todo, App_todo_json, App.bool_json.
  cbn [json_text map Array_join fst snd].
  rewrite <- !app_assoc. reflexivity.
Qed.

Lemma Priority_stringify_text (l : list PriorityApp.Todo) :
  PriorityApp.JSON_stringify l = json_text (JArr (map Priority_todo_json l)).
Proof.
  unfold PriorityApp.JSON_stringify. cbn [json_text]. rewrite map_map.
  do 3 f_equal. apply map_ext. intros t.
  unfold PriorityApp.stringify_todo, Priority_todo_json,
    PriorityApp.bool_json.
  cbn [json_text map Array_join fst snd].
  rewrite <- !app_assoc. reflexivity.
Qed.

Lemma App_todo_json_plain (l : list App.Todo) :
  plain (JArr (map App_todo_json l)).
Proof.
  constructor. apply Forall_forall. intros j Hj.
  apply in_map_iff in Hj as (t & <- & _).
  constructor. repeat constructor.
Qed.

Lemma Priority_todo_json_plain (l : list PriorityApp.Todo) :
  plain (JArr (map Priority_todo_json l)).
Proof.
  constructor. apply Forall_forall. intros j Hj.
  apply in_map_iff in Hj as (t & <- & _).
  constructor. repeat constructor.
Qed.

Lemma App_revive_todo_json (t : App.Todo) :
  JsDate.valid_time (App.createdAt t) ->
  App.revive (App_todo_json t) = App.Revived t.
Proof.
  intros V. unfold App.revive, App_todo_json.
  rewrite !str_eqb_refl. cbn [andb].
  rewrite (parse_iso_toISOString _ V). now destruct t.
Qed.

Lemma Priority_of_string_string (p : PriorityApp.Priority) :
  PriorityApp.Priority_of_string (PriorityApp.Priority_string p) = Some p.
Proof. destruct p; reflexivity. Qed.

Lemma Priority_revive_todo_json (t : PriorityApp.Todo) :
  JsDate.valid_time (PriorityApp.createdAt t) ->
  PriorityApp.revive (Priority_todo_json t) = PriorityApp.Revived t.
Proof.
  intros V. unfold PriorityApp.revive, Priority_todo_json.
  rewrite !str_eqb_refl. cbn [andb].
  rewrite (parse_iso_toISOString _ V), Priority_of_string_string.
  now destruct t.
Qed.

Lemma App_revive_all_todo_json (l : list App.Todo) :
  Forall (fun t => JsDate.valid_time (App.createdAt t)) l ->
  App.revive_all (map App_todo_json l) = Returns l tt.
Proof.
  induction 1 as [|t l V _ IH]; [reflexivity|].
  cbn [map App.revive_all]. now rewrite (App_revive_todo_json t V), IH.
Qed.

Lemma Priority_revive_all_todo_json (l : list PriorityApp.Todo) :
  Forall (fun t => JsDate.valid_time (PriorityApp.createdAt t)) l ->
  PriorityApp.revive_all (map Priority_todo_json l) = Returns l tt.
Proof.
  induction 1 as [|t l V _ IH]; [reflexivity|].
  cbn [map PriorityApp.revive_all].
  now rewrite (Priority_revive_todo_json t V), IH.
Qed.

(** Loading what [saveToStorage] wrote for a collection. *)
Lemma App_load_saved (l : list App.Todo) (s : App.State) :
  Forall (fun t => JsDate.valid_time (App.createdAt t)) l ->
  App.storage s = Some (App.JSON_stringify l) ->
  App.loadFromStorage s = Returns tt (App.set_todos l s).
Proof.
  intros V E. unfold App.loadFromStorage, bind, gets. rewrite E.
  change (truthy (App.JSON_stringify l)) with true. cbn iota.
  rewrite App_stringify_text, (JSON_parse_text _ (App_todo_json_plain l)).
  now rewrite (App_revive_all_todo_json l V).
Qed.

Lemma Priority_load_saved (l : list PriorityApp.Todo) (s : PriorityApp.State) :
  Forall (fun t => JsDate.valid_time (PriorityApp.createdAt t)) l ->
  PriorityApp.storage s = Some (PriorityApp.JSON_stringify l) ->
  PriorityApp.loadFromStorage s = Returns tt (PriorityApp.set_todos l s).
Proof.
  intros V E. unfold PriorityApp.loadFromStorage, bind, gets. rewrite E.
  change (truthy (PriorityApp.JSON_stringify l)) with true. cbn iota.
  rewrite Priority_stringify_text,
    (JSON_parse_text _ (Priority_todo_json_plain l)).
  now rewrite (Priority_revive_all_todo_json l V).
Qed.

End Persistence.

(** C7.  For every collection whose creation times are time values (all
    that [new Date()] gives), in either variant: [saveToStorage] returns
    with the serialised collection in the slot; [loadFromStorage] on that
    slot returns with a collection equal to the saved one, record by record
    and field by field (ids, titles, completed flags, creation times to the
    millisecond, and priorities where the variant has them); and so does a
    new [TodoApp] started on that slot.  The collection may be empty. *)
Theorem load_after_save_restores (s : App.State) (p : PriorityApp.State) :
  Forall (fun t => JsDate.valid_time (App.createdAt t)) (App.todos s) ->
  Forall (fun t => JsDate.valid_time (PriorityApp.createdAt t))
    (PriorityApp.todos p) ->
  (exists s1 s2,
      App.saveToStorage s = Returns tt s1
      /\ App.storage s1 = Some (App.JSON_stringify (App.todos s))
      /\ App.loadFromStorage s1 = Returns tt s2
      /\ App.todos s2 = App.todos s
      /\ forall page, exists s3,
           App.new_TodoApp (App.storage s1) page = Returns tt s3
           /\ App.todos s3 = App.todos s)
  /\ (exists p1 p2,
      PriorityApp.saveToStorage p = Returns tt p1
      /\ PriorityApp.storage p1
         = Some (PriorityApp.JSON_stringify (PriorityApp.todos p))
      /\ PriorityApp.loadFromStorage p1 = Returns tt p2
      /\ PriorityApp.todos p2 = PriorityApp.todos p
      /\ forall page, exists p3,
           PriorityApp.new_TodoApp (PriorityApp.storage p1) page
           = Returns tt p3
           /\ PriorityApp.todos p3 = PriorityApp.todos p).
Proof.
  intros Vs Vp. split.
  - exists (App.set_storage (Some (App.JSON_stringify (App.todos s))) s).
    eexists. split; [reflexivity|]. split; [reflexivity|].
    split; [apply (App_load_saved (App.todos s)); [exact Vs | reflexivity]|].
    split; [reflexivity|].
    intros page. unfold App.new_TodoApp, App.init, bind.
    rewrite (App_load_saved (App.todos s)) by (exact Vs || reflexivity).
    destruct (App_render_list
                (App.set_todos (App.todos s)
                   (App.mkState [] Filter_all
                      (Some (App.JSON_stringify (App.todos s))) page)))
      as (s3 & H & T & _).
    exists s3. split; [exact H | exact T].
  - exists (PriorityApp.set_storage
              (Some (PriorityApp.JSON_stringify (PriorityApp.todos p))) p).
    eexists. split; [reflexivity|]. split; [reflexivity|].
    split; [apply (Priority_load_saved (PriorityApp.todos p));
            [exact Vp | reflexivity]|].
    split; [reflexivity|].
    intros page. unfold PriorityApp.new_TodoApp, PriorityApp.init, bind.
    rewrite (Priority_load_saved (PriorityApp.todos p))
      by (exact Vp || reflexivity).
    destruct (Priority_render_list
                (PriorityApp.set_todos (PriorityApp.todos p)
                   (PriorityApp.mkState [] Filter_all
                      (Some (PriorityApp.JSON_stringify (PriorityApp.todos p)))
                      page)))
      as (p3 & H & T & _).
    exists p3. split; [exact H | exact T].
Qed.

Lemma Priority_one_returns : Priority_one = Returns tt Priority_one_state.
Proof. vm_compute. reflexivity. Qed.

Lemma load_after_save_restores_witness :
  (exists s1 s2,
      App.saveToStorage App_one_state = Returns tt s1
      /\ App.storage s1
         = Some (App.JSON_stringify (App.todos App_one_state))
      /\ App.loadFromStorage s1 = Returns tt s2
      /\ App.todos s2 = App.todos App_one_state
      /\ forall page, exists s3,
           App.new_TodoApp (App.storage s1) page = Returns tt s3
           /\ App.todos s3 = App.todos App_one_state)
  /\ (exists p1 p2,
      PriorityApp.saveToStorage Priority_one_state = Returns tt p1
      /\ PriorityApp.storage p1
         = Some (PriorityApp.JSON_stringify
                   (PriorityApp.todos Priority_one_state))
      /\ PriorityApp.loadFromStorage p1 = Returns tt p2
      /\ PriorityApp.todos p2 = PriorityApp.todos Priority_one_state
      /\ forall page, exists p3,
           PriorityApp.new_TodoApp (PriorityApp.storage p1) page
           = Returns tt p3
           /\ PriorityApp.todos p3 = PriorityApp.todos Priority_one_state).
Proof.
  apply (load_after_save_restores App_one_state Priority_one_state);
    repeat constructor; simpl; unfold JsDate.valid_time, JsDate.maxTime; lia.
Defined.

(** ** Loading a slot that is absent or is no JSON text *)

(** C3, as stated, fails on a slot that holds a text [JSON.parse] rejects:
    with the one character [{] in the slot, [loadFromStorage] does not
    return, the SyntaxError leaves it and leaves the constructor, in both
    variants. *)
Lemma load_malformed_throws :
  Json.JSON_parse (js "{") = None
  /\ App.loadFromStorage (App.mkState [] Filter_all (Some (js "{")) sample_page)
     = Throws SyntaxError
         (App.mkState [] Filter_all (Some (js "{")) sample_page)
  /\ App.new_TodoApp (Some (js "{")) sample_page
     = Throws SyntaxError
         (App.mkState [] Filter_all (Some (js "{")) sample_page)
  /\ PriorityApp.new_TodoApp (Some (js "{")) sample_priority_page
     = Throws SyntaxError
         (PriorityApp.mkState [] Filter_all (Some (js "{"))
            sample_priority_page).
Proof. repeat split; reflexivity. Qed.

(** A slot holding JSON that is no array, or an array with a null in it,
    makes [loadFromStorage] throw a TypeError. *)
Lemma load_not_an_array_throws :
  App.new_TodoApp (Some (js "{}")) sample_page
  = Throws TypeError (App.mkState [] Filter_all (Some (js "{}")) sample_page)
  /\ App.new_TodoApp (Some (js "[null]")) sample_page
     = Throws TypeError
         (App.mkState [] Filter_all (Some (js "[null]")) sample_page).
Proof. split; reflexivity. Qed.

(** C3, amended.  With the slot absent, or holding the empty string,
    [loadFromStorage] returns and leaves the state as it is, so a new
    [TodoApp] starts with the empty collection.  With the slot holding a
    text that is not empty and that [JSON.parse] rejects, [loadFromStorage]
    throws the SyntaxError and changes nothing, and nothing catches it: the
    constructor throws it too, before anything is rendered. *)
Theorem load_absent_returns_malformed_throws
  (text : jsstring) (s : App.State) (p : PriorityApp.State) :
  Json.JSON_parse text = None ->
  text <> [] ->
  App.loadFromStorage (App.set_storage None s)
  = Returns tt (App.set_storage None s)
  /\ App.loadFromStorage (App.set_storage (Some []) s)
     = Returns tt (App.set_storage (Some []) s)
  /\ App.loadFromStorage (App.set_storage (Some text) s)
     = Throws SyntaxError (App.set_storage (Some text) s)
  /\ (forall page, exists s',
        App.new_TodoApp None page = Returns tt s' /\ App.todos s' = [])
  /\ (forall page,
        App.new_TodoApp (Some text) page
        = Throws SyntaxError (App.mkState [] Filter_all (Some text) page))
  /\ PriorityApp.loadFromStorage (PriorityApp.set_storage None p)
     = Returns tt (PriorityApp.set_storage None p)
  /\ PriorityApp.loadFromStorage (PriorityApp.set_storage (Some []) p)
     = Returns tt (PriorityApp.set_storage (Some []) p)
  /\ PriorityApp.loadFromStorage (PriorityApp.set_storage (Some text) p)
     = Throws SyntaxError (PriorityApp.set_storage (Some text) p)
  /\ (forall page, exists p',
        PriorityApp.new_TodoApp None page = Returns tt p'
        /\ PriorityApp.todos p' = [])
  /\ (forall page,
        PriorityApp.new_TodoApp (Some text) page
        = Throws SyntaxError
            (PriorityApp.mkState [] Filter_all (Some text) page)).
Proof.
  intros Hparse Hne.
  assert (Ht : truthy text = true)
    by (destruct text; [now elim Hne | reflexivity]).
  split; [reflexivity|]. split; [reflexivity|]. split.
  { unfold App.loadFromStorage, bind, gets. simpl. now rewrite Ht, Hparse. }
  split.
  { intros page.
    destruct (App_render_list (App.mkState [] Filter_all None page))
      as (s' & H & T & _).
    exists s'. split; [exact H | exact T]. }
  split.
  { intros page. unfold App.new_TodoApp, App.init, App.loadFromStorage,
      bind, gets. simpl. now rewrite Ht, Hparse. }
  split; [reflexivity|]. split; [reflexivity|]. split.
  { unfold PriorityApp.loadFromStorage, bind, gets. simpl.
    now rewrite Ht, Hparse. }
  split.
  { intros page.
    destruct (Priority_render_list
                (PriorityApp.mkState [] Filter_all None page))
      as (p' & H & T & _).
    exists p'. split; [exact H | exact T]. }
  intros page. unfold PriorityApp.new_TodoApp, PriorityApp.init,
    PriorityApp.loadFromStorage, bind, gets. simpl. now rewrite Ht, Hparse.
Qed.

Lemma load_absent_returns_malformed_throws_witness :
  App.loadFromStorage (App.set_storage None App_fresh)
  = Returns tt (App.set_storage None App_fresh)
  /\ App.loadFromStorage (App.set_storage (Some []) App_fresh)
     = Returns tt (App.set_storage (Some []) App_fresh)
  /\ App.loadFromStorage (App.set_storage (Some (js "not json")) App_fresh)
     = Throws SyntaxError (App.set_storage (Some (js "not json")) App_fresh)
  /\ (forall page, exists s',
        App.new_TodoApp None page = Returns tt s' /\ App.todos s' = [])
  /\ (forall page,
        App.new_TodoApp (Some (js "not json")) page
        = Throws SyntaxError
            (App.mkState [] Filter_all (Some (js "not json")) page))
  /\ PriorityApp.loadFromStorage (PriorityApp.set_storage None Priority_fresh)
     = Returns tt (PriorityApp.set_storage None Priority_fresh)
  /\ PriorityApp.loadFromStorage
       (PriorityApp.set_storage (Some []) Priority_fresh)
     = Returns tt (PriorityApp.set_storage (Some []) Priority_fresh)
  /\ PriorityApp.loadFromStorage
       (PriorityApp.set_storage (Some (js "not json")) Priority_fresh)
     = Throws SyntaxError
         (PriorityApp.set_storage (Some (js "not json")) Priority_fresh)
  /\ (forall page, exists p',
        PriorityApp.new_TodoApp None page = Returns tt p'
        /\ PriorityApp.todos p' = [])
  /\ (forall page,
        PriorityApp.new_TodoApp (Some (js "not json")) page
        = Throws SyntaxError
            (PriorityApp.mkState [] Filter_all (Some (js "not json")) page)).
Proof.
  apply (load_absent_returns_malformed_throws (js "not json") App_fresh
           Priority_fresh); [reflexivity | discriminate].
Defined.

(** ** The scenarios of the specification, run on [src/app.ts] *)

(** Start empty, add "buy milk", toggle it, clear the completed ones. *)
Example scenario_add_toggle_clear :
  exists s1 s2 s3,
    App_one = Returns tt s1
    /\ map App.title (App.todos s1) = [js "buy milk"]
    /\ map App.completed (App.todos s1) = [false]
    /\ App.toggleTodo sample_id s1 = Returns tt s2
    /\ map App.completed (App.todos s2) = [true]
    /\ App.activeTodos (App.todos s2) = 0
    /\ App.hasCompleted (App.todos s2) = true
    /\ App.clearCompletedTodos s2 = Returns tt s3
    /\ App.todos s3 = [].
Proof.
  do 3 eexists. split; [vm_compute; reflexivity|].
  split; [reflexivity|]. split; [reflexivity|].
  split; [vm_compute; reflexivity|].
  split; [reflexivity|]. split; [reflexivity|]. split; [reflexivity|].
  split; [vm_compute; reflexivity | reflexivity].
Qed.

(** Add "a", then "b": the view under [all] shows "b" first. *)
Example scenario_newest_first :
  exists s,
    App_addTodos [(js "a", sample_entropy); (js "b", sample_entropy')] App_fresh
    = Returns tt s
    /\ map App.title (App.view Filter_all s) = [js "b"; js "a"].
Proof. eexists. split; [vm_compute; reflexivity | reflexivity]. Qed.
(** * More of the code: events, invariants and single methods *)

(** ** Plain markup *)

Lemma markup_plain_app (a b : jsstring) :
  markup_plain (a ++ b) = markup_plain a && markup_plain b.
Proof. apply forallb_app. Qed.

Lemma markup_plain_skipn (n : nat) (s : jsstring) :
  markup_plain s = true -> markup_plain (skipn n s) = true.
Proof.
  revert s. induction n as [|n IH]; intros [|c r]; simpl; auto.
  intros H. apply andb_true_iff in H as [_ H]. now apply IH.
Qed.

Lemma markup_plain_rev (s : jsstring) :
  markup_plain (rev s) = markup_plain s.
Proof.
  induction s as [|c r IH]; simpl; [reflexivity|].
  rewrite markup_plain_app, IH. simpl. rewrite andb_true_r. apply andb_comm.
Qed.

Lemma markup_plain_trimStart (s : jsstring) :
  markup_plain s = true -> markup_plain (trimStart s) = true.
Proof.
  induction s as [|c r IH]; simpl; [reflexivity|].
  intros H. destruct (is_white_space c); [|exact H].
  apply andb_true_iff in H as [_ H]. now apply IH.
Qed.

Lemma markup_plain_trim (s : jsstring) :
  markup_plain s = true -> markup_plain (trim s) = true.
Proof.
  intros H. unfold trim, trimEnd.
  rewrite markup_plain_rev. apply markup_plain_trimStart.
  rewrite markup_plain_rev. now apply markup_plain_trimStart.
Qed.

Lemma radix36_char_plain (d : Z) :
  (0 <= d < 36)%Z -> markup_char (radix36_char d) = true.
Proof.
  intros H. unfold markup_char, radix36_char.
  destruct (d <? 10)%Z eqn:E;
    [apply Z.ltb_lt in E | apply Z.ltb_ge in E];
    rewrite negb_true_iff, !orb_false_iff; repeat split;
    apply N.eqb_neq; lia.
Qed.

Lemma radix36_digits_plain (fuel : nat) (p : positive) (acc : jsstring) :
  markup_plain acc = true -> markup_plain (radix36_digits p fuel acc) = true.
Proof.
  revert p acc. induction fuel as [|f IH]; intros p acc H; simpl; [exact H|].
  assert (H' : markup_plain (radix36_char (Z.pos p mod 36) :: acc) = true).
  { simpl. rewrite H, andb_true_r. apply radix36_char_plain.
    apply Z.mod_pos_bound. lia. }
  destruct (Z.pos p / 36)%Z; [exact H' | now apply IH | exact H'].
Qed.

(** [Date.now().toString(36)] is digits, lower-case letters and, on a
    clock before 1970, a minus sign. *)
Lemma toString36_plain (n : Z) : markup_plain (toString36 n) = true.
Proof.
  destruct n as [|p|p]; simpl; [reflexivity| |];
    now apply radix36_digits_plain.
Qed.

Lemma App_generateId_plain (e : Entropy) :
  markup_plain (Math_random_36 e) = true ->
  markup_plain (App.generateId e) = true.
Proof.
  intros H. unfold App.generateId, substr.
  rewrite markup_plain_app, toString36_plain. now apply markup_plain_skipn.
Qed.

Lemma forallb_update_found {A} (q p : A -> bool) (g : A -> A) (l : list A) :
  (forall x, q x = true -> q (g x) = true) ->
  forallb q l = true -> forallb q (update_found p g l) = true.
Proof.
  intros Hg. induction l as [|x r IH]; simpl; [auto|].
  intros H. apply andb_true_iff in H as [Hx Hr].
  destruct (p x); simpl.
  - now rewrite (Hg x Hx).
  - now rewrite Hx, IH.
Qed.

Lemma forallb_filter {A} (q p : A -> bool) (l : list A) :
  forallb q l = true -> forallb q (filter p l) = true.
Proof.
  induction l as [|x r IH]; simpl; [auto|].
  intros H. apply andb_true_iff in H as [Hx Hr].
  destruct (p x); simpl; [now rewrite Hx, IH | now apply IH].
Qed.

Lemma forallb_map_ext {A B} (q : B -> bool) (q' : A -> bool) (f : A -> B)
  (l : list A) :
  (forall x, q (f x) = q' x) -> forallb q (map f l) = forallb q' l.
Proof.
  intros H. induction l as [|x r IH]; simpl; [reflexivity|].
  now rewrite H, IH.
Qed.

(** ** [src/app.ts]: one event *)

Lemma App_render_closed (s : App.State) :
  App.render s = Returns tt (App.set_dom (App_rendered s) s).
Proof.
  unfold App.render, App.renderTodos, App.updateTodoCount,
    App.updateFilterButtons, App.updateEmptyState, bind, gets, modify.
  reflexivity.
Qed.

Lemma set_editing_forget (p : App.Item -> bool) (b : bool)
  (l : list App.Item) :
  map (App.set_editing false) (update_found p (App.set_editing b) l)
  = map (App.set_editing false) l.
Proof.
  induction l as [|x r IH]; simpl; [reflexivity|].
  destruct (p x); simpl; [reflexivity | now rewrite IH].
Qed.

Lemma App_dom_quiet_refl (d : App.Dom) : App_dom_quiet d d.
Proof. unfold App_dom_quiet. auto 10. Qed.

Lemma App_step_quiet_same (ev : App_event) (s : App.State) : App_step ev s s.
Proof.
  split; [now left|]. left. auto using App_dom_quiet_refl.
Qed.

Lemma App_set_item_class_quiet (i : jsstring) (b : bool) (s : App.State) :
  exists s', App.set_item_class i b s = Returns tt s'
    /\ App.todos s' = App.todos s
    /\ App.currentFilter s' = App.currentFilter s
    /\ App.storage s' = App.storage s
    /\ App.todoInput_value (App.dom s') = App.todoInput_value (App.dom s)
    /\ App_dom_quiet (App.dom s) (App.dom s').
Proof.
  unfold App.set_item_class, modify. eexists. split; [reflexivity|].
  cbn. repeat split. apply set_editing_forget.
Qed.

(** What [querySelector] answers on a list of well-formed elements and an
    id whose selector the model reads. *)
Lemma App_query_cases (i : jsstring) (s : App.State) :
  forallb App.item_wellformed (App.todoList (App.dom s)) = true ->
  data_id_selector i <> OtherSelector ->
  (data_id_selector i = InvalidSelector
   /\ App.querySelector_data_id i s = Throws DOMSyntaxError s)
  \/ (data_id_selector i = ByDataId
      /\ App.querySelector_data_id i s
         = Returns
             (Array_find (fun it => str_eqb (App.data_id it) i)
                (App.todoList (App.dom s))) s).
Proof.
  intros W S. unfold App.querySelector_data_id. rewrite W.
  destruct (data_id_selector i); [right | left | congruence]; auto.
Qed.

(** A method that changes the collection, saves and renders. *)
Lemma App_mutation_step (ev : App_event) (s s0 : App.State)
  (l : list App.Todo) :
  App.todos s0 = App.todos s -> App.currentFilter s0 = App.currentFilter s ->
  App.todoCount_attached (App.dom s0) = App.todoCount_attached (App.dom s) ->
  App.countSpan_innerHTML (App.dom s0) = App.countSpan_innerHTML (App.dom s) ->
  App.todoInput_value (App.dom s0) = App.todoInput_value (App.dom s) ->
  App_change ev (App.todoInput_value (App.dom s)) (App.todos s) l ->
  exists s',
    bind (modify (App.set_todos l))
      (fun _ => bind App.saveToStorage (fun _ => App.render)) s0
    = Returns tt s'
    /\ App_step ev s s'.
Proof.
  intros T F A C V H.
  unfold App.saveToStorage. unfold bind, modify, gets. cbn beta iota.
  rewrite App_render_closed. eexists. split; [reflexivity|].
  split; [left; cbn; exact V|].
  right. eexists. split; [reflexivity|]. cbn. rewrite A, C, F.
  repeat split. left. repeat split. exact H.
Qed.

Lemma App_deleteTodo_step (ev : App_event) (i : jsstring)
  (s s0 : App.State) :
  App.todos s0 = App.todos s -> App.currentFilter s0 = App.currentFilter s ->
  App.todoCount_attached (App.dom s0) = App.todoCount_attached (App.dom s) ->
  App.countSpan_innerHTML (App.dom s0) = App.countSpan_innerHTML (App.dom s) ->
  App.todoInput_value (App.dom s0) = App.todoInput_value (App.dom s) ->
  exists s', App.deleteTodo i s0 = Returns tt s' /\ App_step ev s s'.
Proof.
  intros T F A C V.
  assert (Ch : App_change ev (App.todoInput_value (App.dom s)) (App.todos s)
                 (Array_filter (fun t => negb (App.has_id i t)) (App.todos s)))
    by apply App_change_remove.
  destruct (App_mutation_step ev s s0 _ T F A C V Ch) as (s' & H & St).
  exists s'. split; [|exact St]. rewrite <- H.
  unfold App.deleteTodo, bind, modify. cbn beta iota.
  unfold App.set_todos. now rewrite T.
Qed.

Lemma App_editTodo_step (i v : jsstring) (s s0 : App.State) :
  App.todos s0 = App.todos s -> App.currentFilter s0 = App.currentFilter s ->
  App.storage s0 = App.storage s ->
  App.todoInput_value (App.dom s0) = App.todoInput_value (App.dom s) ->
  App_dom_quiet (App.dom s) (App.dom s0) ->
  exists s', App.editTodo i v s0 = Returns tt s'
             /\ App_step (EditBlurred i v) s s'.
Proof.
  intros T F St V Q.
  assert (Q' := Q). destruct Q' as (_ & _ & _ & A & C & _).
  assert (Q0 : App_step (EditBlurred i v) s s0)
    by (split; [now left | left; auto]).
  unfold App.editTodo, bind at 1, gets at 1. cbn beta iota.
  destruct (Array_find (App.has_id i) (App.todos s0)) as [t|];
    [|exists s0; split; [reflexivity | exact Q0]].
  destruct (trim v) as [|c r] eqn:E;
    [exists s0; split; [reflexivity | exact Q0]|].
  cbn [truthy]. rewrite T, <- E.
  apply App_mutation_step; auto.
  eapply App_change_title; [reflexivity|]. rewrite E. discriminate.
Qed.

(** Every event, on a list of well-formed elements and with an id whose
    selector the model reads, returns or throws, and does one step. *)
Lemma App_handle_step (ev : App_event) (s : App.State) :
  forallb App.item_wellformed (App.todoList (App.dom s)) = true ->
  App_event_plain ev ->
  exists s', ends_in (App_handle ev s) s' /\ App_step ev s s'.
Proof.
  intros W P.
  assert (Same : exists s', ends_in (Returns tt s) s' /\ App_step ev s s')
    by (exists s; split; [now left | apply App_step_quiet_same]).
  assert (Thrown : exists s',
             ends_in (Throws DOMSyntaxError s) s' /\ App_step ev s s')
    by (exists s; split; [right; now exists DOMSyntaxError
                         | apply App_step_quiet_same]).
  destruct ev as [v|key e|i|i|i|i v|i|f|]; cbn [App_handle].
  - unfold App.set_todoInput_value, modify. eexists.
    split; [left; reflexivity|].
    split; [right; right; reflexivity|].
    left. cbn. unfold App_dom_quiet. cbn. auto 12.
  - unfold App.on_keypress, bind at 1, gets at 1. cbn beta iota.
    destruct (str_eqb key (js "Enter")
              && truthy (trim (App.todoInput_value (App.dom s)))) eqn:E;
      [|exact Same].
    apply andb_true_iff in E as [_ E].
    assert (Hne : trim (App.todoInput_value (App.dom s)) <> [])
      by (intros Z; rewrite Z in E; discriminate).
    assert (Ch : App_change (KeyPressed key e)
                   (App.todoInput_value (App.dom s)) (App.todos s)
                   (App.mkTodo (App.generateId e)
                      (trim (App.todoInput_value (App.dom s))) false
                      (new_Date e) :: App.todos s))
      by (eapply App_change_add; [reflexivity | exact Hne]).
    unfold App.addTodo, App.saveToStorage, App.set_todoInput_value.
    unfold bind, modify, gets. cbn beta iota.
    rewrite App_render_closed. eexists. split; [left; reflexivity|].
    split; [right; left; reflexivity|].
    right.
    exists (App.mkState
              (App.mkTodo (App.generateId e)
                 (trim (App.todoInput_value (App.dom s))) false
                 (new_Date e) :: App.todos s)
              (App.currentFilter s)
              (Some (App.JSON_stringify
                       (App.mkTodo (App.generateId e)
                          (trim (App.todoInput_value (App.dom s))) false
                          (new_Date e) :: App.todos s)))
              (App.mkDom [] (App.todoList (App.dom s))
                 (App.filter_selected (App.dom s))
                 (App.todoCount_textContent (App.dom s))
                 (App.todoCount_attached (App.dom s))
                 (App.countSpan_innerHTML (App.dom s))
                 (App.emptyState_display (App.dom s))
                 (App.footer_display (App.dom s))
                 (App.mainSection_display (App.dom s))
                 (App.clearCompleted_display (App.dom s)))).
    split; [reflexivity|]. cbn. repeat split. left. repeat split. exact Ch.
  - unfold App.toggleTodoPublic, App.toggleTodo, bind at 1, gets at 1.
    cbn beta iota.
    destruct (Array_find (App.has_id i) (App.todos s)) as [t|];
      [|exact Same].
    destruct (App_mutation_step (ToggleChanged i) s s
                (update_found (App.has_id i)
                   (App.set_completed (negb (App.completed t)))
                   (App.todos s)))
      as (s' & H & St); auto; [apply App_change_flag|].
    exists s'. split; [left; exact H | exact St].
  - unfold App.deleteTodoPublic.
    destruct (App_deleteTodo_step (DestroyClicked i) i s s) as (s' & H & St);
      auto.
    exists s'. split; [left; exact H | exact St].
  - cbn in P. unfold App.startEdit, bind.
    destruct (App_query_cases i s W P) as [[_ Q]|[_ Q]]; rewrite Q;
      [exact Thrown|].
    destruct (Array_find _ _); [|exact Same].
    destruct (App_set_item_class_quiet i true s) as (s' & H & T & F & S & V & Q').
    exists s'. split; [left; exact H|].
    split; [left; exact V | left; auto].
  - cbn in P. destruct P as [P _]. unfold App.finishEdit, bind at 1.
    destruct (App_query_cases i s W P) as [[_ Q]|[_ Q]]; rewrite Q;
      [exact Thrown|].
    destruct (Array_find _ _); [|exact Same].
    destruct (App_set_item_class_quiet i false s)
      as (s0 & H & T & F & St & V & Q').
    unfold bind. rewrite H.
    destruct (truthy (trim v)).
    + destruct (App_editTodo_step i v s s0) as (s' & H' & S'); auto.
      exists s'. split; [left; exact H' | exact S'].
    + destruct Q' as (_ & _ & _ & A & C & _).
      destruct (App_deleteTodo_step (EditBlurred i v) i s s0)
        as (s' & H' & S'); auto.
      exists s'. split; [left; exact H' | exact S'].
  - cbn in P. unfold App.cancelEdit, bind.
    destruct (App_query_cases i s W P) as [[_ Q]|[_ Q]]; rewrite Q;
      [exact Thrown|].
    destruct (Array_find _ _); [|exact Same].
    destruct (App_set_item_class_quiet i false s)
      as (s' & H & T & F & S & V & Q').
    exists s'. split; [left; exact H|].
    split; [left; exact V | left; auto].
  - unfold App.on_filter_click, App.setFilter, App.updateFilterButtons.
    unfold bind, modify. cbn beta iota.
    rewrite App_render_closed. eexists. split; [left; reflexivity|].
    split; [left; reflexivity|].
    right. eexists. split; [reflexivity|]. cbn. auto.
  - unfold App.on_clear_click, App.clearCompletedTodos.
    change (bind (modify (fun s0 => App.set_todos (Array_filter ?p (App.todos s0)) s0))
              ?k s)
      with (bind (modify (App.set_todos (Array_filter p (App.todos s)))) k s).
    destruct (App_mutation_step ClearClicked s s
                (Array_filter (fun t => negb (App.completed t))
                   (App.todos s)))
      as (s' & H & St); auto; [apply App_change_remove|].
    exists s'. split; [left; exact H | exact St].
Qed.

Lemma App_change_plain (ev : App_event) (input : jsstring)
  (l l' : list App.Todo) :
  App_change ev input l l' -> App_event_plain ev ->
  markup_plain input = true ->
  forallb App_todo_plain l = true -> forallb App_todo_plain l' = true.
Proof.
  intros [key e -> Hne|i b|i v -> Hne|p] P V L.
  - cbn in P. cbn [forallb]. rewrite L, andb_true_r.
    unfold App_todo_plain. cbn [App.id App.title].
    now rewrite (App_generateId_plain e P), (markup_plain_trim input V).
  - apply forallb_update_found; [|exact L].
    intros [a b' c d] H. exact H.
  - cbn in P. destruct P as [_ P].
    apply forallb_update_found; [|exact L].
    intros [a b' c d]. unfold App_todo_plain, App.set_title.
    cbn [App.id App.title]. intros H.
    apply andb_true_iff in H as [H _].
    now rewrite H, (markup_plain_trim v P).
  - now apply forallb_filter.
Qed.

Lemma App_rendered_wellformed (x : App.State) :
  forallb App_todo_plain (App.todos x) = true ->
  forallb App.item_wellformed
    (App.todoList (App_rendered x)) = true.
Proof.
  intros L. cbn.
  rewrite (forallb_map_ext App.item_wellformed App_todo_plain)
    by reflexivity.
  unfold App.getFilteredTodos.
  destruct (App.currentFilter x); [exact L| |]; now apply forallb_filter.
Qed.

Lemma item_wellformed_forget (l l' : list App.Item) :
  map (App.set_editing false) l' = map (App.set_editing false) l ->
  forallb App.item_wellformed l = true ->
  forallb App.item_wellformed l' = true.
Proof.
  intros E H.
  rewrite <- (forallb_map_ext App.item_wellformed App.item_wellformed
                (App.set_editing false)) by reflexivity.
  rewrite E.
  now rewrite (forallb_map_ext App.item_wellformed App.item_wellformed)
    by reflexivity.
Qed.

(** A step keeps the markup plain. *)
Lemma App_step_plain (ev : App_event) (s s' : App.State) :
  App_step ev s s' -> App_event_plain ev ->
  App_markup_plain s -> App_markup_plain s'.
Proof.
  intros [V St] P [[L I] W].
  assert (I' : markup_plain (App.todoInput_value (App.dom s')) = true).
  { destruct V as [->|[->| ->]]; [exact I | reflexivity | exact P]. }
  destruct St as [(T & _ & _ & Q)|(x & -> & _ & _ & Ch)].
  - split; [split; [now rewrite T | exact I']|].
    destruct Q as (Q & _). now apply (item_wellformed_forget _ _ Q).
  - assert (Lx : forallb App_todo_plain (App.todos x) = true).
    { destruct Ch as [(_ & _ & Ch)|(T & _)]; [|now rewrite T].
      exact (App_change_plain _ _ _ _ Ch P I L). }
    split; [split; [exact Lx | exact I']|].
    now apply App_rendered_wellformed.
Qed.
(** ** [src/app.ts]: invariants of event sequences *)

Lemma App_run_step (ev : App_event) (r : list App_event)
  (s s1 : App.State) :
  ends_in (App_handle ev s) s1 -> App_run (ev :: r) s = App_run r s1.
Proof.
  intros [H|[e H]]; cbn [App_run]; now rewrite H.
Qed.

(** A property kept by every step is kept by every sequence of events
    that bring in plain markup only, on a state of plain markup; and every
    such sequence runs to its end. *)
Lemma App_run_invariant (P : App_event -> Prop) (I : App.State -> Prop) :
  (forall ev s s', P ev -> App_event_plain ev -> App_markup_plain s' ->
                   App_step ev s s' -> I s -> I s') ->
  forall evs s, Forall P evs -> Forall App_event_plain evs ->
  App_markup_plain s -> I s ->
  exists s', App_run evs s = Returns tt s' /\ I s' /\ App_markup_plain s'.
Proof.
  intros Hstep evs. induction evs as [|ev r IH]; intros s HP HE HM HI.
  - exists s. auto.
  - inversion HP as [|? ? Pev Pr]; subst.
    inversion HE as [|? ? Eev Er]; subst.
    destruct (App_handle_step ev s (proj2 HM) Eev) as (s1 & H1 & S1).
    pose proof (App_step_plain ev s s1 S1 Eev HM) as M1.
    destruct (IH s1 Pr Er M1 (Hstep ev s s1 Pev Eev M1 S1 HI))
      as (s' & H' & I' & M').
    exists s'. split; [|auto]. now rewrite (App_run_step ev r s s1 H1).
Qed.

Lemma Forall_True {A} (l : list A) : Forall (fun _ => True) l.
Proof. induction l; constructor; auto. Qed.

Lemma App_render_plain (x : App.State) :
  App_records_plain x -> App_markup_plain (App.set_dom (App_rendered x) x).
Proof.
  intros [L I]. split; [split; [exact L | exact I]|].
  now apply App_rendered_wellformed.
Qed.

Lemma App_rendered_in_step (x : App.State) :
  forallb App_todo_plain (App.todos x) = true ->
  App_document_in_step (App.set_dom (App_rendered x) x).
Proof.
  intros L. unfold App_document_in_step.
  split; [now apply App_rendered_wellformed|]. cbn.
  split. { rewrite map_map. apply map_ext. reflexivity. }
  split. { rewrite map_map. apply map_ext. reflexivity. }
  split. { rewrite map_map. apply map_ext. reflexivity. }
  split; [reflexivity|].
  assert (E : forall l : list App.Todo,
            Nat.eqb (List.length l) 0 = true <-> l = []).
  { intros [|? ?]; simpl; split; congruence. }
  split.
  { unfold App.view, App.getFilteredTodos. cbn.
    unfold App.hasCompleted. rewrite some_filter_nonempty.
    unfold Array_filter.
    destruct (filter (fun t => App.completed t) (App.todos x));
      simpl; intuition congruence. }
  specialize (E (App.todos x)).
  destruct (Nat.eqb (List.length (App.todos x)) 0); intuition congruence.
Qed.

Lemma App_quiet_map {B} (f : App.Item -> B) (l l' : list App.Item) :
  (forall it, f (App.set_editing false it) = f it) ->
  map (App.set_editing false) l' = map (App.set_editing false) l ->
  map f l' = map f l.
Proof.
  intros Hf E.
  transitivity (map f (map (App.set_editing false) l')).
  { rewrite map_map. apply map_ext. intros it. symmetry. apply Hf. }
  rewrite E, map_map. apply map_ext, Hf.
Qed.

Lemma App_step_in_step (ev : App_event) (s s' : App.State) :
  App_step ev s s' -> App_markup_plain s' ->
  App_document_in_step s -> App_document_in_step s'.
Proof.
  intros [_ [(T & F & _ & Q)|(x & -> & _)]] [[L _] W] I;
    [|now apply App_rendered_in_step].
  destruct Q as (Q1 & Q2 & Q3 & _ & _ & Q6 & Q7 & Q8 & Q9).
  destruct I as (_ & I1 & I2 & I3 & I).
  unfold App_document_in_step, App.view, App.getFilteredTodos in *.
  cbn in *.
  rewrite (App_quiet_map App.data_id _ _ (fun _ => eq_refl) Q1),
    (App_quiet_map App.item_title _ _ (fun _ => eq_refl) Q1),
    (App_quiet_map App.item_completed _ _ (fun _ => eq_refl) Q1).
  rewrite Q2, Q6, Q7, Q8, Q9, T, F. auto.
Qed.

(** X1.  In [src/app.ts], once [render] has run (the constructor ends
    with it) on records and an input box with plain markup, every sequence
    of events runs to its end, when what is typed is plain markup and the
    ids of the edit events make selectors that select by [data-id] or are
    no selectors (the handler then throws, and the page goes on).  After
    it the document agrees with the state: the list elements are those of
    the records of the current view, with their ids, titles and flags, the
    selected filter button is the current filter, the "clear completed"
    button shows exactly when a record is completed, and the empty state
    shows (footer and main section hidden) exactly when the collection is
    empty. *)
Theorem App_events_keep_document_in_step
  (x : App.State) (evs : list App_event) :
  App_records_plain x ->
  Forall App_event_plain evs ->
  exists s0 s,
    App.render x = Returns tt s0
    /\ App_document_in_step s0
    /\ App_run evs s0 = Returns tt s
    /\ App_document_in_step s.
Proof.
  intros X E. rewrite App_render_closed.
  destruct (App_run_invariant (fun _ => True) App_document_in_step)
    with (evs := evs) (s := App.set_dom (App_rendered x) x)
    as (s & H & I & _).
  - intros ev s s' _ _ M St. now apply (App_step_in_step ev).
  - apply Forall_True.
  - exact E.
  - now apply App_render_plain.
  - apply App_rendered_in_step, X.
  - do 2 eexists. split; [reflexivity|].
    split; [apply App_rendered_in_step, X|]. split; [exact H | exact I].
Qed.

Lemma App_events_keep_document_in_step_witness :
  exists s0 s,
    App.render App_one_state = Returns tt s0
    /\ App_document_in_step s0
    /\ App_run sample_events s0 = Returns tt s
    /\ App_document_in_step s.
Proof.
  apply (App_events_keep_document_in_step App_one_state sample_events).
  - split; reflexivity.
  - repeat constructor; try reflexivity; vm_compute; discriminate.
Defined.

(** ** Trimming *)

Lemma trimStart_stop (c : N) (r : jsstring) :
  is_white_space c = false -> trimStart (c :: r) = c :: r.
Proof. intros H. simpl. now rewrite H. Qed.

Lemma trimStart_head (s : jsstring) :
  trimStart s = []
  \/ exists c r, trimStart s = c :: r /\ is_white_space c = false.
Proof.
  induction s as [|c r IH]; simpl; [now left|].
  destruct (is_white_space c) eqn:E; [exact IH|].
  right. exists c, r. auto.
Qed.

(** Before a character that is no white space, [trimStart] stops at the
    latest at that character. *)
Lemma trimStart_snoc (x : jsstring) (c : N) :
  is_white_space c = false ->
  exists y, trimStart (x ++ [c]) = y ++ [c]
            /\ trimStart (y ++ [c]) = y ++ [c].
Proof.
  intros Hc. induction x as [|a x IH]; simpl.
  - exists []. simpl. now rewrite Hc.
  - destruct (is_white_space a) eqn:E; [exact IH|].
    exists (a :: x). simpl. now rewrite E.
Qed.

(** [trim] leaves nothing to trim. *)
Lemma trim_idempotent (s : jsstring) : trim (trim s) = trim s.
Proof.
  unfold trim, trimEnd.
  destruct (trimStart_head s) as [E|(c & r & E & Hc)]; rewrite E.
  - reflexivity.
  - change (rev (c :: r)) with (rev r ++ [c]).
    destruct (trimStart_snoc (rev r) c Hc) as (y & Y1 & Y2).
    rewrite Y1, rev_app_distr. cbn [rev app].
    rewrite (trimStart_stop c (rev y) Hc).
    change (rev (c :: rev y)) with (rev (rev y) ++ [c]).
    rewrite rev_involutive, Y2, rev_app_distr. reflexivity.
Qed.

(** [trimStart] leaves a final part of the string. *)
Lemma trimStart_suffix (s : jsstring) : exists p, s = p ++ trimStart s.
Proof.
  induction s as [|c r [p IH]]; simpl; [now exists []|].
  destruct (is_white_space c); [|now exists []].
  exists (c :: p). simpl. now rewrite <- IH.
Qed.

Lemma last_app_nonempty {A} (p x : list A) (d : A) :
  x <> [] -> last (p ++ x) d = last x d.
Proof.
  intros H. induction p as [|a p IH]; simpl; [reflexivity|].
  destruct (p ++ x) eqn:E; [|exact IH].
  apply app_eq_nil in E as [_ E]. contradiction.
Qed.

Lemma hd_rev_last {A} (x : list A) (d : A) : hd d (rev x) = last x d.
Proof.
  induction x as [|a x IH]; simpl; [reflexivity|].
  destruct x as [|b x]; [reflexivity|].
  rewrite <- IH. simpl. destruct (rev x ++ [b]) eqn:E; [|reflexivity].
  apply app_eq_nil in E as [_ E]. discriminate.
Qed.

Lemma last_rev_hd {A} (x : list A) (d : A) : last (rev x) d = hd d x.
Proof. rewrite <- (rev_involutive x) at 2. symmetry. apply hd_rev_last. Qed.

(** What [trim] gives starts and ends with a character that is no white
    space, when it is not empty. *)
Lemma trim_trimmed (s : jsstring) : trim s <> [] -> trimmed (trim s).
Proof.
  intros H. split; [exact H|].
  split; [|split; [|apply trim_idempotent]]; unfold trim, trimEnd in *.
  - rewrite hd_rev_last.
    destruct (trimStart_suffix (rev (trimStart s))) as [p E].
    assert (N : trimStart (rev (trimStart s)) <> [])
      by (intros Z; rewrite Z in H; now apply H).
    rewrite <- (last_app_nonempty p _ 0%N N), <- E, last_rev_hd.
    destruct (trimStart_head s) as [Z|(c & r & Z & Hc)]; rewrite Z in *.
    + now contradiction N.
    + exact Hc.
  - rewrite last_rev_hd.
    destruct (trimStart_head (rev (trimStart s))) as [Z|(c & r & Z & Hc)];
      rewrite Z in *; [now contradiction H | exact Hc].
Qed.

(** ** [src/app.ts]: more invariants *)

(** The count the page shows, after any events.  In [src/app.ts] the
    markup next to the count is written once: by the first [render] (that
    of the constructor), if the count element is in the page.  That
    assignment takes the count element out of the document, and after any
    sequence of events that runs to its end the markup is still the one the
    first [render] left, with the number of active records there were
    then, whatever the number is by now. *)
Lemma App_count_markup_written_once
  (x : App.State) (evs : list App_event) :
  App_records_plain x ->
  Forall App_event_plain evs ->
  exists s0 s,
    App.render x = Returns tt s0
    /\ App_run evs s0 = Returns tt s
    /\ App.todoCount_attached (App.dom s) = false
    /\ App.countSpan_innerHTML (App.dom s)
       = App.countSpan_innerHTML (App.dom s0)
    /\ App.countSpan_innerHTML (App.dom s0)
       = if App.todoCount_attached (App.dom x)
         then js "<strong>"
              ++ Number_toString (App.activeTodos (App.todos x))
              ++ js "</strong> "
              ++ (if Nat.eqb (App.activeTodos (App.todos x)) 1
                  then js "item left" else js "items left")
         else App.countSpan_innerHTML (App.dom x).
Proof.
  intros X E. rewrite App_render_closed.
  destruct (App_run_invariant (fun _ => True)
              (fun s => App.todoCount_attached (App.dom s) = false
                        /\ App.countSpan_innerHTML (App.dom s)
                           = App.countSpan_innerHTML
                               (App.dom (App.set_dom (App_rendered x) x)))
              ) with (evs := evs) (s := App.set_dom (App_rendered x) x)
    as (s & Hs & (A & C) & _).
  - intros ev s s' _ _ _ [_ [(_ & _ & _ & Q)|(y & -> & A & C & _)]] (IA & IC).
    + destruct Q as (_ & _ & _ & QA & QC & _). now rewrite QA, QC.
    + cbn. rewrite A, IA, C. auto.
  - apply Forall_True.
  - exact E.
  - now apply App_render_plain.
  - auto.
  - do 2 eexists. split; [reflexivity|]. split; [exact Hs|].
    split; [exact A|]. split; [exact C | reflexivity].
Qed.

Lemma App_count_markup_written_once_witness :
  exists s0 s,
    App.render (App.set_dom sample_page App_one_state) = Returns tt s0
    /\ App_run sample_events s0 = Returns tt s
    /\ App.todoCount_attached (App.dom s) = false
    /\ App.countSpan_innerHTML (App.dom s)
       = App.countSpan_innerHTML (App.dom s0)
    /\ App.countSpan_innerHTML (App.dom s0)
       = if App.todoCount_attached
              (App.dom (App.set_dom sample_page App_one_state))
         then js "<strong>"
              ++ Number_toString
                   (App.activeTodos
                      (App.todos (App.set_dom sample_page App_one_state)))
              ++ js "</strong> "
              ++ (if Nat.eqb
                       (App.activeTodos
                          (App.todos
                             (App.set_dom sample_page App_one_state))) 1
                  then js "item left" else js "items left")
         else App.countSpan_innerHTML
                (App.dom (App.set_dom sample_page App_one_state)).
Proof.
  apply (App_count_markup_written_once
           (App.set_dom sample_page App_one_state) sample_events).
  - split; reflexivity.
  - repeat constructor; try reflexivity; vm_compute; discriminate.
Defined.

(** ** [src/app.ts]: nothing is lost on reload *)

Lemma parse_iso_valid (s : jsstring) (t : JsDate.time) :
  JsDate.parse_iso s = Some t -> JsDate.valid_time t.
Proof.
  unfold JsDate.parse_iso, JsDate.obind. intros H.
  repeat match type of H with
  | context [match ?x with _ => _ end] => destruct x eqn:?; try discriminate
  end.
  injection H as <-.
  match goal with
  | V : JsDate.valid_timeb _ = true |- _ =>
      unfold JsDate.valid_timeb in V; apply andb_true_iff in V as [A B];
      apply Z.leb_le in A, B; split; assumption
  end.
Qed.

Lemma App_revive_valid (j : Json.json) (t : App.Todo) :
  App.revive j = App.Revived t -> JsDate.valid_time (App.createdAt t).
Proof.
  unfold App.revive. intros H.
  repeat match type of H with
  | context [match ?x with _ => _ end] => destruct x eqn:?; try discriminate
  end.
  injection H as <-. cbn. eapply parse_iso_valid. eassumption.
Qed.

Lemma App_revive_all_valid (l : list Json.json) (ts : list App.Todo) :
  App.revive_all l = Returns ts tt ->
  Forall (fun t => JsDate.valid_time (App.createdAt t)) ts.
Proof.
  revert ts. induction l as [|j r IH]; intros ts H; cbn in H.
  - injection H as <-. constructor.
  - destruct (App.revive j) as [t| |] eqn:R; try discriminate.
    + destruct (App.revive_all r) as [ts' []| |]; try discriminate.
      injection H as <-. constructor; [|now apply IH].
      eapply App_revive_valid. eassumption.
    + destruct (App.revive_all r); discriminate.
Qed.

(** Loading depends on the slot only, and gives records with time values. *)
Lemma App_load_slot (stored : option jsstring) (page : App.Dom)
  (x : App.State) :
  App.loadFromStorage (App.mkState [] Filter_all stored page) = Returns tt x ->
  Forall (fun t => JsDate.valid_time (App.createdAt t)) (App.todos x)
  /\ App.storage x = stored
  /\ forall page',
       App.loadFromStorage (App.mkState [] Filter_all stored page')
       = Returns tt (App.mkState (App.todos x) Filter_all stored page').
Proof.
  unfold App.loadFromStorage, bind, gets. cbn. intros L.
  destruct stored as [text|];
    [|injection L as <-; repeat split; constructor].
  destruct (truthy text);
    [|injection L as <-; repeat split; constructor].
  destruct (Json.JSON_parse text) as [[| | | |l|]|]; try discriminate.
  destruct (App.revive_all l) as [ts []| |] eqn:R; try discriminate.
  unfold modify in L. injection L as <-. cbn.
  split; [exact (App_revive_all_valid l ts R)|]. split; reflexivity.
Qed.

Lemma App_reloads_saved (s : App.State) :
  Forall (fun t => JsDate.valid_time (App.createdAt t)) (App.todos s) ->
  App.storage s = Some (App.JSON_stringify (App.todos s)) ->
  App_reloads s.
Proof.
  intros V E page. unfold App.new_TodoApp, App.init, bind.
  rewrite E.
  rewrite (App_load_saved (App.todos s)) by (exact V || reflexivity).
  rewrite App_render_closed. eexists. split; reflexivity.
Qed.

Lemma App_change_valid (ev : App_event) (input : jsstring)
  (l l' : list App.Todo) :
  App_event_time_ok ev -> App_change ev input l l' ->
  Forall (fun t => JsDate.valid_time (App.createdAt t)) l ->
  Forall (fun t => JsDate.valid_time (App.createdAt t)) l'.
Proof.
  intros Hev [key e -> _|i b|i v _ _|p] V.
  - constructor; [exact Hev | exact V].
  - induction V as [|x r Vx Vr IH]; simpl; [constructor|].
    destruct (App.has_id i x); constructor; auto.
  - induction V as [|x r Vx Vr IH]; simpl; [constructor|].
    destruct (App.has_id i x); constructor; auto.
  - unfold Array_filter. induction V as [|x r Vx Vr IH]; simpl; [constructor|].
    destruct (p x); [constructor|]; auto.
Qed.

(** X3.  In [src/app.ts], take a state of plain markup whose creation
    times are time values and whose storage slot a new [TodoApp] would load
    the collection from (as after the constructor, or after any save).
    After any sequence of events that bring in plain markup and clock
    readings that are time values, a new [TodoApp] started on the slot as
    it then is gets the collection as it then is: every change of the
    collection has been saved, and what was saved loads back. *)
Theorem App_events_persist
  (evs : list App_event) (s0 : App.State) :
  App_markup_plain s0 ->
  Forall (fun t => JsDate.valid_time (App.createdAt t)) (App.todos s0) ->
  App_reloads s0 ->
  Forall App_event_plain evs ->
  Forall App_event_time_ok evs ->
  exists s, App_run evs s0 = Returns tt s /\ App_reloads s.
Proof.
  intros M V0 R0 E Hev.
  destruct (App_run_invariant App_event_time_ok
              (fun s => Forall (fun t => JsDate.valid_time (App.createdAt t))
                          (App.todos s) /\ App_reloads s))
    with (evs := evs) (s := s0) as (s & Hs & (_ & R) & _); auto.
  - intros ev s s' Tev _ _ [_ St] (V & R).
    destruct St as [(T & _ & S & _)|(x & -> & _ & _ & [(_ & S & Ch)|(T & S)])].
    + split; [now rewrite T|]. unfold App_reloads. now rewrite T, S.
    + assert (V' := App_change_valid ev _ _ _ Tev Ch V).
      split; [exact V'|]. now apply App_reloads_saved.
    + split; [cbn; now rewrite T|]. unfold App_reloads. cbn.
      now rewrite T, S.
  - now exists s.
Qed.

Lemma App_events_persist_witness :
  exists s, App_run sample_events App_one_state = Returns tt s
            /\ App_reloads s.
Proof.
  apply (App_events_persist sample_events App_one_state).
  - repeat split; reflexivity.
  - repeat constructor; unfold JsDate.valid_time, JsDate.maxTime; simpl; lia.
  - intros page. eexists. split; [vm_compute; reflexivity | reflexivity].
  - repeat constructor; try reflexivity; vm_compute; discriminate.
  - repeat constructor; unfold JsDate.valid_time, JsDate.maxTime; simpl; lia.
Defined.

(** ** [src/app.ts]: titles, ids and creation times *)

Lemma App_change_trimmed (ev : App_event) (input : jsstring)
  (l l' : list App.Todo) :
  App_change ev input l l' ->
  Forall (fun t => trimmed (App.title t)) l ->
  Forall (fun t => trimmed (App.title t)) l'.
Proof.
  intros [key e _ Hv|i b|i v _ Hv|p] V.
  - constructor; [now apply trim_trimmed | exact V].
  - induction V as [|x r Vx Vr IH]; simpl; [constructor|].
    destruct (App.has_id i x); constructor; auto.
  - induction V as [|x r Vx Vr IH]; simpl; [constructor|].
    destruct (App.has_id i x); constructor; auto.
    now apply trim_trimmed.
  - unfold Array_filter. induction V as [|x r Vx Vr IH]; simpl; [constructor|].
    destruct (p x); [constructor|]; auto.
Qed.

(** X4.  In [src/app.ts] events never store a blank or untrimmed title:
    on a state of plain markup, if every title of the collection is
    non-empty and trimmed, so is every title after any sequence of events
    that bring in plain markup.  The listener of the input box and
    [editTodo] store [trim] of what was typed, and only when that is not
    empty. *)
Theorem App_events_keep_titles_trimmed
  (evs : list App_event) (s : App.State) :
  App_markup_plain s ->
  Forall App_event_plain evs ->
  Forall (fun t => trimmed (App.title t)) (App.todos s) ->
  exists s', App_run evs s = Returns tt s'
    /\ Forall (fun t => trimmed (App.title t)) (App.todos s').
Proof.
  intros M E V.
  destruct (App_run_invariant (fun _ => True)
              (fun s => Forall (fun t => trimmed (App.title t)) (App.todos s)))
    with (evs := evs) (s := s) as (s' & H & I & _);
    [|apply Forall_True | exact E | exact M | exact V | now exists s'].
  intros ev s1 s2 _ _ _ [_ St] V1.
  destruct St as [(T & _)|(x & -> & _ & _ & [(_ & _ & Ch)|(T & _)])].
  - now rewrite T.
  - exact (App_change_trimmed ev _ _ _ Ch V1).
  - cbn. now rewrite T.
Qed.

Lemma App_events_keep_titles_trimmed_witness :
  exists s', App_run sample_events App_one_state = Returns tt s'
    /\ Forall (fun t => trimmed (App.title t)) (App.todos s').
Proof.
  apply (App_events_keep_titles_trimmed sample_events App_one_state).
  - repeat split; reflexivity.
  - repeat constructor; try reflexivity; vm_compute; discriminate.
  - constructor; [|constructor].
    split; [discriminate|]. repeat split; reflexivity.
Defined.

(** ** Sequences with elements left out *)

Lemma subseq_refl {A} (l : list A) : subseq l l.
Proof. induction l; constructor; auto. Qed.

Lemma subseq_trans {A} (a b c : list A) :
  subseq a b -> subseq b c -> subseq a c.
Proof.
  intros Hab Hbc. revert a Hab.
  induction Hbc as [|x b c Hbc IH|x b c Hbc IH]; intros a Hab.
  - exact Hab.
  - inversion Hab as [|? a' ? Ha|? ? ? Ha]; subst.
    + apply subseq_keep. auto.
    + apply subseq_drop. auto.
  - apply subseq_drop. auto.
Qed.

Lemma subseq_app_head {A} (c a b : list A) :
  subseq a b -> subseq (c ++ a) (c ++ b).
Proof. intros H. induction c; simpl; [exact H | now apply subseq_keep]. Qed.

Lemma subseq_app_skip {A} (c a b : list A) :
  subseq a b -> subseq a (c ++ b).
Proof. intros H. induction c; simpl; [exact H | now apply subseq_drop]. Qed.

Lemma subseq_filter {A} (p : A -> bool) (l : list A) :
  subseq (Array_filter p l) l.
Proof.
  unfold Array_filter. induction l as [|x r IH]; simpl; [constructor|].
  destruct (p x); [now apply subseq_keep | now apply subseq_drop].
Qed.

Lemma subseq_map {A B} (f : A -> B) (a b : list A) :
  subseq a b -> subseq (map f a) (map f b).
Proof. induction 1; simpl; constructor; auto. Qed.

Lemma subseq_In {A} (a b : list A) (x : A) : subseq a b -> In x a -> In x b.
Proof.
  induction 1 as [|y a b _ IH|y a b _ IH]; simpl; auto.
  intros [->|H]; auto.
Qed.

Lemma subseq_NoDup {A} (a b : list A) : subseq a b -> NoDup b -> NoDup a.
Proof.
  induction 1 as [|y a b S IH|y a b S IH]; intros N.
  - constructor.
  - inversion N as [|? ? Hy Nb]; subst. constructor; auto.
    intros Hin. apply Hy. exact (subseq_In _ _ _ S Hin).
  - inversion N; subst. auto.
Qed.

Lemma NoDup_app_rev_head {A} (a b : list A) :
  NoDup (a ++ b) -> NoDup (rev a ++ b).
Proof.
  intros N. apply NoDup_app.
  - apply NoDup_rev. exact (NoDup_app_remove_r _ _ N).
  - exact (NoDup_app_remove_l _ _ N).
  - intros x Hx Hb. apply in_rev in Hx.
    induction a as [|y a IH]; [destruct Hx|].
    simpl in N. inversion N as [|? ? Hy Na]; subst.
    destruct Hx as [->|Hx]; [|exact (IH Na Hx)].
    apply Hy. apply in_or_app. now right.
Qed.

(** ** [src/app.ts]: ids and creation times *)

Lemma App_key_update_found (p : App.Todo -> bool) (g : App.Todo -> App.Todo)
  (l : list App.Todo) :
  (forall t, App_key (g t) = App_key t) ->
  map App_key (update_found p g l) = map App_key l.
Proof.
  intros Hg. induction l as [|x r IH]; simpl; [reflexivity|].
  destruct (p x); simpl; [now rewrite Hg | now rewrite IH].
Qed.

Lemma App_event_keys_cons (ev : App_event) (r : list App_event) :
  App_event_keys (ev :: r) = App_event_keys [ev] ++ App_event_keys r.
Proof. destruct ev; reflexivity. Qed.

Lemma App_change_keys (ev : App_event) (input : jsstring)
  (l l' : list App.Todo) :
  App_change ev input l l' ->
  subseq (map App_key l') (App_event_keys [ev] ++ map App_key l).
Proof.
  intros [key e -> _|i b|i v _ _|p].
  - apply subseq_refl.
  - rewrite App_key_update_found by reflexivity.
    apply subseq_app_skip, subseq_refl.
  - rewrite App_key_update_found by reflexivity.
    apply subseq_app_skip, subseq_refl.
  - apply subseq_app_skip, subseq_map, subseq_filter.
Qed.

Lemma App_step_keys (ev : App_event) (s s' : App.State) :
  App_step ev s s' ->
  subseq (map App_key (App.todos s'))
    (App_event_keys [ev] ++ map App_key (App.todos s)).
Proof.
  intros [_ [(T & _)|(x & -> & _ & _ & [(_ & _ & Ch)|(T & _)])]].
  - rewrite T. apply subseq_app_skip, subseq_refl.
  - now apply (App_change_keys ev _ _ _ Ch).
  - cbn. rewrite T. apply subseq_app_skip, subseq_refl.
Qed.

Lemma App_keys_after_events
  (evs : list App_event) (s : App.State) :
  App_markup_plain s ->
  Forall App_event_plain evs ->
  exists s',
    App_run evs s = Returns tt s'
    /\ subseq (map App_key (App.todos s'))
         (rev (App_event_keys evs) ++ map App_key (App.todos s)).
Proof.
  revert s. induction evs as [|ev r IH]; intros s M E.
  - exists s. split; [reflexivity | apply subseq_refl].
  - inversion E as [|? ? Eev Er]; subst.
    destruct (App_handle_step ev s (proj2 M) Eev) as (s1 & H1 & S1).
    destruct (IH s1 (App_step_plain ev s s1 S1 Eev M) Er) as (s' & H' & K').
    exists s'. split.
    + now rewrite (App_run_step ev r s s1 H1).
    + rewrite App_event_keys_cons, rev_app_distr, <- app_assoc.
      apply (subseq_trans _ _ _ K'). apply subseq_app_head.
      replace (rev (App_event_keys [ev])) with (App_event_keys [ev])
        by (destruct ev; reflexivity).
      now apply App_step_keys.
Qed.

(** X5.  In [src/app.ts] no event changes the id or the creation time of
    a record, nor the order of the records: on a state of plain markup,
    after any sequence of events that bring in plain markup, the (id,
    creation time) pairs of the collection are, in order, some of those
    the [keypress] events of the sequence could create, latest first,
    followed by some of those the collection had before.  So every record
    afterwards has the id and creation time of a record there was before
    or of a [keypress] event. *)
Theorem App_events_keep_ids_and_dates
  (evs : list App_event) (s : App.State) :
  App_markup_plain s ->
  Forall App_event_plain evs ->
  exists s',
    App_run evs s = Returns tt s'
    /\ subseq (map App_key (App.todos s'))
         (rev (App_event_keys evs) ++ map App_key (App.todos s))
    /\ forall t, In t (App.todos s') ->
         In (App_key t) (map App_key (App.todos s))
         \/ In (App_key t) (App_event_keys evs).
Proof.
  intros M E.
  destruct (App_keys_after_events evs s M E) as (s' & H & K).
  exists s'. split; [exact H|]. split; [exact K|].
  intros t Ht.
  assert (Hk : In (App_key t) (map App_key (App.todos s')))
    by now apply in_map.
  apply (subseq_In _ _ _ K) in Hk. apply in_app_or in Hk as [Hk|Hk].
  - right. now apply in_rev.
  - now left.
Qed.

Lemma App_events_keep_ids_and_dates_witness :
  exists s',
    App_run sample_events App_one_state = Returns tt s'
    /\ subseq (map App_key (App.todos s'))
         (rev (App_event_keys sample_events)
          ++ map App_key (App.todos App_one_state))
    /\ forall t, In t (App.todos s') ->
         In (App_key t) (map App_key (App.todos App_one_state))
         \/ In (App_key t) (App_event_keys sample_events).
Proof.
  apply (App_events_keep_ids_and_dates sample_events App_one_state).
  - repeat split; reflexivity.
  - repeat constructor; try reflexivity; vm_compute; discriminate.
Defined.

(** X6.  In [src/app.ts] ids stay unique: on a state of plain markup and
    for events that bring in plain markup, when the ids the [keypress]
    events of the sequence generate are pairwise different and different
    from the ids of the collection, and the ids of the collection are
    pairwise different, the ids of the collection after the events are
    pairwise different.  (The class itself never checks a generated id
    against the collection.) *)
Theorem App_events_keep_ids_unique
  (evs : list App_event) (s : App.State) :
  App_markup_plain s ->
  Forall App_event_plain evs ->
  NoDup (map fst (App_event_keys evs) ++ map App.id (App.todos s)) ->
  exists s',
    App_run evs s = Returns tt s' /\ NoDup (map App.id (App.todos s')).
Proof.
  intros M E N.
  destruct (App_keys_after_events evs s M E) as (s' & H & K).
  exists s'. split; [exact H|].
  apply (subseq_map fst) in K.
  rewrite map_map in K. cbn [App_key fst] in K.
  apply (subseq_NoDup _ _ K).
  rewrite map_app, map_rev, map_map. cbn [App_key fst].
  now apply NoDup_app_rev_head.
Qed.

Lemma App_events_keep_ids_unique_witness :
  exists s',
    App_run sample_events App_one_state = Returns tt s'
    /\ NoDup (map App.id (App.todos s')).
Proof.
  apply (App_events_keep_ids_unique sample_events App_one_state).
  - repeat split; reflexivity.
  - repeat constructor; try reflexivity; vm_compute; discriminate.
  - repeat constructor; simpl; intuition discriminate.
Defined.

(** ** [src/app.ts]: single methods *)

Lemma App_saving_closed (l : list App.Todo) (s : App.State) :
  bind (modify (App.set_todos l))
    (fun _ => bind App.saveToStorage (fun _ => App.render)) s
  = Returns tt
      (App.set_dom
         (App_rendered
            (App.mkState l (App.currentFilter s)
               (Some (App.JSON_stringify l)) (App.dom s)))
         (App.mkState l (App.currentFilter s)
            (Some (App.JSON_stringify l)) (App.dom s))).
Proof.
  unfold App.saveToStorage. unfold bind, modify, gets. cbn beta iota.
  now rewrite App_render_closed.
Qed.

Lemma App_saving_result (l : list App.Todo) (s : App.State) :
  exists s1,
    bind (modify (App.set_todos l))
      (fun _ => bind App.saveToStorage (fun _ => App.render)) s
    = Returns tt s1
    /\ App.todos s1 = l
    /\ App.storage s1 = Some (App.JSON_stringify l)
    /\ App.currentFilter s1 = App.currentFilter s.
Proof. rewrite App_saving_closed. eexists. split; [reflexivity|]. cbn. auto. Qed.

Lemma App_deleteTodo_result (i : jsstring) (s : App.State) :
  exists s1,
    App.deleteTodo i s = Returns tt s1
    /\ App.todos s1
       = Array_filter (fun t => negb (App.has_id i t)) (App.todos s)
    /\ App.storage s1 = Some (App.JSON_stringify (App.todos s1))
    /\ App.currentFilter s1 = App.currentFilter s.
Proof.
  destruct (App_saving_result
              (Array_filter (fun t => negb (App.has_id i t)) (App.todos s)) s)
    as (s1 & H & T & S & F).
  exists s1. split; [exact H|]. rewrite T. auto.
Qed.

Lemma App_clearCompletedTodos_result (s : App.State) :
  exists s1,
    App.clearCompletedTodos s = Returns tt s1
    /\ App.todos s1
       = Array_filter (fun t => negb (App.completed t)) (App.todos s)
    /\ App.storage s1 = Some (App.JSON_stringify (App.todos s1))
    /\ App.currentFilter s1 = App.currentFilter s.
Proof.
  destruct (App_saving_result
              (Array_filter (fun t => negb (App.completed t)) (App.todos s)) s)
    as (s1 & H & T & S & F).
  exists s1. split; [exact H|]. rewrite T. auto.
Qed.

Lemma filter_filter_same {A} (p : A -> bool) (l : list A) :
  Array_filter p (Array_filter p l) = Array_filter p l.
Proof.
  unfold Array_filter. induction l as [|x r IH]; simpl; [reflexivity|].
  destruct (p x) eqn:E; simpl; [now rewrite E, IH | exact IH].
Qed.

Lemma filter_after_negation {A} (p : A -> bool) (l : list A) :
  Array_filter p (Array_filter (fun x => negb (p x)) l) = [].
Proof.
  unfold Array_filter. induction l as [|x r IH]; simpl; [reflexivity|].
  destruct (p x) eqn:E; simpl; [exact IH | now rewrite E].
Qed.

Lemma filter_length_split {A} (p : A -> bool) (l : list A) :
  List.length (Array_filter p l)
  + List.length (Array_filter (fun x => negb (p x)) l)
  = List.length l.
Proof.
  unfold Array_filter. induction l as [|x r IH]; simpl; [reflexivity|].
  destruct (p x); simpl; lia.
Qed.

(** X7.  [deleteTodo] removes exactly the records with the id given, all
    of them, and keeps the others in order; it saves the result; the
    collection shrinks by the number of records with that id; deleting the
    same id again changes nothing in the collection. *)
Theorem App_deleteTodo_removes_exactly (i : jsstring) (s : App.State) :
  exists s1 s2,
    App.deleteTodo i s = Returns tt s1
    /\ selects (fun t => negb (App.has_id i t)) (App.todos s) (App.todos s1)
    /\ (forall t, In t (App.todos s1) <-> In t (App.todos s) /\ App.id t <> i)
    /\ List.length (App.todos s1)
       + List.length (Array_filter (App.has_id i) (App.todos s))
       = List.length (App.todos s)
    /\ App.storage s1 = Some (App.JSON_stringify (App.todos s1))
    /\ App.currentFilter s1 = App.currentFilter s
    /\ App.deleteTodo i s1 = Returns tt s2
    /\ App.todos s2 = App.todos s1.
Proof.
  destruct (App_deleteTodo_result i s) as (s1 & H1 & T1 & S1 & F1).
  destruct (App_deleteTodo_result i s1) as (s2 & H2 & T2 & _).
  exists s1, s2. split; [exact H1|]. rewrite T1.
  split; [apply selects_filter|]. split.
  { intros t. unfold Array_filter. rewrite filter_In, negb_true_iff.
    unfold App.has_id. split; intros [Hin Hid]; split; auto.
    - intros E. rewrite E, str_eqb_refl in Hid. discriminate.
    - destruct (str_eqb (App.id t) i) eqn:E; [|reflexivity].
      apply str_eqb_eq in E. contradiction. }
  split.
  { pose proof (filter_length_split (App.has_id i) (App.todos s)). lia. }
  rewrite <- T1. split; [exact S1|]. split; [exact F1|].
  split; [exact H2|]. rewrite T2, T1. apply filter_filter_same.
Qed.

(** X8.  [clearCompletedTodos] leaves exactly the view under [active]: the
    collection afterwards is that view, the number of active records is
    the same, the view under [completed] is empty, the result is saved, and
    a second call changes nothing in the collection. *)
Theorem App_clearCompleted_keeps_active (s : App.State) :
  exists s1 s2,
    App.clearCompletedTodos s = Returns tt s1
    /\ App.todos s1 = App.view Filter_active s
    /\ App.view Filter_active s1 = App.view Filter_active s
    /\ App.activeTodos (App.todos s1) = App.activeTodos (App.todos s)
    /\ App.view Filter_completed s1 = []
    /\ App.storage s1 = Some (App.JSON_stringify (App.todos s1))
    /\ App.clearCompletedTodos s1 = Returns tt s2
    /\ App.todos s2 = App.todos s1.
Proof.
  destruct (App_clearCompletedTodos_result s) as (s1 & H1 & T1 & S1 & _).
  destruct (App_clearCompletedTodos_result s1) as (s2 & H2 & T2 & _).
  exists s1, s2. split; [exact H1|].
  unfold App.view, App.getFilteredTodos, App.activeTodos. cbn.
  split; [exact T1|]. rewrite T1.
  split; [apply filter_filter_same|].
  split; [now rewrite filter_filter_same|].
  split; [apply filter_after_negation|].
  rewrite <- T1. split; [exact S1|]. split; [exact H2|].
  rewrite T2, T1. apply filter_filter_same.
Qed.

(** X9.  The views under [active] and [completed] split the collection:
    every record of the collection is in exactly one of the two, and their
    lengths add up to the length of the collection, which is the length of
    the view under [all]. *)
Theorem App_views_split_collection (s : App.State) :
  List.length (App.view Filter_active s)
  + List.length (App.view Filter_completed s)
  = List.length (App.view Filter_all s)
  /\ App.view Filter_all s = App.todos s
  /\ (forall t, In t (App.todos s) ->
        (In t (App.view Filter_active s)
         /\ ~ In t (App.view Filter_completed s))
        \/ (In t (App.view Filter_completed s)
            /\ ~ In t (App.view Filter_active s))).
Proof.
  unfold App.view, App.getFilteredTodos. cbn. split.
  { pose proof (filter_length_split (fun t => App.completed t) (App.todos s))
      as L.
    cbv beta in L. unfold Array_filter in L. lia. }
  split; [reflexivity|].
  intros t Ht. unfold Array_filter. rewrite !filter_In.
  destruct (App.completed t) eqn:E; [right | left]; cbn;
    intuition congruence.
Qed.

Lemma activeTodos_flip (i : jsstring) (l : list App.Todo) (t : App.Todo) :
  Array_find (App.has_id i) l = Some t ->
  App.activeTodos
    (update_found (App.has_id i) (App.set_completed (negb (App.completed t))) l)
  + (if App.completed t then 0 else 1)
  = App.activeTodos l + (if App.completed t then 1 else 0).
Proof.
  unfold Array_find, App.activeTodos, Array_filter.
  induction l as [|x r IH]; simpl; [discriminate|].
  destruct (App.has_id i x) eqn:E.
  - intros [= ->]. simpl. destruct (App.completed t); simpl; lia.
  - intros H. specialize (IH H). simpl.
    destruct (App.completed x); simpl; lia.
Qed.

Lemma map_update_found {A B} (f : A -> B) (p : A -> bool) (g : A -> A)
  (l : list A) :
  (forall x, f (g x) = f x) -> map f (update_found p g l) = map f l.
Proof.
  intros Hg. induction l as [|x r IH]; simpl; [reflexivity|].
  destruct (p x); simpl; [now rewrite Hg | now rewrite IH].
Qed.

(** X10.  [toggleTodo] on an id the collection has flips the flag of the
    first record with that id and nothing else: ids, titles and creation
    times are as before, in the same order; the number of active records
    goes down by one if the record was active and up by one if it was
    completed; the result is saved. *)
Theorem App_toggleTodo_flips_one
  (i : jsstring) (s : App.State) (t : App.Todo) :
  Array_find (App.has_id i) (App.todos s) = Some t ->
  exists s',
    App.toggleTodo i s = Returns tt s'
    /\ Array_find (App.has_id i) (App.todos s')
       = Some (App.set_completed (negb (App.completed t)) t)
    /\ map App.id (App.todos s') = map App.id (App.todos s)
    /\ map App.title (App.todos s') = map App.title (App.todos s)
    /\ map App.createdAt (App.todos s') = map App.createdAt (App.todos s)
    /\ App.activeTodos (App.todos s') + (if App.completed t then 0 else 1)
       = App.activeTodos (App.todos s) + (if App.completed t then 1 else 0)
    /\ App.storage s' = Some (App.JSON_stringify (App.todos s')).
Proof.
  intros H.
  destruct (App_saving_result
              (update_found (App.has_id i)
                 (App.set_completed (negb (App.completed t))) (App.todos s)) s)
    as (s' & R & T & S & _).
  exists s'. split.
  { unfold App.toggleTodo, bind at 1, gets at 1. cbn beta iota.
    rewrite H. exact R. }
  rewrite T. split.
  { rewrite find_update_found by (intros x Hx; exact Hx). now rewrite H. }
  split; [now apply map_update_found|].
  split; [now apply map_update_found|].
  split; [now apply map_update_found|].
  split; [now apply activeTodos_flip | exact S].
Qed.

Lemma App_toggleTodo_flips_one_witness :
  exists s',
    App.toggleTodo sample_id App_one_state = Returns tt s'
    /\ Array_find (App.has_id sample_id) (App.todos s')
       = Some (App.set_completed (negb (App.completed sample_todo)) sample_todo)
    /\ map App.id (App.todos s') = map App.id (App.todos App_one_state)
    /\ map App.title (App.todos s') = map App.title (App.todos App_one_state)
    /\ map App.createdAt (App.todos s')
       = map App.createdAt (App.todos App_one_state)
    /\ App.activeTodos (App.todos s')
       + (if App.completed sample_todo then 0 else 1)
       = App.activeTodos (App.todos App_one_state)
         + (if App.completed sample_todo then 1 else 0)
    /\ App.storage s' = Some (App.JSON_stringify (App.todos s')).
Proof.
  apply (App_toggleTodo_flips_one sample_id App_one_state sample_todo).
  reflexivity.
Defined.

(** X11.  [editTodo] on an id the collection has: with a title whose
    trimmed form is not empty, the first record with the id has that
    trimmed form as its title afterwards and its id, flag and creation
    time as before, every other record is as it was, in place, and the
    result is saved; with a blank title it returns and leaves the state as
    it is. *)
Theorem App_editTodo_stores_trimmed
  (i v : jsstring) (s : App.State) (t : App.Todo) :
  Array_find (App.has_id i) (App.todos s) = Some t ->
  exists s',
    App.editTodo i v s = Returns tt s'
    /\ if truthy (trim v)
       then (exists l1 l2 t',
               App.todos s = l1 ++ t :: l2
               /\ Array_find (App.has_id i) l1 = None
               /\ App.todos s' = l1 ++ t' :: l2
               /\ App.title t' = trim v
               /\ App.id t' = App.id t
               /\ App.completed t' = App.completed t
               /\ App.createdAt t' = App.createdAt t
               /\ Array_find (App.has_id i) (App.todos s') = Some t')
            /\ trimmed (trim v)
            /\ App.todos s'
               = update_found (App.has_id i) (App.set_title (trim v))
                   (App.todos s)
            /\ map App_key (App.todos s') = map App_key (App.todos s)
            /\ map App.completed (App.todos s')
               = map App.completed (App.todos s)
            /\ App.storage s' = Some (App.JSON_stringify (App.todos s'))
       else s' = s.
Proof.
  intros H. unfold App.editTodo, bind at 1, gets at 1. cbn beta iota.
  rewrite H. destruct (truthy (trim v)) eqn:E; [|now exists s].
  destruct (App_saving_result
              (update_found (App.has_id i) (App.set_title (trim v))
                 (App.todos s)) s) as (s' & R & T & S & _).
  exists s'. split; [exact R|]. rewrite T. split.
  { destruct (update_found_split (App.has_id i) (App.set_title (trim v))
                _ t H) as (l1 & l2 & L & N & Ft & U).
    exists l1, l2, (App.set_title (trim v) t).
    split; [exact L|]. split; [exact N|]. split; [exact U|].
    split; [reflexivity|]. split; [reflexivity|]. split; [reflexivity|].
    split; [reflexivity|].
    rewrite find_update_found by (intros x Hx; exact Hx). now rewrite H. }
  split.
  { apply trim_trimmed. intros Z. rewrite Z in E. discriminate. }
  split; [reflexivity|].
  split; [now apply map_update_found|].
  split; [now apply map_update_found | exact S].
Qed.

Lemma App_editTodo_stores_trimmed_witness :
  exists s',
    App.editTodo sample_id (js " buy oat milk ") App_one_state = Returns tt s'
    /\ if truthy (trim (js " buy oat milk "))
       then (exists l1 l2 t',
               App.todos App_one_state = l1 ++ sample_todo :: l2
               /\ Array_find (App.has_id sample_id) l1 = None
               /\ App.todos s' = l1 ++ t' :: l2
               /\ App.title t' = trim (js " buy oat milk ")
               /\ App.id t' = App.id sample_todo
               /\ App.completed t' = App.completed sample_todo
               /\ App.createdAt t' = App.createdAt sample_todo
               /\ Array_find (App.has_id sample_id) (App.todos s')
                  = Some t')
            /\ trimmed (trim (js " buy oat milk "))
            /\ App.todos s'
               = update_found (App.has_id sample_id)
                   (App.set_title (trim (js " buy oat milk ")))
                   (App.todos App_one_state)
            /\ map App_key (App.todos s')
               = map App_key (App.todos App_one_state)
            /\ map App.completed (App.todos s')
               = map App.completed (App.todos App_one_state)
            /\ App.storage s' = Some (App.JSON_stringify (App.todos s'))
       else s' = App_one_state.
Proof.
  apply (App_editTodo_stores_trimmed sample_id (js " buy oat milk ")
           App_one_state sample_todo).
  reflexivity.
Defined.

Lemma update_found_id_in {A} (f : A -> bool) (g : A -> A) (l : list A) :
  (forall x, In x l -> f x = true -> g x = x) -> update_found f g l = l.
Proof.
  induction l as [|x r IH]; intros Hg; simpl; [reflexivity|].
  destruct (f x) eqn:E.
  - now rewrite (Hg x (or_introl eq_refl) E).
  - rewrite IH; [reflexivity|]. intros y Hy. apply Hg. now right.
Qed.

Lemma find_data_id_update (i : jsstring) (b : bool) (l : list App.Item) :
  Array_find (fun it => str_eqb (App.data_id it) i)
    (update_found (fun it => str_eqb (App.data_id it) i) (App.set_editing b) l)
  = option_map (App.set_editing b)
      (Array_find (fun it => str_eqb (App.data_id it) i) l).
Proof. apply find_update_found. intros x Hx. exact Hx. Qed.

(** X12.  In [src/app.ts], on a list of well-formed elements none of
    which is being edited, and for an id that makes a selector by
    [data-id] and that an element of the list carries: [startEdit]
    returns, touches neither the collection, nor the filter, nor the
    storage slot, and puts the class [editing] on the first element with
    the id and on no other, leaving ids, titles and flags of the elements
    alone; [cancelEdit] on the same id then returns and gives back the
    state there was. *)
Theorem App_startEdit_then_cancelEdit
  (i : jsstring) (s : App.State) (it : App.Item) :
  data_id_selector i = ByDataId ->
  forallb App.item_wellformed (App.todoList (App.dom s)) = true ->
  Forall (fun it => App.editing it = false) (App.todoList (App.dom s)) ->
  Array_find (fun it => str_eqb (App.data_id it) i)
    (App.todoList (App.dom s)) = Some it ->
  exists s1 s2 l1 l2 it1,
    App.startEdit i s = Returns tt s1
    /\ App.todos s1 = App.todos s
    /\ App.currentFilter s1 = App.currentFilter s
    /\ App.storage s1 = App.storage s
    /\ App.todoList (App.dom s) = l1 ++ it :: l2
    /\ App.todoList (App.dom s1) = l1 ++ it1 :: l2
    /\ App.editing it1 = true
    /\ App.data_id it1 = App.data_id it
    /\ App.item_title it1 = App.item_title it
    /\ App.item_completed it1 = App.item_completed it
    /\ List.length (filter App.editing (App.todoList (App.dom s1))) = 1
    /\ App.cancelEdit i s1 = Returns tt s2
    /\ s2 = s.
Proof.
  intros Sel W Hed Q.
  destruct (update_found_split (fun it => str_eqb (App.data_id it) i)
              (App.set_editing true) _ it Q) as (l1 & l2 & L & N & Fi & U).
  destruct s as [l f st [iv tl fs tc ta cs d1 d2 d3 d4]].
  cbn [App.dom App.todoList] in *.
  assert (W1 : forallb App.item_wellformed (l1 ++ App.set_editing true it :: l2)
               = true).
  { rewrite <- U. apply forallb_update_found; [|exact W].
    intros x Hx. exact Hx. }
  assert (Q1 : Array_find (fun it => str_eqb (App.data_id it) i)
                 (l1 ++ App.set_editing true it :: l2)
               = Some (App.set_editing true it)).
  { rewrite <- U, find_data_id_update, Q. reflexivity. }
  exists (App.mkState l f st
            (App.mkDom iv (l1 ++ App.set_editing true it :: l2) fs tc ta cs
               d1 d2 d3 d4)),
    (App.mkState l f st (App.mkDom iv tl fs tc ta cs d1 d2 d3 d4)),
    l1, l2, (App.set_editing true it).
  split.
  { unfold App.startEdit, bind, App.querySelector_data_id.
    cbn [App.dom App.todoList]. rewrite Sel, W, Q.
    unfold App.set_item_class, modify, App.set_dom. cbn. now rewrite U. }
  split; [reflexivity|]. split; [reflexivity|]. split; [reflexivity|].
  split; [exact L|]. split; [reflexivity|].
  split; [reflexivity|]. split; [reflexivity|]. split; [reflexivity|].
  split; [reflexivity|].
  split.
  { cbn [App.dom App.todoList]. subst tl.
    apply Forall_app in Hed as [H1 H2]. inversion H2 as [|? ? _ H3]; subst.
    assert (Z : forall r, Forall (fun it => App.editing it = false) r ->
                filter App.editing r = []).
    { induction 1 as [|x r Hx _ IH]; simpl; [reflexivity|].
      now rewrite Hx. }
    rewrite filter_app. cbn [filter App.set_editing App.editing].
    now rewrite (Z l1 H1), (Z l2 H3). }
  split; [|reflexivity].
  unfold App.cancelEdit, bind, App.querySelector_data_id.
  cbn [App.dom App.todoList]. rewrite Sel, W1, Q1.
  unfold App.set_item_class, modify, App.set_dom. cbn. do 3 f_equal.
  rewrite <- U.
  rewrite update_found_twice by (intros x Hx; exact Hx).
  apply update_found_id_in. intros [a b c e] Hin _.
  rewrite Forall_forall in Hed. specialize (Hed _ Hin). cbn in *.
  now rewrite Hed.
Qed.

Lemma App_startEdit_then_cancelEdit_witness :
  exists s1 s2 l1 l2 it1,
    App.startEdit sample_id App_one_state = Returns tt s1
    /\ App.todos s1 = App.todos App_one_state
    /\ App.currentFilter s1 = App.currentFilter App_one_state
    /\ App.storage s1 = App.storage App_one_state
    /\ App.todoList (App.dom App_one_state)
       = l1 ++ App.item_of sample_todo :: l2
    /\ App.todoList (App.dom s1) = l1 ++ it1 :: l2
    /\ App.editing it1 = true
    /\ App.data_id it1 = App.data_id (App.item_of sample_todo)
    /\ App.item_title it1 = App.item_title (App.item_of sample_todo)
    /\ App.item_completed it1 = App.item_completed (App.item_of sample_todo)
    /\ List.length (filter App.editing (App.todoList (App.dom s1))) = 1
    /\ App.cancelEdit sample_id s1 = Returns tt s2
    /\ s2 = App_one_state.
Proof.
  apply (App_startEdit_then_cancelEdit sample_id App_one_state
           (App.item_of sample_todo)).
  - reflexivity.
  - reflexivity.
  - repeat constructor.
  - reflexivity.
Defined.

(** X13.  [setFilter] touches neither the collection nor the storage slot,
    and only the last filter set counts: setting a filter and then another
    gives the very state that setting the second at once gives, and in it
    [getFilteredTodos] is the view under that filter. *)
Theorem App_setFilter_last_wins (f g : FilterType) (s : App.State) :
  exists s1 s2,
    App.setFilter f s = Returns tt s1
    /\ App.setFilter g s1 = Returns tt s2
    /\ App.setFilter g s = Returns tt s2
    /\ App.todos s2 = App.todos s
    /\ App.storage s2 = App.storage s
    /\ App.currentFilter s2 = g
    /\ App.getFilteredTodos s2 = App.view g s.
Proof.
  assert (C : forall h x, App.setFilter h x
              = Returns tt
                  (App.set_dom
                     (App_rendered
                        (App.mkState (App.todos x) h (App.storage x)
                           (App.dom x)))
                     (App.mkState (App.todos x) h (App.storage x)
                        (App.dom x)))).
  { intros h x. unfold App.setFilter, App.updateFilterButtons.
    unfold bind, modify. cbn beta iota. rewrite App_render_closed.
    reflexivity. }
  do 2 eexists. split; [apply C|]. split; [apply C|].
  split.
  { rewrite C. cbn. unfold App_rendered. cbn.
    destruct (App.todoCount_attached (App.dom s)); reflexivity. }
  cbn. auto.
Qed.

Lemma revive_all_null (l : list Json.json) :
  In Json.JNull l -> App.revive_all l = Throws TypeError tt.
Proof.
  induction l as [|j r IH]; intros Hin; [destruct Hin|].
  destruct Hin as [->|Hin]; [reflexivity|].
  cbn [App.revive_all]. rewrite (IH Hin).
  destruct (App.revive j); reflexivity.
Qed.

Lemma Priority_revive_all_null (l : list Json.json) :
  In Json.JNull l -> PriorityApp.revive_all l = Throws TypeError tt.
Proof.
  induction l as [|j r IH]; intros Hin; [destruct Hin|].
  destruct Hin as [->|Hin]; [reflexivity|].
  cbn [PriorityApp.revive_all]. rewrite (IH Hin).
  destruct (PriorityApp.revive j); reflexivity.
Qed.

(** X14.  A slot that holds JSON which is no array, or an array with a
    null among its elements, makes [loadFromStorage] throw a TypeError
    without touching the state; nothing catches it, so the constructor
    throws it too, before [render].  Both variants. *)
Theorem load_throws_TypeError
  (text : jsstring) (j : Json.json) (s : App.State) (p : PriorityApp.State) :
  Json.JSON_parse text = Some j ->
  match j with Json.JArr l => In Json.JNull l | _ => True end ->
  App.loadFromStorage (App.set_storage (Some text) s)
  = Throws TypeError (App.set_storage (Some text) s)
  /\ (forall page,
        App.new_TodoApp (Some text) page
        = Throws TypeError (App.mkState [] Filter_all (Some text) page))
  /\ PriorityApp.loadFromStorage (PriorityApp.set_storage (Some text) p)
     = Throws TypeError (PriorityApp.set_storage (Some text) p)
  /\ (forall page,
        PriorityApp.new_TodoApp (Some text) page
        = Throws TypeError
            (PriorityApp.mkState [] Filter_all (Some text) page)).
Proof.
  intros P J.
  assert (Ht : truthy text = true)
    by (destruct text; [discriminate P | reflexivity]).
  assert (L : forall x, App.storage x = Some text ->
              App.loadFromStorage x = Throws TypeError x).
  { intros x Sx. unfold App.loadFromStorage, bind, gets. rewrite Sx, Ht, P.
    destruct j as [| | | |l|]; try reflexivity.
    now rewrite (revive_all_null l J). }
  assert (L' : forall x, PriorityApp.storage x = Some text ->
               PriorityApp.loadFromStorage x = Throws TypeError x).
  { intros x Sx. unfold PriorityApp.loadFromStorage, bind, gets.
    rewrite Sx, Ht, P.
    destruct j as [| | | |l|]; try reflexivity.
    now rewrite (Priority_revive_all_null l J). }
  split; [now apply L|]. split.
  { intros page. unfold App.new_TodoApp, App.init, bind. now rewrite L. }
  split; [now apply L'|].
  intros page. unfold PriorityApp.new_TodoApp, PriorityApp.init, bind.
  now rewrite L'.
Qed.

Lemma load_throws_TypeError_witness :
  App.loadFromStorage (App.set_storage (Some (js "[null]")) App_fresh)
  = Throws TypeError (App.set_storage (Some (js "[null]")) App_fresh)
  /\ (forall page,
        App.new_TodoApp (Some (js "[null]")) page
        = Throws TypeError
            (App.mkState [] Filter_all (Some (js "[null]")) page))
  /\ PriorityApp.loadFromStorage
       (PriorityApp.set_storage (Some (js "[null]")) Priority_fresh)
     = Throws TypeError
         (PriorityApp.set_storage (Some (js "[null]")) Priority_fresh)
  /\ (forall page,
        PriorityApp.new_TodoApp (Some (js "[null]")) page
        = Throws TypeError
            (PriorityApp.mkState [] Filter_all (Some (js "[null]")) page)).
Proof.
  apply (load_throws_TypeError (js "[null]") (Json.JArr [Json.JNull])
           App_fresh Priority_fresh).
  - reflexivity.
  - simpl. auto.
Defined.

(** X15.  The [keypress] listener of the input box, when the box holds
    text that is not blank: on Enter it prepends a record with the trimmed
    text, not completed, saves, and empties the box; on any other key it
    leaves the state as it is. *)
Theorem App_keypress_adds_on_Enter_only
  (key : jsstring) (e : Entropy) (s : App.State) :
  trim (App.todoInput_value (App.dom s)) <> [] ->
  exists s',
    App.on_keypress key e s = Returns tt s'
    /\ if str_eqb key (js "Enter")
       then App.todos s'
            = App.mkTodo (App.generateId e)
                (trim (App.todoInput_value (App.dom s))) false (new_Date e)
              :: App.todos s
            /\ App.todoInput_value (App.dom s') = []
            /\ App.storage s' = Some (App.JSON_stringify (App.todos s'))
            /\ App.currentFilter s' = App.currentFilter s
       else s' = s.
Proof.
  intros H. unfold App.on_keypress, bind at 1, gets at 1. cbn beta iota.
  destruct (trim (App.todoInput_value (App.dom s))) as [|c r] eqn:E;
    [congruence|].
  cbn [truthy]. rewrite andb_true_r.
  destruct (str_eqb key (js "Enter")); [|now exists s].
  destruct (App_saving_result
              (App.mkTodo (App.generateId e) (c :: r) false (new_Date e)
               :: App.todos s) s) as (s1 & R & T & S & F).
  unfold bind at 1, App.addTodo.
  change (bind (modify (fun s2 => App.set_todos (?t :: App.todos s2) s2))
            ?k s)
    with (bind (modify (App.set_todos (t :: App.todos s))) k s).
  rewrite R. unfold App.set_todoInput_value, modify.
  eexists. split; [reflexivity|]. cbn. rewrite T, S, F. auto.
Qed.

Lemma App_keypress_adds_on_Enter_only_witness :
  let s := App.mkState [] Filter_all None
             (App.mkDom (js " buy milk ") [] Filter_all (js "0") false []
                block none none none) in
  exists s',
    App.on_keypress (js "Enter") sample_entropy s = Returns tt s'
    /\ if str_eqb (js "Enter") (js "Enter")
       then App.todos s'
            = App.mkTodo (App.generateId sample_entropy)
                (trim (App.todoInput_value (App.dom s))) false
                (new_Date sample_entropy)
              :: App.todos s
            /\ App.todoInput_value (App.dom s') = []
            /\ App.storage s' = Some (App.JSON_stringify (App.todos s'))
            /\ App.currentFilter s' = App.currentFilter s
       else s' = s.
Proof.
  intros s. apply (App_keypress_adds_on_Enter_only (js "Enter")
                     sample_entropy s).
  discriminate.
Defined.
(** ** [render] *)

Lemma Priority_render_closed (s : PriorityApp.State) :
  PriorityApp.render s
  = Returns tt (PriorityApp.set_dom (Priority_rendered s) s).
Proof.
  unfold PriorityApp.render, PriorityApp.renderTodos,
    PriorityApp.updateTodoCount, PriorityApp.updateFilterButtons,
    PriorityApp.updateEmptyState, bind, gets, modify.
  reflexivity.
Qed.

(** X16.  [render] returns, changes nothing but the document, leaves the
    value of the input box alone, and doing it again changes nothing at
    all.  This holds in [src/app.ts], where the first [render] detaches
    the count element, and in the variant with priorities. *)
Theorem render_twice_is_render (s : App.State) (p : PriorityApp.State) :
  (exists s',
     App.render s = Returns tt s'
     /\ App.render s' = Returns tt s'
     /\ App.todos s' = App.todos s
     /\ App.currentFilter s' = App.currentFilter s
     /\ App.storage s' = App.storage s
     /\ App.todoInput_value (App.dom s') = App.todoInput_value (App.dom s))
  /\ (exists p',
        PriorityApp.render p = Returns tt p'
        /\ PriorityApp.render p' = Returns tt p'
        /\ PriorityApp.todos p' = PriorityApp.todos p
        /\ PriorityApp.currentFilter p' = PriorityApp.currentFilter p
        /\ PriorityApp.storage p' = PriorityApp.storage p
        /\ PriorityApp.todoInput_value (PriorityApp.dom p')
           = PriorityApp.todoInput_value (PriorityApp.dom p)).
Proof.
  split.
  - rewrite App_render_closed. eexists. split; [reflexivity|].
    split; [|cbn; auto]. rewrite App_render_closed.
    destruct s as [l f st d]. reflexivity.
  - rewrite Priority_render_closed. eexists. split; [reflexivity|].
    split; [|cbn; auto]. rewrite Priority_render_closed.
    destruct p as [l f st d]. reflexivity.
Qed.

(** ** [src/unnamed/part_001]: the methods in closed form *)

Lemma Priority_saving_closed (l : list PriorityApp.Todo)
  (s : PriorityApp.State) :
  bind (modify (PriorityApp.set_todos l))
    (fun _ => bind PriorityApp.saveToStorage (fun _ => PriorityApp.render)) s
  = Returns tt (Priority_saved l s).
Proof.
  unfold PriorityApp.saveToStorage. unfold bind, modify, gets.
  cbn beta iota. now rewrite Priority_render_closed.
Qed.

Lemma Priority_saved_twice (l l' : list PriorityApp.Todo)
  (s : PriorityApp.State) :
  Priority_saved l' (Priority_saved l s) = Priority_saved l' s.
Proof. reflexivity. Qed.

Lemma Priority_toggleTodo_closed (i : jsstring) (s : PriorityApp.State) :
  PriorityApp.toggleTodo i s
  = Returns tt
      (match Array_find (PriorityApp.has_id i) (PriorityApp.todos s) with
       | Some _ =>
           Priority_saved
             (update_found (PriorityApp.has_id i)
                (fun t => PriorityApp.set_completed
                            (negb (PriorityApp.completed t)) t)
                (PriorityApp.todos s)) s
       | None => s
       end).
Proof.
  unfold PriorityApp.toggleTodo. unfold bind at 1, gets. cbn beta iota.
  destruct (Array_find (PriorityApp.has_id i) (PriorityApp.todos s))
    as [t|] eqn:E; [|reflexivity].
  rewrite Priority_saving_closed. do 2 f_equal.
  symmetry. now apply update_found_first with (t := t).
Qed.

Lemma Priority_cyclePriority_closed (i : jsstring) (s : PriorityApp.State) :
  PriorityApp.cyclePriority i s
  = Returns tt
      (match Array_find (PriorityApp.has_id i) (PriorityApp.todos s) with
       | Some _ =>
           Priority_saved
             (update_found (PriorityApp.has_id i)
                (fun t => PriorityApp.set_priority
                            (PriorityApp.next_priority
                               (PriorityApp.priority t)) t)
                (PriorityApp.todos s)) s
       | None => s
       end).
Proof.
  unfold PriorityApp.cyclePriority. unfold bind at 1, gets. cbn beta iota.
  destruct (Array_find (PriorityApp.has_id i) (PriorityApp.todos s))
    as [t|] eqn:E; [|reflexivity].
  rewrite Priority_saving_closed. do 2 f_equal.
  symmetry. now apply update_found_first with (t := t).
Qed.

Lemma Priority_editTodo_closed (i v : jsstring) (s : PriorityApp.State) :
  PriorityApp.editTodo i v s
  = Returns tt
      (match Array_find (PriorityApp.has_id i) (PriorityApp.todos s) with
       | Some _ =>
           if truthy (trim v)
           then Priority_saved
                  (update_found (PriorityApp.has_id i)
                     (PriorityApp.set_title (trim v)) (PriorityApp.todos s)) s
           else s
       | None => s
       end).
Proof.
  unfold PriorityApp.editTodo. unfold bind at 1, gets. cbn beta iota.
  destruct (Array_find (PriorityApp.has_id i) (PriorityApp.todos s));
    [|reflexivity].
  destruct (truthy (trim v)); [|reflexivity].
  now rewrite Priority_saving_closed.
Qed.

Lemma Priority_deleteTodo_closed (i : jsstring) (s : PriorityApp.State) :
  PriorityApp.deleteTodo i s
  = Returns tt
      (Priority_saved
         (Array_filter (fun t => negb (PriorityApp.has_id i t))
            (PriorityApp.todos s)) s).
Proof. rewrite <- Priority_saving_closed. reflexivity. Qed.

Lemma Priority_clearCompletedTodos_closed (s : PriorityApp.State) :
  PriorityApp.clearCompletedTodos s
  = Returns tt
      (Priority_saved
         (Array_filter (fun t => negb (PriorityApp.completed t))
            (PriorityApp.todos s)) s).
Proof. rewrite <- Priority_saving_closed. reflexivity. Qed.

Lemma Priority_addTodo_closed (title : jsstring) (e : Entropy)
  (s : PriorityApp.State) :
  PriorityApp.addTodo title e s
  = Returns tt
      (Priority_saved
         (PriorityApp.mkTodo (PriorityApp.generateId e) title false
            (new_Date e) PriorityApp.medium :: PriorityApp.todos s) s).
Proof. rewrite <- Priority_saving_closed. reflexivity. Qed.

Lemma Priority_setFilter_closed (f : FilterType) (s : PriorityApp.State) :
  PriorityApp.setFilter f s
  = Returns tt
      (PriorityApp.set_dom
         (Priority_rendered (PriorityApp.set_currentFilter f s))
         (PriorityApp.set_currentFilter f s)).
Proof.
  unfold PriorityApp.setFilter, PriorityApp.updateFilterButtons.
  unfold bind, modify. cbn beta iota. rewrite Priority_render_closed.
  reflexivity.
Qed.

(** ** Two updates *)

Lemma update_found_commute {A} (p q : A -> bool) (f g : A -> A)
  (l : list A) :
  (forall x, p (g x) = p x) -> (forall x, q (f x) = q x) ->
  (forall x, f (g x) = g (f x)) ->
  update_found p f (update_found q g l)
  = update_found q g (update_found p f l).
Proof.
  intros Hp Hq Hc. induction l as [|x r IH]; simpl; [reflexivity|].
  destruct (p x) eqn:P, (q x) eqn:Q; simpl;
    rewrite ?Hp, ?Hq, ?P, ?Q; try reflexivity.
  - now rewrite Hc.
  - now rewrite IH.
Qed.

Lemma find_update_other {A B} (q p : A -> bool) (g : A -> A) (l : list A)
  (a b : B) :
  (forall x, q (g x) = q x) ->
  match Array_find q (update_found p g l) with Some _ => a | None => b end
  = match Array_find q l with Some _ => a | None => b end.
Proof.
  unfold Array_find. intros Hq.
  induction l as [|x r IH]; simpl; [reflexivity|].
  destruct (p x); simpl.
  - rewrite Hq. now destruct (q x).
  - destruct (q x); [reflexivity | exact IH].
Qed.

(** X17.  In the variant with priorities, [toggleTodo] and
    [cyclePriority] commute, on the same id or on different ones, found or
    not: both orders return, and in the same state (collection, storage
    slot and document). *)
Theorem Priority_toggle_and_cycle_commute
  (i j : jsstring) (p : PriorityApp.State) :
  exists p',
    bind (PriorityApp.toggleTodo i) (fun _ => PriorityApp.cyclePriority j) p
    = Returns tt p'
    /\ bind (PriorityApp.cyclePriority j)
         (fun _ => PriorityApp.toggleTodo i) p
       = Returns tt p'.
Proof.
  unfold bind. rewrite Priority_toggleTodo_closed,
    (Priority_cyclePriority_closed j p).
  rewrite Priority_toggleTodo_closed, Priority_cyclePriority_closed.
  eexists. split; [reflexivity|]. f_equal.
  cbn [Priority_saved PriorityApp.todos PriorityApp.set_dom].
  destruct (Array_find (PriorityApp.has_id i) (PriorityApp.todos p))
    as [ti|] eqn:Ei;
    destruct (Array_find (PriorityApp.has_id j) (PriorityApp.todos p))
      as [tj|] eqn:Ej;
    cbn [Priority_saved PriorityApp.todos PriorityApp.set_dom];
    rewrite ?find_update_other by reflexivity; rewrite ?Ei, ?Ej;
    try reflexivity.
  rewrite !Priority_saved_twice. f_equal.
  apply update_found_commute; reflexivity.
Qed.

(** ** Editing in place *)

Lemma App_shown_found (s : App.State) (t : App.Todo) :
  App_shows_view s -> In t (App.getFilteredTodos s) ->
  Array_find (fun it => str_eqb (App.data_id it) (App.id t))
    (App.todoList (App.dom s)) <> None.
Proof.
  unfold App_shows_view. intros [_ Hv] Hin.
  assert (Hi : In (App.id t) (map App.data_id (App.todoList (App.dom s)))).
  { rewrite Hv. now apply in_map. }
  apply in_map_iff in Hi as (it & Hid & Hit).
  intros Hnone. apply (proj1 (find_none_iff _ _)) with (x := it) in Hnone;
    [|exact Hit].
  simpl in Hnone. rewrite Hid, str_eqb_refl in Hnone. discriminate.
Qed.

(** X18.  In [src/app.ts], when the document shows the current view
    (well-formed elements that carry the ids of the records of the view,
    as [render] leaves it on plain markup) and a record of that view has an
    id that makes a selector by [data-id], [finishEdit] on its id with a
    title whose trimmed form is empty returns and removes every record
    with that id and no other: none is left in the collection nor in the
    view under any filter, the records with other ids stay, and the result
    is saved. *)
Theorem App_finishEdit_blank_deletes_shown
  (s : App.State) (t : App.Todo) (newTitle : jsstring) :
  App_shows_view s ->
  In t (App.getFilteredTodos s) ->
  data_id_selector (App.id t) = ByDataId ->
  trim newTitle = [] ->
  exists s',
    App.finishEdit (App.id t) newTitle s = Returns tt s'
    /\ selects (fun x => negb (App.has_id (App.id t) x)) (App.todos s)
         (App.todos s')
    /\ (forall x, In x (App.todos s') -> App.id x <> App.id t)
    /\ (forall f x, In x (App.view f s') -> App.id x <> App.id t)
    /\ (forall x, In x (App.todos s) -> App.id x <> App.id t ->
                  In x (App.todos s'))
    /\ App.storage s' = Some (App.JSON_stringify (App.todos s')).
Proof.
  intros Hv Hin Sel Hblank.
  pose proof (App_shown_found s t Hv Hin) as Hq.
  destruct Hv as [W _].
  assert (Hdel : exists s', App.finishEdit (App.id t) newTitle s = Returns tt s'
            /\ App.todos s'
               = Array_filter (fun x => negb (App.has_id (App.id t) x))
                   (App.todos s)
            /\ App.storage s' = Some (App.JSON_stringify (App.todos s'))).
  { unfold App.finishEdit, bind at 1, App.querySelector_data_id.
    rewrite Sel, W.
    destruct (Array_find _ (App.todoList (App.dom s))); [|congruence].
    rewrite Hblank. unfold App.set_item_class, bind, modify.
    cbn beta iota delta [truthy].
    match goal with
    | |- exists s', App.deleteTodo ?i ?s0 = _ /\ _ =>
        destruct (App_deleteTodo_result i s0) as (s' & H & T & S & _)
    end.
    exists s'. split; [exact H|]. split; [exact T | exact S]. }
  destruct Hdel as (s' & H & T & S). exists s'.
  split; [exact H|].
  split; [rewrite T; apply selects_filter|].
  assert (Hgone : forall x, In x (App.todos s') -> App.id x <> App.id t).
  { intros x Hx. rewrite T in Hx. apply filter_In in Hx as [_ Hx].
    apply negb_true_iff in Hx. intros Heq.
    unfold App.has_id in Hx. rewrite Heq, str_eqb_refl in Hx. discriminate. }
  split; [exact Hgone|]. split.
  { intros f x Hx. apply Hgone.
    rewrite App_view_filter in Hx. now apply filter_In in Hx as [Hx _]. }
  split; [|exact S].
  intros x Hx Hne. rewrite T. apply filter_In. split; [exact Hx|].
  apply negb_true_iff. unfold App.has_id.
  destruct (str_eqb (App.id x) (App.id t)) eqn:E; [|reflexivity].
  apply str_eqb_eq in E. congruence.
Qed.

Lemma App_finishEdit_blank_deletes_shown_witness :
  exists s',
    App.finishEdit (App.id sample_todo) (js "  ") App_one_state = Returns tt s'
    /\ selects (fun x => negb (App.has_id (App.id sample_todo) x))
         (App.todos App_one_state) (App.todos s')
    /\ (forall x, In x (App.todos s') -> App.id x <> App.id sample_todo)
    /\ (forall f x, In x (App.view f s') -> App.id x <> App.id sample_todo)
    /\ (forall x, In x (App.todos App_one_state) ->
                  App.id x <> App.id sample_todo -> In x (App.todos s'))
    /\ App.storage s' = Some (App.JSON_stringify (App.todos s')).
Proof.
  apply (App_finishEdit_blank_deletes_shown App_one_state sample_todo
           (js "  "));
    [split; reflexivity | left; reflexivity | reflexivity | reflexivity].
Defined.



(** X22.  For an id that makes a selector by [data-id] and that no record
    of the collection has, on a list of well-formed elements, [finishEdit]
    returns and leaves the collection as it is, whatever the title and
    whether or not an element of the list still carries the id.  Both
    variants. *)
Theorem finishEdit_missing_id_keeps_collection
  (i v : jsstring) (s : App.State) (p : PriorityApp.State) :
  data_id_selector i = ByDataId ->
  forallb App.item_wellformed (App.todoList (App.dom s)) = true ->
  forallb PriorityApp.item_wellformed
    (PriorityApp.todoList (PriorityApp.dom p)) = true ->
  Array_find (App.has_id i) (App.todos s) = None ->
  Array_find (PriorityApp.has_id i) (PriorityApp.todos p) = None ->
  (exists s', App.finishEdit i v s = Returns tt s'
              /\ App.todos s' = App.todos s
              /\ App.currentFilter s' = App.currentFilter s)
  /\ (exists p', PriorityApp.finishEdit i v p = Returns tt p'
                 /\ PriorityApp.todos p' = PriorityApp.todos p
                 /\ PriorityApp.currentFilter p'
                    = PriorityApp.currentFilter p
                 /\ PriorityApp.storage p' = PriorityApp.storage p).
Proof.
  intros Sel W W' H H'. split.
  - unfold App.finishEdit, bind at 1, App.querySelector_data_id.
    rewrite Sel, W.
    destruct (Array_find _ (App.todoList (App.dom s))); [|now exists s].
    unfold App.set_item_class, bind, modify. cbn beta iota.
    destruct (truthy (trim v)).
    + rewrite App_editTodo_missing by exact H.
      eexists. split; [reflexivity|]. split; reflexivity.
    + match goal with
      | |- exists s', App.deleteTodo ?j ?x = _ /\ _ =>
          destruct (App_deleteTodo_result j x) as (s' & D & T & _ & F)
      end.
      exists s'. split; [exact D|]. rewrite T, F. cbn.
      split; [now apply find_none_filter | reflexivity].
  - unfold PriorityApp.finishEdit, bind at 1,
      PriorityApp.querySelector_data_id.
    rewrite Sel, W'.
    destruct (Array_find _ (PriorityApp.todoList (PriorityApp.dom p)));
      [|now exists p].
    unfold PriorityApp.set_item_class, bind, modify. cbn beta iota.
    destruct (truthy (trim v)).
    + rewrite Priority_editTodo_missing by exact H'.
      eexists. split; [reflexivity|]. repeat split.
    + eexists. split; [reflexivity|]. repeat split.
Qed.

Lemma finishEdit_missing_id_keeps_collection_witness :
  (exists s', App.finishEdit (js "nobody") (js "x") App_one_state
              = Returns tt s'
              /\ App.todos s' = App.todos App_one_state
              /\ App.currentFilter s' = App.currentFilter App_one_state)
  /\ (exists p', PriorityApp.finishEdit (js "nobody") (js "x")
                   Priority_one_state = Returns tt p'
                 /\ PriorityApp.todos p' = PriorityApp.todos Priority_one_state
                 /\ PriorityApp.currentFilter p'
                    = PriorityApp.currentFilter Priority_one_state
                 /\ PriorityApp.storage p'
                    = PriorityApp.storage Priority_one_state).
Proof.
  apply (finishEdit_missing_id_keeps_collection (js "nobody") (js "x")
           App_one_state Priority_one_state); reflexivity.
Defined.
(** ** [src/unnamed/part_001]: invariants of event sequences *)

Lemma Priority_generateId_plain (e : Entropy) :
  markup_plain (Math_random_36 e) = true ->
  markup_plain (PriorityApp.generateId e) = true.
Proof.
  intros H. unfold PriorityApp.generateId, substr.
  rewrite markup_plain_app, toString36_plain. now apply markup_plain_skipn.
Qed.

Lemma Priority_dom_quiet_refl (d : PriorityApp.Dom) : Priority_dom_quiet d d.
Proof. unfold Priority_dom_quiet. auto. Qed.

Lemma Priority_step_quiet_same (ev : Priority_event)
  (s : PriorityApp.State) : Priority_step ev s s.
Proof.
  split; [now left|]. left. auto using Priority_dom_quiet_refl.
Qed.

Lemma Priority_saved_step (ev : Priority_event)
  (l : list PriorityApp.Todo) (s0 s : PriorityApp.State) :
  PriorityApp.todoInput_value (PriorityApp.dom s)
  = PriorityApp.todoInput_value (PriorityApp.dom s0) ->
  Priority_change ev (PriorityApp.todoInput_value (PriorityApp.dom s0))
    (PriorityApp.todos s0) l ->
  Priority_step ev s0 (Priority_saved l s).
Proof.
  intros V Ch. split; [left; exact V|].
  right. eexists. split; [reflexivity|]. left. split; [reflexivity|].
  exact Ch.
Qed.

Lemma Priority_set_item_class_quiet (i : jsstring) (b : bool)
  (s : PriorityApp.State) :
  exists s', PriorityApp.set_item_class i b s = Returns tt s'
    /\ PriorityApp.todos s' = PriorityApp.todos s
    /\ PriorityApp.currentFilter s' = PriorityApp.currentFilter s
    /\ PriorityApp.storage s' = PriorityApp.storage s
    /\ PriorityApp.todoInput_value (PriorityApp.dom s')
       = PriorityApp.todoInput_value (PriorityApp.dom s)
    /\ Priority_dom_quiet (PriorityApp.dom s) (PriorityApp.dom s').
Proof.
  unfold PriorityApp.set_item_class, modify. eexists.
  split; [reflexivity|]. cbn. repeat split.
  apply map_update_found. reflexivity.
Qed.

Lemma Priority_query_cases (i : jsstring) (s : PriorityApp.State) :
  forallb PriorityApp.item_wellformed
    (PriorityApp.todoList (PriorityApp.dom s)) = true ->
  data_id_selector i <> OtherSelector ->
  PriorityApp.querySelector_data_id i s = Throws DOMSyntaxError s
  \/ PriorityApp.querySelector_data_id i s
     = Returns
         (Array_find (fun it => str_eqb (PriorityApp.data_id it) i)
            (PriorityApp.todoList (PriorityApp.dom s))) s.
Proof.
  intros W S. unfold PriorityApp.querySelector_data_id. rewrite W.
  destruct (data_id_selector i); [right | left | congruence]; auto.
Qed.

(** Every event, on a list of well-formed elements and with an id whose
    selector the model reads, returns or throws, and does one step. *)
Lemma Priority_handle_step (ev : Priority_event) (s : PriorityApp.State) :
  forallb PriorityApp.item_wellformed
    (PriorityApp.todoList (PriorityApp.dom s)) = true ->
  Priority_event_plain ev ->
  exists s', ends_in (Priority_handle ev s) s' /\ Priority_step ev s s'.
Proof.
  intros W P.
  assert (Same : exists s',
             ends_in (Returns tt s) s' /\ Priority_step ev s s')
    by (exists s; split; [now left | apply Priority_step_quiet_same]).
  assert (Thrown : exists s',
             ends_in (Throws DOMSyntaxError s) s' /\ Priority_step ev s s')
    by (exists s; split; [right; now exists DOMSyntaxError
                         | apply Priority_step_quiet_same]).
  destruct ev as [v|key e|i|i|i|i|i v|f|]; cbn [Priority_handle].
  - unfold PriorityApp.set_todoInput_value, modify. eexists.
    split; [left; reflexivity|].
    split; [right; right; reflexivity|].
    left. cbn. unfold Priority_dom_quiet. cbn. auto 8.
  - unfold PriorityApp.on_keypress, bind at 1, gets at 1. cbn beta iota.
    destruct (str_eqb key (js "Enter")
              && truthy (trim (PriorityApp.todoInput_value
                                 (PriorityApp.dom s)))) eqn:E;
      [|exact Same].
    apply andb_true_iff in E as [_ E].
    assert (Hne : trim (PriorityApp.todoInput_value (PriorityApp.dom s))
                  <> [])
      by (intros Z; rewrite Z in E; discriminate).
    unfold bind. rewrite Priority_addTodo_closed.
    unfold PriorityApp.set_todoInput_value, modify.
    eexists. split; [left; reflexivity|].
    split; [right; left; reflexivity|].
    right.
    set (l := PriorityApp.mkTodo (PriorityApp.generateId e)
                (trim (PriorityApp.todoInput_value (PriorityApp.dom s)))
                false (new_Date e) PriorityApp.medium
              :: PriorityApp.todos s).
    exists (PriorityApp.mkState l (PriorityApp.currentFilter s)
              (Some (PriorityApp.JSON_stringify l))
              (PriorityApp.mkDom []
                 (PriorityApp.todoList (PriorityApp.dom s))
                 (PriorityApp.filter_active (PriorityApp.dom s))
                 (PriorityApp.todoCount_textContent (PriorityApp.dom s))
                 (PriorityApp.emptyState_display (PriorityApp.dom s)))).
    split; [reflexivity|]. left. split; [reflexivity|].
    eapply Priority_change_add; [reflexivity | exact Hne].
  - unfold PriorityApp.toggleTodoPublic. rewrite Priority_toggleTodo_closed.
    destruct (Array_find (PriorityApp.has_id i) (PriorityApp.todos s));
      [|exact Same].
    eexists. split; [left; reflexivity|].
    apply Priority_saved_step; [reflexivity | apply Priority_change_flag].
  - unfold PriorityApp.cyclePriorityPublic.
    rewrite Priority_cyclePriority_closed.
    destruct (Array_find (PriorityApp.has_id i) (PriorityApp.todos s));
      [|exact Same].
    eexists. split; [left; reflexivity|].
    apply Priority_saved_step; [reflexivity | apply Priority_change_priority].
  - unfold PriorityApp.deleteTodoPublic. rewrite Priority_deleteTodo_closed.
    eexists. split; [left; reflexivity|].
    apply Priority_saved_step; [reflexivity | apply Priority_change_remove].
  - cbn in P. unfold PriorityApp.startEdit, bind.
    destruct (Priority_query_cases i s W P) as [Q|Q]; rewrite Q;
      [exact Thrown|].
    destruct (Array_find _ _); [|exact Same].
    destruct (Priority_set_item_class_quiet i true s)
      as (s' & H & T & F & S & V & Q').
    exists s'. split; [left; exact H|].
    split; [left; exact V | left; auto].
  - cbn in P. destruct P as [P _]. unfold PriorityApp.finishEdit, bind at 1.
    destruct (Priority_query_cases i s W P) as [Q|Q]; rewrite Q;
      [exact Thrown|].
    destruct (Array_find _ _); [|exact Same].
    destruct (Priority_set_item_class_quiet i false s)
      as (s0 & H & T & F & St & V & Q').
    unfold bind. rewrite H.
    assert (Q0 : Priority_step (PEditBlurred i v) s s0)
      by (split; [left; exact V | left; auto]).
    destruct (trim v) as [|c r] eqn:B; cbn [truthy];
      [exists s0; split; [left; reflexivity | exact Q0]|].
    rewrite Priority_editTodo_closed, B. cbn [truthy].
    destruct (Array_find (PriorityApp.has_id i) (PriorityApp.todos s0));
      [|exists s0; split; [left; reflexivity | exact Q0]].
    eexists. split; [left; reflexivity|].
    apply Priority_saved_step; [exact V|]. rewrite T, <- B.
    eapply Priority_change_title; [reflexivity|]. rewrite B. discriminate.
  - unfold PriorityApp.on_filter_click. rewrite Priority_setFilter_closed.
    eexists. split; [left; reflexivity|].
    split; [left; reflexivity|].
    right. eexists. split; [reflexivity|]. right. split; reflexivity.
  - unfold PriorityApp.on_clear_click.
    rewrite Priority_clearCompletedTodos_closed.
    eexists. split; [left; reflexivity|].
    apply Priority_saved_step; [reflexivity | apply Priority_change_remove].
Qed.

Lemma Priority_change_plain (ev : Priority_event) (input : jsstring)
  (l l' : list PriorityApp.Todo) :
  Priority_change ev input l l' -> Priority_event_plain ev ->
  markup_plain input = true ->
  forallb Priority_todo_plain l = true ->
  forallb Priority_todo_plain l' = true.
Proof.
  intros [key e -> Hne|i|i|i v -> Hne|p] P V L.
  - cbn in P. cbn [forallb]. rewrite L, andb_true_r.
    unfold Priority_todo_plain. cbn [PriorityApp.id PriorityApp.title].
    now rewrite (Priority_generateId_plain e P), (markup_plain_trim input V).
  - apply forallb_update_found; [|exact L].
    intros [a b' c d pr] H. exact H.
  - apply forallb_update_found; [|exact L].
    intros [a b' c d pr] H. exact H.
  - cbn in P. destruct P as [_ P].
    apply forallb_update_found; [|exact L].
    intros [a b' c d pr]. unfold Priority_todo_plain, PriorityApp.set_title.
    cbn [PriorityApp.id PriorityApp.title]. intros H.
    apply andb_true_iff in H as [H _].
    now rewrite H, (markup_plain_trim v P).
  - now apply forallb_filter.
Qed.

Lemma Priority_rendered_wellformed (x : PriorityApp.State) :
  forallb Priority_todo_plain (PriorityApp.todos x) = true ->
  forallb PriorityApp.item_wellformed
    (PriorityApp.todoList (Priority_rendered x)) = true.
Proof.
  intros L. unfold Priority_rendered. cbn [PriorityApp.todoList].
  rewrite (forallb_map_ext PriorityApp.item_wellformed Priority_todo_plain)
    by reflexivity.
  unfold PriorityApp.getFilteredTodos.
  destruct (PriorityApp.currentFilter x); [exact L| |];
    now apply forallb_filter.
Qed.

Lemma Priority_quiet_map {B} (f : PriorityApp.Item -> B)
  (l l' : list PriorityApp.Item) :
  (forall it, f (PriorityApp.set_editing false it) = f it) ->
  map (PriorityApp.set_editing false) l'
  = map (PriorityApp.set_editing false) l ->
  map f l' = map f l.
Proof.
  intros Hf E.
  transitivity (map f (map (PriorityApp.set_editing false) l')).
  { rewrite map_map. apply map_ext. intros it. symmetry. apply Hf. }
  rewrite E, map_map. apply map_ext, Hf.
Qed.

Lemma Priority_wellformed_forget (l l' : list PriorityApp.Item) :
  map (PriorityApp.set_editing false) l'
  = map (PriorityApp.set_editing false) l ->
  forallb PriorityApp.item_wellformed l = true ->
  forallb PriorityApp.item_wellformed l' = true.
Proof.
  intros E H.
  rewrite <- (forallb_map_ext PriorityApp.item_wellformed
                PriorityApp.item_wellformed (PriorityApp.set_editing false))
    by reflexivity.
  rewrite E.
  now rewrite (forallb_map_ext PriorityApp.item_wellformed
                 PriorityApp.item_wellformed) by reflexivity.
Qed.

Lemma Priority_step_plain (ev : Priority_event) (s s' : PriorityApp.State) :
  Priority_step ev s s' -> Priority_event_plain ev ->
  Priority_markup_plain s -> Priority_markup_plain s'.
Proof.
  intros [V St] P [[L I] W].
  assert (I' : markup_plain
                 (PriorityApp.todoInput_value (PriorityApp.dom s')) = true).
  { destruct V as [->|[->| ->]]; [exact I | reflexivity | exact P]. }
  destruct St as [(T & _ & _ & Q)|(x & -> & Ch)].
  - split; [split; [now rewrite T | exact I']|].
    destruct Q as (Q & _). now apply (Priority_wellformed_forget _ _ Q).
  - assert (Lx : forallb Priority_todo_plain (PriorityApp.todos x) = true).
    { destruct Ch as [(_ & Ch)|(T & _)]; [|now rewrite T].
      exact (Priority_change_plain _ _ _ _ Ch P I L). }
    split; [split; [exact Lx | exact I']|].
    now apply Priority_rendered_wellformed.
Qed.

Lemma Priority_run_step (ev : Priority_event) (r : list Priority_event)
  (s s1 : PriorityApp.State) :
  ends_in (Priority_handle ev s) s1 ->
  Priority_run (ev :: r) s = Priority_run r s1.
Proof.
  intros [H|[e H]]; cbn [Priority_run]; now rewrite H.
Qed.

Lemma Priority_run_invariant (I : PriorityApp.State -> Prop) :
  (forall ev s s', Priority_event_plain ev -> Priority_markup_plain s' ->
                   Priority_step ev s s' -> I s -> I s') ->
  forall evs s, Forall Priority_event_plain evs ->
  Priority_markup_plain s -> I s ->
  exists s', Priority_run evs s = Returns tt s' /\ I s'
             /\ Priority_markup_plain s'.
Proof.
  intros Hstep evs. induction evs as [|ev r IH]; intros s HE HM HI.
  - exists s. auto.
  - inversion HE as [|? ? Eev Er]; subst.
    destruct (Priority_handle_step ev s (proj2 HM) Eev) as (s1 & H1 & S1).
    pose proof (Priority_step_plain ev s s1 S1 Eev HM) as M1.
    destruct (IH s1 Er M1 (Hstep ev s s1 Eev M1 S1 HI))
      as (s' & H' & I' & M').
    exists s'. split; [|auto]. now rewrite (Priority_run_step ev r s s1 H1).
Qed.

Lemma Priority_render_plain (x : PriorityApp.State) :
  Priority_records_plain x ->
  Priority_markup_plain (PriorityApp.set_dom (Priority_rendered x) x).
Proof.
  intros [L I]. split; [split; [exact L | exact I]|].
  now apply Priority_rendered_wellformed.
Qed.

Lemma Priority_rendered_in_step (x : PriorityApp.State) :
  forallb Priority_todo_plain (PriorityApp.todos x) = true ->
  Priority_document_in_step (PriorityApp.set_dom (Priority_rendered x) x).
Proof.
  intros L. unfold Priority_document_in_step.
  split; [now apply Priority_rendered_wellformed|].
  destruct x as [l f st d].
  unfold Priority_rendered, PriorityApp.view,
    PriorityApp.set_dom, PriorityApp.set_currentFilter,
    PriorityApp.activeTodos, PriorityApp.getFilteredTodos.
  cbn [PriorityApp.dom PriorityApp.todoList PriorityApp.filter_active
       PriorityApp.todoCount_textContent PriorityApp.emptyState_display
       PriorityApp.todos PriorityApp.currentFilter PriorityApp.storage].
  split. { rewrite map_map. apply map_ext. reflexivity. }
  split. { rewrite map_map. apply map_ext. reflexivity. }
  split. { rewrite map_map. apply map_ext. reflexivity. }
  split. { rewrite map_map. apply map_ext. reflexivity. }
  split; [reflexivity|].
  split.
  { f_equal.
    now destruct (Nat.eqb
                    (List.length
                       (Array_filter
                          (fun t => negb (PriorityApp.completed t)) l)) 1). }
  destruct (match f with
            | Filter_active =>
                Array_filter (fun t => negb (PriorityApp.completed t)) l
            | Filter_completed =>
                Array_filter (fun t => PriorityApp.completed t) l
            | _ => l
            end); cbn [List.length Nat.eqb]; split; split; congruence.
Qed.

Lemma Priority_step_in_step (ev : Priority_event)
  (s s' : PriorityApp.State) :
  Priority_step ev s s' -> Priority_markup_plain s' ->
  Priority_document_in_step s -> Priority_document_in_step s'.
Proof.
  intros [_ [(T & F & _ & Q)|(x & -> & _)]] [[L _] W] I;
    [|now apply Priority_rendered_in_step].
  destruct Q as (Q1 & Q2 & Q3 & Q4).
  destruct I as (_ & I).
  destruct s as [l f st d], s' as [l' f' st' d'].
  unfold Priority_document_in_step, PriorityApp.view,
    PriorityApp.set_currentFilter, PriorityApp.getFilteredTodos in *.
  cbn [PriorityApp.dom PriorityApp.todos PriorityApp.currentFilter
       PriorityApp.storage] in *.
  split; [exact W|].
  rewrite (Priority_quiet_map PriorityApp.data_id _ _ (fun _ => eq_refl) Q1),
    (Priority_quiet_map PriorityApp.item_title _ _ (fun _ => eq_refl) Q1),
    (Priority_quiet_map PriorityApp.item_completed _ _ (fun _ => eq_refl) Q1),
    (Priority_quiet_map PriorityApp.item_priority _ _ (fun _ => eq_refl) Q1).
  rewrite Q2, Q3, Q4, T, F. exact I.
Qed.

(** X19.  In the variant with priorities, once [render] has run (the
    constructor ends with it) on records and an input box with plain
    markup, every sequence of events runs to its end, when what is typed is
    plain markup and the ids of the edit events make selectors that select
    by [data-id] or are no selectors.  After it the document agrees with
    the state: the list elements are those of the records of the current
    view, with their ids, titles, flags and priorities, the active filter
    button is the current filter, the count element reads "<n> items left"
    for the number n of active records, with "item" exactly when n is 1,
    and the empty state shows exactly when the current view (not the
    collection) is empty. *)
Theorem Priority_events_keep_document_in_step
  (x : PriorityApp.State) (evs : list Priority_event) :
  Priority_records_plain x ->
  Forall Priority_event_plain evs ->
  exists p0 p,
    PriorityApp.render x = Returns tt p0
    /\ Priority_document_in_step p0
    /\ Priority_run evs p0 = Returns tt p
    /\ Priority_document_in_step p.
Proof.
  intros X E. rewrite Priority_render_closed.
  destruct (Priority_run_invariant Priority_document_in_step)
    with (evs := evs) (s := PriorityApp.set_dom (Priority_rendered x) x)
    as (s & H & I & _).
  - intros ev s s' _ M St. now apply (Priority_step_in_step ev).
  - exact E.
  - now apply Priority_render_plain.
  - apply Priority_rendered_in_step, X.
  - do 2 eexists. split; [reflexivity|].
    split; [apply Priority_rendered_in_step, X|].
    split; [exact H | exact I].
Qed.

Lemma Priority_events_keep_document_in_step_witness :
  exists p0 p,
    PriorityApp.render Priority_one_state = Returns tt p0
    /\ Priority_document_in_step p0
    /\ Priority_run sample_priority_events p0 = Returns tt p
    /\ Priority_document_in_step p.
Proof.
  apply (Priority_events_keep_document_in_step Priority_one_state
           sample_priority_events).
  - split; reflexivity.
  - repeat constructor; try reflexivity; vm_compute; discriminate.
Defined.

(** X20.  In the variant with priorities the storage slot never lags
    behind the collection: on a state of plain markup, every sequence of
    events that bring in plain markup runs to its end, and then either no
    event has changed the collection or the slot, or the slot holds the
    collection as [saveToStorage] writes it.  A slot that holds the
    collection at the start holds it at the end. *)
Theorem Priority_events_keep_slot_saved
  (evs : list Priority_event) (p0 : PriorityApp.State) :
  Priority_markup_plain p0 ->
  Forall Priority_event_plain evs ->
  exists p,
    Priority_run evs p0 = Returns tt p
    /\ ((PriorityApp.todos p = PriorityApp.todos p0
         /\ PriorityApp.storage p = PriorityApp.storage p0)
        \/ Priority_slot_saved p)
    /\ (Priority_slot_saved p0 -> Priority_slot_saved p).
Proof.
  intros M E.
  destruct (Priority_run_invariant
              (fun p => (PriorityApp.todos p = PriorityApp.todos p0
                         /\ PriorityApp.storage p = PriorityApp.storage p0)
                        \/ Priority_slot_saved p)) with (evs := evs) (s := p0)
    as (p & H & I & _).
  - unfold Priority_slot_saved.
    intros ev s s' _ _ [_ [(T & _ & S & _)|(x & -> & [[S _]|[T S]])]] I; cbn.
    + rewrite T, S. exact I.
    + now right.
    + rewrite T, S. exact I.
  - exact E.
  - exact M.
  - left. split; reflexivity.
  - exists p. split; [exact H|]. split; [exact I|].
    unfold Priority_slot_saved in *. intros S0.
    destruct I as [[T S]|S]; [|exact S]. now rewrite T, S.
Qed.

Lemma Priority_events_keep_slot_saved_witness :
  exists p,
    Priority_run sample_priority_events Priority_one_state = Returns tt p
    /\ ((PriorityApp.todos p = PriorityApp.todos Priority_one_state
         /\ PriorityApp.storage p = PriorityApp.storage Priority_one_state)
        \/ Priority_slot_saved p)
    /\ (Priority_slot_saved Priority_one_state -> Priority_slot_saved p).
Proof.
  apply (Priority_events_keep_slot_saved sample_priority_events
           Priority_one_state).
  - repeat split; reflexivity.
  - repeat constructor; try reflexivity; vm_compute; discriminate.
Defined.

(** X21.  The [keypress] listener of the variant with priorities, when
    the input box holds text that is not blank: on Enter it prepends a
    record with the trimmed text, not completed and of priority medium,
    saves, and empties the box; on any other key it leaves the state as it
    is. *)
Theorem Priority_keypress_adds_medium
  (key : jsstring) (e : Entropy) (p : PriorityApp.State) :
  trim (PriorityApp.todoInput_value (PriorityApp.dom p)) <> [] ->
  exists p',
    PriorityApp.on_keypress key e p = Returns tt p'
    /\ if str_eqb key (js "Enter")
       then PriorityApp.todos p'
            = PriorityApp.mkTodo (PriorityApp.generateId e)
                (trim (PriorityApp.todoInput_value (PriorityApp.dom p)))
                false (new_Date e) PriorityApp.medium
              :: PriorityApp.todos p
            /\ PriorityApp.todoInput_value (PriorityApp.dom p') = []
            /\ Priority_slot_saved p'
            /\ PriorityApp.currentFilter p' = PriorityApp.currentFilter p
       else p' = p.
Proof.
  intros H. unfold PriorityApp.on_keypress, bind at 1, gets at 1.
  cbn beta iota.
  destruct (trim (PriorityApp.todoInput_value (PriorityApp.dom p)))
    as [|c r] eqn:E; [congruence|].
  cbn [truthy]. rewrite andb_true_r.
  destruct (str_eqb key (js "Enter")); [|now exists p].
  unfold bind. rewrite Priority_addTodo_closed.
  unfold PriorityApp.set_todoInput_value, modify.
  eexists. split; [reflexivity|]. unfold Priority_slot_saved. cbn. auto.
Qed.

Lemma Priority_keypress_adds_medium_witness :
  let p := PriorityApp.mkState [] Filter_all None
             (PriorityApp.mkDom (js " buy milk ") [] Filter_all
                (js "0 items left") flex) in
  exists p',
    PriorityApp.on_keypress (js "Enter") sample_entropy p = Returns tt p'
    /\ if str_eqb (js "Enter") (js "Enter")
       then PriorityApp.todos p'
            = PriorityApp.mkTodo (PriorityApp.generateId sample_entropy)
                (trim (PriorityApp.todoInput_value (PriorityApp.dom p)))
                false (new_Date sample_entropy) PriorityApp.medium
              :: PriorityApp.todos p
            /\ PriorityApp.todoInput_value (PriorityApp.dom p') = []
            /\ Priority_slot_saved p'
            /\ PriorityApp.currentFilter p' = PriorityApp.currentFilter p
       else p' = p.
Proof.
  intros p. apply (Priority_keypress_adds_medium (js "Enter")
                     sample_entropy p).
  discriminate.
Defined.
